(** * Encrypted identity store: the FHE simulator, the two API routes and
    the page that verifies

    A shallow embedding of

    - [server/lib/fhe.ts]: [FHESimulator.encrypt], [FHESimulator.decrypt],
      [FHESimulator.homomorphicEquality];
    - [server/routes.ts]: the register and the verify handler of
      [registerRoutes], and [seedDatabase];
    - [server/storage.ts]: [createIdentity], [getIdentityByHash];
    - [shared/schema.ts]: [registerIdentitySchema], [verifyIdentitySchema];
    - [shared/routes.ts]: [buildUrl];
    - [client/src/pages/VerifyIdentity.tsx]: [mockEncrypt], [mockDecrypt]
      and the result that [onSubmit] sets;

    together with the pieces of the JavaScript runtime these functions call:
    [JSON.stringify], [JSON.parse], [Buffer] with its hex and base64
    encodings, [randomBytes], the loose equality [==], the SHA-256 digest,
    [String.prototype.replace] with a string for its pattern, [btoa], [atob]
    and [Math.random].

    Conventions of the model.

    - A JavaScript string is represented by the bytes of its UTF-8 encoding
      (a Rocq [string]); [String_length] counts its UTF-16 code units.
      [Buffer.toString('utf-8')] is the identity on these bytes: bytes that
      are no UTF-8, which JavaScript would replace, are kept as they are.
      [utf8_valid] tells the texts on which the two agree.
    - A JavaScript number is represented by an integer ([Z]): the numbers
      the routes handle are an age and the match bits 0 and 1.  The model
      is exact on the integers that are numbers (up to 2^53 in absolute
      value).  A numeric text with a fractional value has no
      representation: [JSON_parse] rejects it and [StringToNumber] answers
      [None], which is also the answer for [NaN]; a larger integer is kept
      as it is written, where JavaScript rounds it.
    - A statement that depends on what a text decrypts to, or on how a
      number is written, is made on the texts and numbers on which the
      model is exact: [exact_text], [exact_envelope], [exact_query],
      [exact_attributes], [exact_param].  [JSON_syntax] is the grammar
      that [JSON.parse] accepts, numbers of any value included.
    - The table is a list of rows.  A text that holds the byte 0 is
      refused by the database as the parameter of a query
      ([text_parameter]).
    - An exception is a value of type [exn]; a function that can throw
      returns a [result].
    - The random source of the process is the state [entropy]: the bytes it
      is going to deliver, in order.  The random source of the page is the
      state [random_numbers]: the numbers [Math.random] is going to return.
    - A search in a text compares bytes, which finds what JavaScript finds
      in a text that has no lone surrogate. *)
From Stdlib Require Import String Ascii ZArith List Lia Bool Arith.

From Stdlib Require Import Zify ZifyNat.

From Stdlib Require Import DecimalString DecimalPos DecimalN DecimalZ.

From Stdlib Require Import Sorted Permutation.

Import ListNotations.

Open Scope string_scope.

Open Scope list_scope.

Open Scope nat_scope.

(** [lia] also decides goals with division and remainder by a constant. *)
Ltac Zify.zify_post_hook ::= Z.to_euclidean_division_equations.

(** ** Results and exceptions *)

Inductive exn : Type :=
| Error (message : string)          (* [new Error(message)] *)
| TypeError (message : string)
| SyntaxError
| ZodError (issues : list (string * string))   (* path, message *)
| UniqueViolation (constraint : string)
| InvalidByteSequence.      (* the database refuses a text parameter *)

Inductive result (A : Type) : Type :=
| Ok (a : A)
| Throw (e : exn).

Arguments Ok {A} a.

Arguments Throw {A} e.

Definition bind {A B : Type} (r : result A) (k : A -> result B) : result B :=
  match r with
  | Ok a => k a
  | Throw e => Throw e
  end.

Notation "'do' x <- r ; k" := (bind r (fun x => k))
  (at level 10, x name, r at level 100, k at level 200).

(** [try { body } catch (e) { throw new Error(message) }] *)
Definition try_catch_rethrow {A : Type} (body : result A) (message : string)
  : result A :=
  match body with
  | Ok a => Ok a
  | Throw _ => Throw (Error message)
  end.

(** ** Characters *)

Definition dquote : ascii := "034"%char.

Definition backslash : ascii := "\"%char.

Definition code (c : ascii) : nat := nat_of_ascii c.

Definition in_range (lo hi : nat) (c : ascii) : bool :=
  (lo <=? code c) && (code c <=? hi).

Definition is_digit (c : ascii) : bool := in_range 48 57 c.

Definition digit_value (c : ascii) : nat := code c - 48.

(** ** [Buffer.toString('hex')] *)

Module Hex.

Definition alphabet : list ascii := list_ascii_of_string "0123456789abcdef".

Definition digit (n : nat) : ascii := nth n alphabet "0"%char.

(** The value of a hexadecimal digit, of either case. *)
Definition value (c : ascii) : option nat :=
  if is_digit c then Some (code c - 48)
  else if in_range 97 102 c then Some (code c - 87)
  else if in_range 65 70 c then Some (code c - 55)
  else None.

Fixpoint encode (bytes : list ascii) : string :=
  match bytes with
  | [] => ""
  | b :: rest =>
      String (digit (code b / 16)) (String (digit (code b mod 16)) (encode rest))
  end.

End Hex.

(** ** [Buffer.toString('base64')] and [Buffer.from(_, 'base64')] *)

Module Base64.

Definition alphabet : list ascii :=
  list_ascii_of_string
    "ABCDEFGHIJKLMNOPQRSTUVWXYZabcdefghijklmnopqrstuvwxyz0123456789+/".

Definition digit (n : nat) : ascii := nth n alphabet "A"%char.

Definition pad : ascii := "="%char.

(** Three bytes give four digits; a last group of one or two bytes is
    padded with [=]. *)
Fixpoint encode (s : string) : string :=
  match s with
  | EmptyString => ""
  | String a EmptyString =>
      String (digit (code a / 4))
        (String (digit (code a mod 4 * 16)) (String pad (String pad "")))
  | String a (String b EmptyString) =>
      String (digit (code a / 4))
        (String (digit (code a mod 4 * 16 + code b / 16))
           (String (digit (code b mod 16 * 4)) (String pad "")))
  | String a (String b (String c rest)) =>
      String (digit (code a / 4))
        (String (digit (code a mod 4 * 16 + code b / 16))
           (String (digit (code b mod 16 * 4 + code c / 64))
              (String (digit (code c mod 64)) (encode rest))))
  end.

(** The decoder's table: the standard alphabet, and the URL-safe [-] and
    [_] for 62 and 63. *)
Definition value (c : ascii) : option nat :=
  if in_range 65 90 c then Some (code c - 65)
  else if in_range 97 122 c then Some (code c - 71)
  else if is_digit c then Some (code c + 4)
  else if (c =? "+")%char || (c =? "-")%char then Some 62
  else if (c =? "/")%char || (c =? "_")%char then Some 63
  else None.

(** The decoder is forgiving: a character outside the table is skipped,
    and decoding stops at the first padding character. *)
Fixpoint sextets (s : string) : list nat :=
  match s with
  | EmptyString => []
  | String c rest =>
      if (c =? pad)%char then []
      else match value c with
           | Some v => v :: sextets rest
           | None => sextets rest
           end
  end.

Fixpoint bytes_of_sextets (l : list nat) : string :=
  match l with
  | s1 :: s2 :: s3 :: s4 :: rest =>
      String (ascii_of_nat (s1 * 4 + s2 / 16))
        (String (ascii_of_nat (s2 mod 16 * 16 + s3 / 4))
           (String (ascii_of_nat (s3 mod 4 * 64 + s4)) (bytes_of_sextets rest)))
  | [s1; s2; s3] =>
      String (ascii_of_nat (s1 * 4 + s2 / 16))
        (String (ascii_of_nat (s2 mod 16 * 16 + s3 / 4)) "")
  | [s1; s2] => String (ascii_of_nat (s1 * 4 + s2 / 16)) ""
  | _ => ""
  end.

Definition decode (s : string) : string := bytes_of_sextets (sextets s).

End Base64.

(** ** JSON values *)

#[local] Set Warnings "-register-all".

Inductive json : Type :=
| JNull
| JBool (b : bool)
| JNum (n : Z)
| JStr (s : string)
| JArr (items : list json)
| JObj (members : list (string * json)).

(** An own property of a parsed object: a later member of the text
    overwrites an earlier one of the same name. *)
Fixpoint own_property (members : list (string * json)) (key : string)
  : option json :=
  match members with
  | [] => None
  | (k, v) :: rest =>
      match own_property rest key with
      | Some v' => Some v'
      | None => if (k =? key)%string then Some v else None
      end
  end.

(** ** [JSON.stringify] *)

Definition hex4 (n : nat) : string :=
  String (Hex.digit (n / 4096))
    (String (Hex.digit (n / 256 mod 16))
       (String (Hex.digit (n / 16 mod 16)) (String (Hex.digit (n mod 16)) ""))).

(** [QuoteJSONString]: the two-character escapes, [\u00xx] for the other
    control characters, every other byte as it is. *)
Definition escape_char (c : ascii) : string :=
  if (c =? dquote)%char then String backslash (String dquote "")
  else if (c =? backslash)%char then String backslash (String backslash "")
  else if code c =? 8 then String backslash "b"
  else if code c =? 9 then String backslash "t"
  else if code c =? 10 then String backslash "n"
  else if code c =? 12 then String backslash "f"
  else if code c =? 13 then String backslash "r"
  else if code c <? 32 then String backslash (String "u" (hex4 (code c)))
  else String c "".

Fixpoint escape (s : string) : string :=
  match s with
  | EmptyString => ""
  | String c rest => (escape_char c ++ escape rest)%string
  end.

Definition quote (s : string) : string :=
  String dquote (escape s ++ String dquote "")%string.

(** [Number::toString] on an integer. *)
Definition number_to_string (n : Z) : string :=
  match n with
  | Z0 => "0"
  | Zpos p => NilEmpty.string_of_uint (Pos.to_uint p)
  | Zneg p => String "-" (NilEmpty.string_of_uint (Pos.to_uint p))
  end.

Fixpoint join (sep : string) (l : list string) : string :=
  match l with
  | [] => ""
  | [s] => s
  | s :: rest => (s ++ sep ++ join sep rest)%string
  end.

Definition member_text (text_of : json -> string) (m : string * json)
  : string :=
  (quote (fst m) ++ ":" ++ text_of (snd m))%string.

Fixpoint JSON_stringify (j : json) : string :=
  match j with
  | JNull => "null"
  | JBool true => "true"
  | JBool false => "false"
  | JNum n => number_to_string n
  | JStr s => quote s
  | JArr items => ("[" ++ join "," (map JSON_stringify items) ++ "]")%string
  | JObj members =>
      ("{" ++ join "," (map (member_text JSON_stringify) members) ++ "}")%string
  end.

(** ** [JSON.parse] *)

Definition is_ws (c : ascii) : bool :=
  (code c =? 32) || (code c =? 9) || (code c =? 10) || (code c =? 13).

Fixpoint skip_ws (s : string) : string :=
  match s with
  | EmptyString => ""
  | String c rest => if is_ws c then skip_ws rest else s
  end.

(** What a string literal holds: a byte, or the UTF-16 code unit of a
    [\uXXXX] escape. *)
Inductive str_item : Type :=
| Lit (c : ascii)
| Unit16 (u : N).

Definition simple_escape (e : ascii) : option ascii :=
  if (e =? dquote)%char then Some dquote
  else if (e =? backslash)%char then Some backslash
  else if (e =? "/")%char then Some "/"%char
  else if (e =? "b")%char then Some (ascii_of_nat 8)
  else if (e =? "f")%char then Some (ascii_of_nat 12)
  else if (e =? "n")%char then Some (ascii_of_nat 10)
  else if (e =? "r")%char then Some (ascii_of_nat 13)
  else if (e =? "t")%char then Some (ascii_of_nat 9)
  else None.

Definition hex4_value (h1 h2 h3 h4 : ascii) : option N :=
  match Hex.value h1, Hex.value h2, Hex.value h3, Hex.value h4 with
  | Some a, Some b, Some c, Some d =>
      Some (((N.of_nat a * 16 + N.of_nat b) * 16 + N.of_nat c) * 16
            + N.of_nat d)%N
  | _, _, _, _ => None
  end.

(** The text after an opening quote, up to the closing one. *)
Fixpoint scan_string (s : string) : option (list str_item * string) :=
  match s with
  | EmptyString => None
  | String c r =>
      if (c =? dquote)%char then Some ([], r)
      else if (c =? backslash)%char then
        match r with
        | EmptyString => None
        | String e r2 =>
            if (e =? "u")%char then
              match r2 with
              | String h1 (String h2 (String h3 (String h4 r3))) =>
                  match hex4_value h1 h2 h3 h4, scan_string r3 with
                  | Some u, Some (items, rest) => Some (Unit16 u :: items, rest)
                  | _, _ => None
                  end
              | _ => None
              end
            else
              match simple_escape e, scan_string r2 with
              | Some ch, Some (items, rest) => Some (Lit ch :: items, rest)
              | _, _ => None
              end
        end
      else if code c <? 32 then None
      else
        match scan_string r with
        | Some (items, rest) => Some (Lit c :: items, rest)
        | None => None
        end
  end.

(** The UTF-8 bytes of a code point. *)
Definition utf8 (cp : N) : string :=
  (if cp <? 128 then String (ascii_of_N cp) ""
   else if cp <? 2048 then
     String (ascii_of_N (192 + cp / 64)) (String (ascii_of_N (128 + cp mod 64)) "")
   else if cp <? 65536 then
     String (ascii_of_N (224 + cp / 4096))
       (String (ascii_of_N (128 + cp / 64 mod 64))
          (String (ascii_of_N (128 + cp mod 64)) ""))
   else
     String (ascii_of_N (240 + cp / 262144))
       (String (ascii_of_N (128 + cp / 4096 mod 64))
          (String (ascii_of_N (128 + cp / 64 mod 64))
             (String (ascii_of_N (128 + cp mod 64)) ""))))%N.

Definition is_high_surrogate (u : N) : bool :=
  ((55296 <=? u) && (u <=? 56319))%N.

Definition is_low_surrogate (u : N) : bool :=
  ((56320 <=? u) && (u <=? 57343))%N.

(** Two escapes that form a surrogate pair are one code point; an escaped
    surrogate that stands alone keeps its three-byte form. *)
Fixpoint string_of_items (l : list str_item) : string :=
  match l with
  | [] => ""
  | Lit c :: rest => String c (string_of_items rest)
  | Unit16 hi :: rest =>
      match rest with
      | Unit16 lo :: rest' =>
          if is_high_surrogate hi && is_low_surrogate lo
          then (utf8 (65536 + (hi - 55296) * 1024 + (lo - 56320))%N
                  ++ string_of_items rest')%string
          else (utf8 hi ++ string_of_items rest)%string
      | _ => (utf8 hi ++ string_of_items rest)%string
      end
  end.

Definition uint_cons (c : ascii) (u : Decimal.uint) : Decimal.uint :=
  match digit_value c with
  | 0 => Decimal.D0 u
  | 1 => Decimal.D1 u
  | 2 => Decimal.D2 u
  | 3 => Decimal.D3 u
  | 4 => Decimal.D4 u
  | 5 => Decimal.D5 u
  | 6 => Decimal.D6 u
  | 7 => Decimal.D7 u
  | 8 => Decimal.D8 u
  | _ => Decimal.D9 u
  end.

(** The longest run of decimal digits at the start of a text. *)
Fixpoint scan_digits (s : string) : Decimal.uint * string :=
  match s with
  | EmptyString => (Decimal.Nil, "")
  | String c rest =>
      if is_digit c
      then let (u, rest') := scan_digits rest in (uint_cons c u, rest')
      else (Decimal.Nil, s)
  end.

Definition leading_zero (u : Decimal.uint) : bool :=
  match u with
  | Decimal.D0 Decimal.Nil => false
  | Decimal.D0 _ => true
  | _ => false
  end.

Definition is_nil (u : Decimal.uint) : bool :=
  match u with Decimal.Nil => true | _ => false end.

(** The integer [m * 10 ^ k], when it is one. *)
Definition scale10 (m k : Z) : option Z :=
  if (0 <=? k)%Z then Some (m * 10 ^ k)%Z
  else if (m mod 10 ^ (- k) =? 0)%Z then Some (m / 10 ^ (- k))%Z
  else None.

Definition scan_fraction (s : string) : option (Decimal.uint * string) :=
  match s with
  | String c r =>
      if (c =? ".")%char
      then let (u, rest) := scan_digits r in
           if is_nil u then None else Some (u, rest)
      else Some (Decimal.Nil, s)
  | EmptyString => Some (Decimal.Nil, s)
  end.

Definition scan_sign (s : string) : bool * string :=
  match s with
  | String c r =>
      if (c =? "-")%char then (true, r)
      else if (c =? "+")%char then (false, r)
      else (false, s)
  | EmptyString => (false, s)
  end.

Definition scan_exponent (s : string) : option (Z * string) :=
  match s with
  | String c r =>
      if (c =? "e")%char || (c =? "E")%char
      then let (neg, r') := scan_sign r in
           let (u, rest) := scan_digits r' in
           if is_nil u then None
           else Some (if neg then (- Z.of_uint u)%Z else Z.of_uint u, rest)
      else Some (0%Z, s)
  | EmptyString => Some (0%Z, s)
  end.

(** A JSON number: [-? int frac? exp?], kept when its value is an
    integer. *)
Definition scan_number (s : string) : option (Z * string) :=
  let (neg, s1) :=
    match s with
    | String c r => if (c =? "-")%char then (true, r) else (false, s)
    | EmptyString => (false, s)
    end in
  let (ip, s2) := scan_digits s1 in
  if is_nil ip || leading_zero ip then None
  else
    match scan_fraction s2 with
    | None => None
    | Some (fp, s3) =>
        match scan_exponent s3 with
        | None => None
        | Some (e, rest) =>
            match scale10 (Z.of_uint (Decimal.app ip fp))
                          (e - Z.of_nat (Decimal.nb_digits fp)) with
            | Some m => Some (if neg then (- m)%Z else m, rest)
            | None => None
            end
        end
    end.

Fixpoint expect (word s : string) : option string :=
  match word, s with
  | EmptyString, _ => Some s
  | String w word', String c rest =>
      if (w =? c)%char then expect word' rest else None
  | String _ _, EmptyString => None
  end.

Fixpoint parse_value (fuel : nat) (s : string) : option (json * string) :=
  match fuel with
  | O => None
  | S fuel' =>
      match skip_ws s with
      | EmptyString => None
      | String c r =>
          if (c =? "{")%char then
            match skip_ws r with
            | EmptyString => None
            | String c2 r2 =>
                if (c2 =? "}")%char then Some (JObj [], r2)
                else
                  match parse_members fuel' r with
                  | Some (members, rest) => Some (JObj members, rest)
                  | None => None
                  end
            end
          else if (c =? "[")%char then
            match skip_ws r with
            | EmptyString => None
            | String c2 r2 =>
                if (c2 =? "]")%char then Some (JArr [], r2)
                else
                  match parse_elements fuel' r with
                  | Some (items, rest) => Some (JArr items, rest)
                  | None => None
                  end
            end
          else if (c =? dquote)%char then
            match scan_string r with
            | Some (items, rest) => Some (JStr (string_of_items items), rest)
            | None => None
            end
          else if (c =? "t")%char then
            option_map (fun rest => (JBool true, rest)) (expect "rue" r)
          else if (c =? "f")%char then
            option_map (fun rest => (JBool false, rest)) (expect "alse" r)
          else if (c =? "n")%char then
            option_map (fun rest => (JNull, rest)) (expect "ull" r)
          else
            match scan_number (String c r) with
            | Some (n, rest) => Some (JNum n, rest)
            | None => None
            end
      end
  end

with parse_elements (fuel : nat) (s : string) : option (list json * string) :=
  match fuel with
  | O => None
  | S fuel' =>
      match parse_value fuel' s with
      | None => None
      | Some (v, rest) =>
          match skip_ws rest with
          | EmptyString => None
          | String c r =>
              if (c =? ",")%char then
                match parse_elements fuel' r with
                | Some (vs, rest') => Some (v :: vs, rest')
                | None => None
                end
              else if (c =? "]")%char then Some ([v], r)
              else None
          end
      end
  end

with parse_members (fuel : nat) (s : string)
  : option (list (string * json) * string) :=
  match fuel with
  | O => None
  | S fuel' =>
      match skip_ws s with
      | EmptyString => None
      | String c r =>
          if (c =? dquote)%char then
            match scan_string r with
            | None => None
            | Some (key, rest) =>
                match skip_ws rest with
                | EmptyString => None
                | String c2 r2 =>
                    if (c2 =? ":")%char then
                      match parse_value fuel' r2 with
                      | None => None
                      | Some (v, rest2) =>
                          match skip_ws rest2 with
                          | EmptyString => None
                          | String c3 r3 =>
                              if (c3 =? ",")%char then
                                match parse_members fuel' r3 with
                                | Some (ms, rest') =>
                                    Some ((string_of_items key, v) :: ms, rest')
                                | None => None
                                end
                              else if (c3 =? "}")%char
                              then Some ([(string_of_items key, v)], r3)
                              else None
                          end
                      end
                    else None
                end
            end
          else None
      end
  end.

(** Every call of the parser that does not read a character is followed
    by one that does, so twice the length of the text is fuel enough. *)
Definition JSON_parse (text : string) : option json :=
  match parse_value (2 * String.length text + 2) text with
  | Some (j, rest) =>
      match skip_ws rest with
      | EmptyString => Some j
      | String _ _ => None
      end
  | None => None
  end.

(** The grammar of a JSON number, whatever its value. *)
Definition skip_number (s : string) : option string :=
  let s1 :=
    match s with
    | String c r => if (c =? "-")%char then r else s
    | EmptyString => s
    end in
  let (ip, s2) := scan_digits s1 in
  if is_nil ip || leading_zero ip then None
  else
    match scan_fraction s2 with
    | None => None
    | Some (_, s3) =>
        match scan_exponent s3 with
        | None => None
        | Some (_, rest) => Some rest
        end
    end.

(** The grammar of JSON alone: the parser, with a number of any value
    read over. *)
Fixpoint skip_value (fuel : nat) (s : string) : option string :=
  match fuel with
  | O => None
  | S fuel' =>
      match skip_ws s with
      | EmptyString => None
      | String c r =>
          if (c =? "{")%char then
            match skip_ws r with
            | EmptyString => None
            | String c2 r2 =>
                if (c2 =? "}")%char then Some r2 else skip_members fuel' r
            end
          else if (c =? "[")%char then
            match skip_ws r with
            | EmptyString => None
            | String c2 r2 =>
                if (c2 =? "]")%char then Some r2 else skip_elements fuel' r
            end
          else if (c =? dquote)%char then option_map snd (scan_string r)
          else if (c =? "t")%char then expect "rue" r
          else if (c =? "f")%char then expect "alse" r
          else if (c =? "n")%char then expect "ull" r
          else skip_number (String c r)
      end
  end

with skip_elements (fuel : nat) (s : string) : option string :=
  match fuel with
  | O => None
  | S fuel' =>
      match skip_value fuel' s with
      | None => None
      | Some rest =>
          match skip_ws rest with
          | EmptyString => None
          | String c r =>
              if (c =? ",")%char then skip_elements fuel' r
              else if (c =? "]")%char then Some r
              else None
          end
      end
  end

with skip_members (fuel : nat) (s : string) : option string :=
  match fuel with
  | O => None
  | S fuel' =>
      match skip_ws s with
      | EmptyString => None
      | String c r =>
          if (c =? dquote)%char then
            match scan_string r with
            | None => None
            | Some (_, rest) =>
                match skip_ws rest with
                | EmptyString => None
                | String c2 r2 =>
                    if (c2 =? ":")%char then
                      match skip_value fuel' r2 with
                      | None => None
                      | Some rest2 =>
                          match skip_ws rest2 with
                          | EmptyString => None
                          | String c3 r3 =>
                              if (c3 =? ",")%char then skip_members fuel' r3
                              else if (c3 =? "}")%char then Some r3
                              else None
                          end
                      end
                    else None
                end
            end
          else None
      end
  end.

(** The texts [JSON.parse] accepts. *)
Definition JSON_syntax (text : string) : bool :=
  match skip_value (2 * String.length text + 2) text with
  | Some rest =>
      match skip_ws rest with
      | EmptyString => true
      | String _ _ => false
      end
  | None => false
  end.

(** ** Well-formed UTF-8 *)



(** ** JavaScript values *)

(** What a property read or [decrypt] can yield: [undefined], a value that
    came out of [JSON.parse], or the member [name] of [Object.prototype]
    (a built-in function; for [__proto__] the prototype object itself),
    which every parsed object inherits. *)
Inductive jsval : Type :=
| VUndefined
| VJson (j : json)
| VProto (name : string).

Definition str (s : string) : jsval := VJson (JStr s).

Definition num (n : Z) : jsval := VJson (JNum n).

Coercion str : string >-> jsval.

Definition Object_prototype_names : list string :=
  [ "constructor"; "__defineGetter__"; "__defineSetter__"; "hasOwnProperty";
    "__lookupGetter__"; "__lookupSetter__"; "isPrototypeOf";
    "propertyIsEnumerable"; "toString"; "valueOf"; "__proto__";
    "toLocaleString" ].

Definition inherited (key : string) : bool :=
  existsb (String.eqb key) Object_prototype_names.

(** [obj[key]].  Exact on an object and on [null]; on a string, number,
    boolean or array it is exact for the names the simulator reads
    ([type], [data], [v]), which none of their prototypes defines. *)
Definition get (obj : json) (key : string) : result jsval :=
  match obj with
  | JNull => Throw (TypeError "Cannot read properties of null")
  | JObj members =>
      match own_property members key with
      | Some v => Ok (VJson v)
      | None => Ok (if inherited key then VProto key else VUndefined)
      end
  | _ => Ok VUndefined
  end.

(** [ToBoolean] *)
Definition truthy (v : jsval) : bool :=
  match v with
  | VUndefined => false
  | VJson JNull => false
  | VJson (JBool b) => b
  | VJson (JNum n) => negb (n =? 0)%Z
  | VJson (JStr s) => negb (s =? "")%string
  | VJson (JArr _) | VJson (JObj _) => true
  | VProto _ => true
  end.

Definition cannot_convert : exn :=
  TypeError "Cannot convert object to primitive value".

Fixpoint sequence {A : Type} (l : list (result A)) : result (list A) :=
  match l with
  | [] => Ok []
  | r :: rest => do a <- r; do l' <- sequence rest; Ok (a :: l')
  end.

(** [ToString] on a parsed value.  An array joins its elements, [null]
    giving the empty string; an object answers with
    [Object.prototype.toString] unless a member named [toString], which is
    no function, hides it. *)
Fixpoint json_ToString (j : json) : result string :=
  match j with
  | JNull => Ok "null"
  | JBool b => Ok (if b then "true" else "false")
  | JNum n => Ok (number_to_string n)
  | JStr s => Ok s
  | JArr items =>
      do texts <- sequence
           (map (fun item => match item with
                             | JNull => Ok ""
                             | _ => json_ToString item
                             end) items);
      Ok (join "," texts)
  | JObj members =>
      match own_property members "toString" with
      | Some _ => Throw cannot_convert
      | None => Ok "[object Object]"
      end
  end.

Definition ToString (v : jsval) : result string :=
  match v with
  | VUndefined => Ok "undefined"
  | VJson j => json_ToString j
  | VProto name =>
      if (name =? "__proto__")%string then Ok "[object Object]"
      else Ok ("function "
               ++ (if (name =? "constructor")%string then "Object" else name)
               ++ "() { [native code] }")%string
  end.

Definition is_object (v : jsval) : bool :=
  match v with
  | VJson (JArr _) | VJson (JObj _) | VProto _ => true
  | _ => false
  end.

Definition is_nullish (v : jsval) : bool :=
  match v with
  | VUndefined | VJson JNull => true
  | _ => false
  end.

(** [ToPrimitive]: an object becomes the string [ToString] gives. *)
Definition ToPrimitive (v : jsval) : result jsval :=
  if is_object v then do s <- ToString v; Ok (str s) else Ok v.

(** *** [StringToNumber] *)

(** The UTF-8 forms of the white space and line terminator characters. *)
Definition white_space : list string :=
  map string_of_list_ascii
    (map (map ascii_of_nat)
       [ [9]; [10]; [11]; [12]; [13]; [32]; [194; 160]; [239; 187; 191];
         [225; 154; 128]; [226; 128; 128]; [226; 128; 129]; [226; 128; 130];
         [226; 128; 131]; [226; 128; 132]; [226; 128; 133]; [226; 128; 134];
         [226; 128; 135]; [226; 128; 136]; [226; 128; 137]; [226; 128; 138];
         [226; 128; 168]; [226; 128; 169]; [226; 128; 175]; [226; 129; 159];
         [227; 128; 128] ]).

Fixpoint strip_prefix (p s : string) : option string :=
  match p, s with
  | EmptyString, _ => Some s
  | String a p', String b s' => if (a =? b)%char then strip_prefix p' s' else None
  | String _ _, EmptyString => None
  end.

Fixpoint strip_any (ps : list string) (s : string) : option string :=
  match ps with
  | [] => None
  | p :: rest =>
      match strip_prefix p s with
      | Some s' => Some s'
      | None => strip_any rest s
      end
  end.

Fixpoint trim_start_fuel (ws : list string) (fuel : nat) (s : string)
  : string :=
  match fuel with
  | O => s
  | S fuel' =>
      match strip_any ws s with
      | Some s' => trim_start_fuel ws fuel' s'
      | None => s
      end
  end.

Definition reverse (s : string) : string :=
  string_of_list_ascii (rev (list_ascii_of_string s)).

Definition trim (s : string) : string :=
  let s1 := trim_start_fuel white_space (String.length s) s in
  reverse (trim_start_fuel (map reverse white_space) (String.length s1)
             (reverse s1)).

(** The value of a run of digits in a radix, most significant first. *)
Fixpoint radix_value (radix : Z) (acc : Z) (s : string) : option Z :=
  match s with
  | EmptyString => Some acc
  | String c rest =>
      match Hex.value c with
      | Some d =>
          if (Z.of_nat d <? radix)%Z
          then radix_value radix (acc * radix + Z.of_nat d)%Z rest
          else None
      | None => None
      end
  end.

Definition radix_literal (s : string) : option (option Z) :=
  match s with
  | String z (String x (String d rest)) =>
      if (z =? "0")%char then
        if (x =? "x")%char || (x =? "X")%char
        then Some (radix_value 16 0 (String d rest))
        else if (x =? "o")%char || (x =? "O")%char
        then Some (radix_value 8 0 (String d rest))
        else if (x =? "b")%char || (x =? "B")%char
        then Some (radix_value 2 0 (String d rest))
        else None
      else None
  | _ => None
  end.

(** [StrDecimalLiteral] without its sign: digits, an optional fraction
    and an optional exponent, with a digit before or after the point. *)
Definition decimal_literal (s : string) : option Z :=
  let (ip, s2) := scan_digits s in
  let '(fp, s3, point) :=
    match s2 with
    | String c r =>
        if (c =? ".")%char
        then let (u, rest) := scan_digits r in (u, rest, true)
        else (Decimal.Nil, s2, false)
    | EmptyString => (Decimal.Nil, s2, false)
    end in
  if is_nil ip && is_nil fp then None
  else
    match scan_exponent s3 with
    | Some (e, EmptyString) =>
        scale10 (Z.of_uint (Decimal.app ip fp))
                (e - Z.of_nat (Decimal.nb_digits fp))
    | _ => None
    end.

(** [StringToNumber]: the integer the text denotes; [None] stands for
    [NaN], for an infinity and for a value with a fractional part. *)
Definition StringToNumber (s : string) : option Z :=
  let t := trim s in
  match t with
  | EmptyString => Some 0%Z
  | String c r =>
      match radix_literal t with
      | Some v => v
      | None =>
          if (c =? "-")%char then option_map Z.opp (decimal_literal r)
          else if (c =? "+")%char then decimal_literal r
          else decimal_literal t
      end
  end.

(** [ToNumber] on a primitive. *)
Definition ToNumber (v : jsval) : option Z :=
  match v with
  | VJson JNull => Some 0%Z
  | VJson (JBool b) => Some (if b then 1 else 0)%Z
  | VJson (JNum n) => Some n
  | VJson (JStr s) => StringToNumber s
  | _ => None
  end.

Definition same_number (a b : option Z) : bool :=
  match a, b with
  | Some x, Some y => (x =? y)%Z
  | _, _ => false
  end.

(** [x === y].  Two parsed arrays or objects are two objects, never the
    same one. *)
Definition strict_eq (a b : jsval) : bool :=
  match a, b with
  | VUndefined, VUndefined => true
  | VJson JNull, VJson JNull => true
  | VJson (JBool x), VJson (JBool y) => Bool.eqb x y
  | VJson (JNum x), VJson (JNum y) => (x =? y)%Z
  | VJson (JStr x), VJson (JStr y) => (x =? y)%string
  | VProto x, VProto y => (x =? y)%string
  | _, _ => false
  end.

(** [x == y] ([IsLooselyEqual]): two objects by identity; [null] and
    [undefined] only with each other; two strings as strings; otherwise
    an object is made primitive and the two sides are compared as
    numbers. *)
Definition loose_eq (a b : jsval) : result bool :=
  if is_object a && is_object b then Ok (strict_eq a b)
  else if is_nullish a || is_nullish b then Ok (is_nullish a && is_nullish b)
  else
    do pa <- ToPrimitive a;
    do pb <- ToPrimitive b;
    match pa, pb with
    | VJson (JStr x), VJson (JStr y) => Ok (x =? y)%string
    | _, _ => Ok (same_number (ToNumber pa) (ToNumber pb))
    end.

(** ** [Buffer.from(data, 'base64')] *)

(** [ToUint8(ToNumber(x))], the byte a typed array stores for [x]. *)
Definition byte_of_value (v : jsval) : result ascii :=
  do p <- ToPrimitive v;
  Ok (match ToNumber p with
      | Some n => ascii_of_N (Z.to_N (n mod 256))
      | None => zero
      end).

Definition from_array (items : list json) : result string :=
  do bytes <- sequence (map (fun item => byte_of_value (VJson item)) items);
  Ok (string_of_list_ascii bytes).

Definition element (members : list (string * json)) (i : nat) : jsval :=
  match own_property members (number_to_string (Z.of_nat i)) with
  | Some v => VJson v
  | None => VUndefined
  end.

Definition not_a_buffer : exn :=
  TypeError "The first argument must be of type string or an instance of Buffer, ArrayBuffer, or Array or an Array-like Object.".

(** A string is decoded; an array, or an object that looks like one, gives
    its elements as bytes and the encoding is not looked at; anything else
    is a [TypeError]. *)
Definition from_object (members : list (string * json)) : result string :=
  match own_property members "length" with
  | Some (JNum n) =>
      do bytes <- sequence (map (fun i => byte_of_value (element members i))
                              (seq 0 (Z.to_nat n)));
      Ok (string_of_list_ascii bytes)
  | Some _ => Ok ""
  | None =>
      match own_property members "type", own_property members "data" with
      | Some (JStr t), Some (JArr items) =>
          if (t =? "Buffer")%string then from_array items
          else Throw not_a_buffer
      | _, _ => Throw not_a_buffer
      end
  end.

Definition Buffer_from_base64 (data : jsval) : result string :=
  match data with
  | VJson (JStr s) => Ok (Base64.decode s)
  | VJson (JArr items) => from_array items
  | VJson (JObj members) =>
      match own_property members "valueOf" with
      | Some v =>
          if truthy (VJson v)
          then Throw (TypeError "value.valueOf is not a function")
          else match v with
               | JStr s => Ok (Base64.decode s)
               | _ => from_object members
               end
      | None => from_object members
      end
  | _ => Throw not_a_buffer
  end.

(** ** The random source *)

(** The bytes the source is going to deliver, by position. *)
Definition entropy : Type := nat -> ascii.

(** Computations over a state [S] that can throw; a throw keeps the state
    reached. *)
Definition ST (S A : Type) : Type := S -> result A * S.

Definition ret {S A : Type} (a : A) : ST S A := fun s => (Ok a, s).

Definition throw {S A : Type} (x : exn) : ST S A := fun s => (Throw x, s).

Definition lift {S A : Type} (r : result A) : ST S A := fun s => (r, s).

Definition mbind {S A B : Type} (m : ST S A) (k : A -> ST S B) : ST S B :=
  fun s =>
    match m s with
    | (Ok a, s') => k a s'
    | (Throw x, s') => (Throw x, s')
    end.

Notation "x <- m ;; k" := (mbind m (fun x => k))
  (at level 61, m at next level, right associativity).

(** Computations that draw from the random source. *)
Definition M (A : Type) : Type := ST entropy A.

Definition randomBytes (n : nat) : M (list ascii) :=
  fun e => (Ok (map e (seq 0 n)), fun i => e (n + i)).

(** ** [server/lib/fhe.ts] *)

Module FHESimulator.

Definition scheme_tag : string := "FHE_CT".

(** [interface Ciphertext] *)
Definition Ciphertext (data noise : string) : json :=
  JObj [("type", JStr scheme_tag); ("data", JStr data); ("noise", JStr noise)].

Definition payload_of (value : json) (r : string) : string :=
  JSON_stringify (JObj [("v", value); ("r", JStr r)]).

Definition encrypt (value : json) : M string :=
  r <- randomBytes 8 ;;
  let payload := payload_of value (Hex.encode r) in
  let b64 := Base64.encode payload in
  noise <- randomBytes 16 ;;
  let ct := Ciphertext b64 (Hex.encode noise) in
  ret (JSON_stringify ct).

Definition JSON_parse_or_throw (text : string) : result json :=
  match JSON_parse text with
  | Some j => Ok j
  | None => Throw SyntaxError
  end.

(** [JSON.parse] applies [ToString] to its argument; the whole body is
    inside the [try]. *)
Definition decrypt (ciphertext : jsval) : result jsval :=
  try_catch_rethrow
    (do text <- ToString ciphertext;
     do ct <- JSON_parse_or_throw text;
     do type <- get ct "type";
     if negb (strict_eq type scheme_tag)
     then Throw (Error "Invalid Ciphertext")
     else
       do data <- get ct "data";
       do payload <- Buffer_from_base64 data;
       do json <- JSON_parse_or_throw payload;
       get json "v")
    "Decryption Failed".

Definition homomorphicEquality (ct1 ct2 : jsval) : M string :=
  v1 <- lift (decrypt ct1) ;;
  v2 <- lift (decrypt ct2) ;;
  eq <- lift (loose_eq v1 v2) ;;
  let result := if eq : bool then 1%Z else 0%Z in
  encrypt (JNum result).

End FHESimulator.

(** ** [createHash('sha256')] *)

Module SHA256.

Local Open Scope N_scope.

Definition w32 (x : N) : N := x mod 4294967296.

Definition rotr (n x : N) : N :=
  N.lor (N.shiftr x n) (w32 (N.shiftl x (32 - n))).

Definition Ch (x y z : N) : N :=
  N.lxor (N.land x y) (N.land (N.lxor x 4294967295) z).
Definition Maj (x y z : N) : N :=
  N.lxor (N.lxor (N.land x y) (N.land x z)) (N.land y z).
Definition Sigma0 (x : N) : N := N.lxor (N.lxor (rotr 2 x) (rotr 13 x)) (rotr 22 x).
Definition Sigma1 (x : N) : N := N.lxor (N.lxor (rotr 6 x) (rotr 11 x)) (rotr 25 x).
Definition sigma0 (x : N) : N := N.lxor (N.lxor (rotr 7 x) (rotr 18 x)) (N.shiftr x 3).
Definition sigma1 (x : N) : N := N.lxor (N.lxor (rotr 17 x) (rotr 19 x)) (N.shiftr x 10).

(** The constants of the standard are read off the first primes: the
    first 32 bits of the fractional part of their cube roots for the
    rounds, of their square roots for the initial state. *)
Definition is_prime (n : N) : bool :=
  forallb (fun d => negb (n mod N.of_nat d =? 0)) (seq 2 (N.to_nat n - 2)).

Definition primes : list N :=
  Eval vm_compute in filter is_prime (map N.of_nat (seq 2 310)).

(** The integer cube root, one bit at a time from bit [bits] down. *)
Fixpoint cube_root (bits : nat) (x r : N) : N :=
  match bits with
  | O => r
  | S bits' =>
      let r' := r + N.shiftl 1 (N.of_nat bits') in
      cube_root bits' x (if r' * r' * r' <=? x then r' else r)
  end.

Definition K : list N :=
  Eval vm_compute in
    map (fun p => w32 (cube_root 36 (N.shiftl p 96) 0)) (firstn 64 primes).

Definition H0 : list N :=
  Eval vm_compute in
    map (fun p => w32 (N.sqrt (N.shiftl p 64))) (firstn 8 primes).

(** The message, the bit 1, zeros up to 56 modulo 64 bytes, and the
    length in bits on eight bytes. *)
Definition big_endian (width : nat) (x : N) : list N :=
  map (fun i => N.shiftr x (8 * N.of_nat (width - 1 - i)) mod 256)
      (seq 0 width).

Definition pad (msg : list N) : list N :=
  let len := List.length msg in
  let zeros := ((119 - len mod 64) mod 64)%nat in
  (msg ++ [128] ++ repeat 0 zeros ++ big_endian 8 (8 * N.of_nat len))%list.

Fixpoint words (fuel : nat) (bytes : list N) : list N :=
  match fuel, bytes with
  | S fuel', a :: b :: c :: d :: rest =>
      (((a * 256 + b) * 256 + c) * 256 + d) :: words fuel' rest
  | _, _ => []
  end.

(** The message schedule, latest word first. *)
Fixpoint schedule (n : nat) (w : list N) : list N :=
  match n with
  | O => w
  | S n' =>
      let w' := schedule n' w in
      w32 (sigma1 (nth 1 w' 0) + nth 6 w' 0 + sigma0 (nth 14 w' 0) + nth 15 w' 0)
        :: w'
  end.

Definition round (s : list N) (kw : N * N) : list N :=
  match s with
  | [a; b; c; d; e; f; g; h] =>
      let t1 := h + Sigma1 e + Ch e f g + fst kw + snd kw in
      let t2 := Sigma0 a + Maj a b c in
      [w32 (t1 + t2); a; b; c; w32 (d + t1); e; f; g]
  | _ => s
  end.

Definition compress (h : list N) (block : list N) : list N :=
  let w := rev (schedule 48 (rev block)) in
  let s := fold_left round (combine K w) h in
  map (fun p => w32 (fst p + snd p)) (combine h s).

Fixpoint blocks (fuel : nat) (ws : list N) (h : list N) : list N :=
  match fuel, ws with
  | S fuel', _ :: _ => blocks fuel' (skipn 16 ws) (compress h (firstn 16 ws))
  | _, _ => h
  end.

Definition digest (msg : string) : list ascii :=
  let bytes := pad (map N_of_ascii (list_ascii_of_string msg)) in
  let ws := words (List.length bytes) bytes in
  map ascii_of_N (concat (map (big_endian 4) (blocks (List.length ws) ws H0))).

(** [createHash('sha256').update(msg).digest('hex')] *)
Definition hex (msg : string) : string := Hex.encode (digest msg).

End SHA256.

(** ** [shared/schema.ts] *)

(** [String.prototype.length]: the UTF-16 code units of the text, read off
    the first byte of each UTF-8 sequence. *)
Definition utf16_units (c : ascii) : nat :=
  if code c <? 128 then 1
  else if code c <? 192 then 0
  else if code c <? 240 then 1
  else 2.

Fixpoint String_length (s : string) : nat :=
  match s with
  | EmptyString => 0
  | String c rest => utf16_units c + String_length rest
  end.

(** [/^\d{4}-\d{2}-\d{2}$/.test(s)] *)
Definition matches_date (s : string) : bool :=
  match list_ascii_of_string s with
  | [y1; y2; y3; y4; h1; m1; m2; h2; d1; d2] =>
      is_digit y1 && is_digit y2 && is_digit y3 && is_digit y4
      && (h1 =? "-")%char && is_digit m1 && is_digit m2
      && (h2 =? "-")%char && is_digit d1 && is_digit d2
  | _ => false
  end.

(** [z.infer<typeof registerIdentitySchema>] *)
Record RegisterIdentityRequest : Type := {
  fullName : string;
  age : Z;
  passportId : string;
  expiryDate : string;
  verificationCode : string
}.

(** [z.infer<typeof verifyIdentitySchema>]; [encryptedQuery] as
    [Object.entries] lists it. *)
Record VerifyIdentityRequest : Type := {
  query_passportHash : string;
  encryptedQuery : list (string * string)
}.

(** [z.record(z.string(), z.string())] copies the entries of its input
    into a new object, in their order, and leaves out the key
    [__proto__]. *)
Definition record_parse (entries : list (string * string))
  : list (string * string) :=
  filter (fun entry => negb (fst entry =? "__proto__")%string) entries.

(** [verifyIdentitySchema.parse], on a body that has the types of the
    schema. *)
Definition verifyIdentitySchema_parse (body : VerifyIdentityRequest)
  : result VerifyIdentityRequest :=
  Ok {| query_passportHash := query_passportHash body;
        encryptedQuery := record_parse (encryptedQuery body) |}.

Definition check (ok : bool) (path message : string)
  : list (string * string) :=
  if ok then [] else [(path, message)].

(** The issues of [registerIdentitySchema], field by field. *)
Definition registerIdentitySchema_issues (input : RegisterIdentityRequest)
  : list (string * string) :=
  check (1 <=? String_length (fullName input)) "fullName" "Name is required"
  ++ check (18 <=? age input)%Z "age" "Must be 18+"
  ++ check (5 <=? String_length (passportId input)) "passportId"
       "Invalid Passport ID"
  ++ check (matches_date (expiryDate input)) "expiryDate" "Format: YYYY-MM-DD"
  ++ check (4 <=? String_length (verificationCode input)) "verificationCode"
       "Code required".

(** [registerIdentitySchema.parse(input)] *)
Definition registerIdentitySchema_parse (input : RegisterIdentityRequest)
  : result RegisterIdentityRequest :=
  match registerIdentitySchema_issues input with
  | [] => Ok input
  | issues => Throw (ZodError issues)
  end.

(** ** [server/storage.ts] *)

(** A row of the table [identities]; [createdAt] is the database's clock
    and is left out. *)
Record Identity : Type := {
  id : Z;
  passportHash : string;
  encryptedData : string
}.

Record InsertIdentity : Type := {
  insert_passportHash : string;
  insert_encryptedData : string
}.

(** The table and the sequence behind its [serial] column. *)
Record database : Type := {
  rows : list Identity;
  next_id : Z
}.

Definition has_hash (hash : string) (row : Identity) : bool :=
  (passportHash row =? hash)%string.

Definition getIdentityByHash (hash : string) (d : database) : option Identity :=
  find (has_hash hash) (rows d).

(** A text that goes to the database as the parameter of a query must not
    hold the byte 0: the database refuses it and the query throws. *)
Definition has_zero_byte (text : string) : bool :=
  existsb (fun c => code c =? 0) (list_ascii_of_string text).

Definition text_parameter (text : string) : result string :=
  if has_zero_byte text then Throw InvalidByteSequence else Ok text.

(** The insert draws its [id] from the sequence and then meets the
    [unique] constraint on [passport_hash]. *)
Definition createIdentity (identity : InsertIdentity) : ST database Identity :=
  fun d =>
    let row := {| id := next_id d;
                  passportHash := insert_passportHash identity;
                  encryptedData := insert_encryptedData identity |} in
    if existsb (has_hash (insert_passportHash identity)) (rows d)
    then (Throw (UniqueViolation "identities_passport_hash_unique"),
          {| rows := rows d; next_id := next_id d + 1 |})
    else (Ok row, {| rows := rows d ++ [row]; next_id := next_id d + 1 |}).

(** ** [server/routes.ts] *)

(** The state of the server: the table and the random source. *)
Record world : Type := {
  db : database;
  rng : entropy
}.

Definition with_rng {A : Type} (m : M A) : ST world A :=
  fun w => let (r, e) := m (rng w) in (r, {| db := db w; rng := e |}).

Definition with_db {A : Type} (m : ST database A) : ST world A :=
  fun w => let (r, d) := m (db w) in (r, {| db := d; rng := rng w |}).

Inductive response : Type :=
| Created (message : string) (id : Z)        (* 201 *)
| Success (encryptedResult : string)         (* 200 *)
| NotFound (message : string)                (* 404 *)
| BadRequest (e : exn).                       (* 400, with [e.message] *)

(** [try { ... } catch (e) { res.status(400).json({ message: e.message }) }] *)
Definition respond {S : Type} (m : ST S response) : S -> response * S :=
  fun s =>
    match m s with
    | (Ok r, s') => (r, s')
    | (Throw e, s') => (BadRequest e, s')
    end.

Import FHESimulator.

(** The object literal of the four ciphertexts, its members evaluated in
    order. *)
Definition encrypt_attributes (name : string) (years : Z)
  (expiry code : string) : M string :=
  c1 <- encrypt (JStr name) ;;
  c2 <- encrypt (JNum years) ;;
  c3 <- encrypt (JStr expiry) ;;
  c4 <- encrypt (JStr code) ;;
  ret (JSON_stringify
         (JObj [("fullName", JStr c1); ("age", JStr c2);
                ("expiryDate", JStr c3); ("verificationCode", JStr c4)])).

(** [app.post(api.identities.register.path, ...)].  The body has the
    types of the schema; [Number(input.age)] is [input.age] on a number. *)
Definition register (body : RegisterIdentityRequest) : world -> response * world :=
  respond
    (input <- lift (registerIdentitySchema_parse body) ;;
     let hash := SHA256.hex (passportId input) in
     encryptedData <- with_rng
       (encrypt_attributes (fullName input) (age input) (expiryDate input)
          (verificationCode input)) ;;
     identity <- with_db
       (createIdentity {| insert_passportHash := hash;
                          insert_encryptedData := encryptedData |}) ;;
     ret (Created "Identity Issued" (id identity))).

(** The loop over [Object.entries(encryptedQuery)]. *)
Fixpoint compare_fields (storedData : json) (entries : list (string * string))
  (overallMatch : Z) : M Z :=
  match entries with
  | [] => ret overallMatch
  | (key, encQueryVal) :: rest =>
      encStoredVal <- lift (get storedData key) ;;
      if truthy encStoredVal then
        encMatch <- homomorphicEquality encQueryVal encStoredVal ;;
        isMatch <- lift (decrypt encMatch) ;;
        compare_fields storedData rest
          (if strict_eq isMatch (num 0) then 0%Z else overallMatch)
      else compare_fields storedData rest 0%Z
  end.

(** [app.post(api.verification.verify.path, ...)], on a body that has the
    types of [verifyIdentitySchema].  The hash is the parameter of the
    [select] behind [storage.getIdentityByHash]. *)
Definition verify (body : VerifyIdentityRequest) : world -> response * world :=
  respond
    (input <- lift (verifyIdentitySchema_parse body) ;;
     passportHash <- lift (text_parameter (query_passportHash input)) ;;
     fun w =>
       match getIdentityByHash passportHash (db w) with
       | None => (Ok (NotFound "Identity not found"), w)
       | Some identity =>
           (storedData <- lift (JSON_parse_or_throw (encryptedData identity)) ;;
            overallMatch <- with_rng
              (compare_fields storedData (encryptedQuery input) 1%Z) ;;
            encryptedResult <- with_rng (encrypt (JNum overallMatch)) ;;
            ret (Success encryptedResult)) w
       end).

(** [seedDatabase]: the demo identity, unless its hash is stored. *)
Definition seedDatabase : world -> world :=
  fun w =>
    match getIdentityByHash (SHA256.hex "A1234567") (db w) with
    | Some _ => w
    | None =>
        let p1 := "A1234567" in
        let h1 := SHA256.hex p1 in
        match with_rng (encrypt_attributes "Amjad Masad" 35 "2030-01-01" "1234") w
        with
        | (Ok enc1, w1) =>
            snd (with_db (createIdentity {| insert_passportHash := h1;
                                            insert_encryptedData := enc1 |}) w1)
        | (Throw _, w1) => w1
        end
    end.

(** ** [shared/routes.ts] *)

(** [string | number], the type of the value of a parameter. *)
Inductive param : Type :=
| ParamString (s : string)
| ParamNumber (n : Z).

(** [String(value)] *)
Definition String_of (value : param) : string :=
  match value with
  | ParamString s => s
  | ParamNumber n => number_to_string n
  end.

(** The first place where [needle] occurs in a text: what stands before
    it and what stands after it. *)
Fixpoint first_occurrence (needle s : string) : option (string * string) :=
  match strip_prefix needle s with
  | Some after => Some ("", after)
  | None =>
      match s with
      | EmptyString => None
      | String c s' =>
          match first_occurrence needle s' with
          | Some (before, after) => Some (String c before, after)
          | None => None
          end
      end
  end.

(** [s.includes(needle)] *)
Definition String_includes (s needle : string) : bool :=
  match first_occurrence needle s with
  | Some _ => true
  | None => false
  end.

(** [GetSubstitution] for a pattern that is a string, which captures
    nothing: in the replacement [$$] stands for a dollar, [$&] for the
    match, [$`] for the text before it and [$'] for the text after it;
    any other dollar stands for itself. *)
Fixpoint GetSubstitution (matched before after template : string) : string :=
  match template with
  | EmptyString => ""
  | String c rest =>
      if (c =? "$")%char then
        match rest with
        | String d rest' =>
            if (d =? "$")%char
            then String "$" (GetSubstitution matched before after rest')
            else if (d =? "&")%char
            then (matched ++ GetSubstitution matched before after rest')%string
            else if (d =? "`")%char
            then (before ++ GetSubstitution matched before after rest')%string
            else if (d =? "'")%char
            then (after ++ GetSubstitution matched before after rest')%string
            else String c (GetSubstitution matched before after rest)
        | EmptyString => String c ""
        end
      else String c (GetSubstitution matched before after rest)
  end.

(** [s.replace(needle, replacement)], both strings: the first occurrence
    only. *)
Definition String_replace (s needle replacement : string) : string :=
  match first_occurrence needle s with
  | Some (before, after) =>
      (before ++ GetSubstitution needle before after replacement ++ after)%string
  | None => s
  end.

(** [buildUrl(path, params)]; [params] as [Object.entries] lists it,
    [None] when the argument is left out. *)
Definition buildUrl (path : string) (params : option (list (string * param)))
  : string :=
  match params with
  | Some entries =>
      fold_left
        (fun url entry =>
           let needle := (":" ++ fst entry)%string in
           if String_includes url needle
           then String_replace url needle (String_of (snd entry))
           else url)
        entries path
  | None => path
  end.

(** ** [btoa] and [atob] *)

(** A value, or nothing when an exception is thrown and the caller does
    not look at it. *)
Definition caught {A : Type} (r : result A) : option A :=
  match r with
  | Ok a => Some a
  | Throw _ => None
  end.

(** The next step, when the one before gave a value. *)
Definition and_then {A B : Type} (o : option A) (k : A -> option B)
  : option B :=
  match o with
  | Some a => k a
  | None => None
  end.

(** The bytes of a binary string, a text whose characters all lie below
    U+0100: a character from U+0080 on is two bytes of the text, led by
    [0xC2] or [0xC3].  There are none when the text has a character from
    U+0100 on. *)
Fixpoint latin1 (s : string) : option string :=
  match s with
  | EmptyString => Some ""
  | String c rest =>
      if code c <? 128 then option_map (String c) (latin1 rest)
      else if (code c =? 194) || (code c =? 195) then
        match rest with
        | String d rest' =>
            if in_range 128 191 d
            then option_map (String (ascii_of_nat ((code c - 194) * 64 + code d)))
                   (latin1 rest')
            else None
        | EmptyString => None
        end
      else None
  end.

(** [btoa(s)]; [None] stands for its [InvalidCharacterError]. *)
Definition btoa (s : string) : option string :=
  option_map Base64.encode (latin1 s).

(** The text whose characters are the given bytes. *)
Fixpoint binary_string (bytes : string) : string :=
  match bytes with
  | EmptyString => ""
  | String b rest => (utf8 (N_of_ascii b) ++ binary_string rest)%string
  end.

(** ASCII white space: tab, line feed, form feed, carriage return and
    space. *)
Definition is_ascii_whitespace (c : ascii) : bool :=
  (code c =? 9) || (code c =? 10) || (code c =? 12) || (code c =? 13)
  || (code c =? 32).

(** One or two padding characters at the end are removed. *)
Fixpoint drop_padding (l : list ascii) : list ascii :=
  match l with
  | [] => []
  | c :: rest =>
      if (c =? Base64.pad)%char
         && match rest with
            | [] => true
            | [d] => (d =? Base64.pad)%char
            | _ => false
            end
      then []
      else c :: drop_padding rest
  end.

(** The alphabet of [atob] has no URL-safe characters. *)
Definition standard_value (c : ascii) : option nat :=
  if (c =? "-")%char || (c =? "_")%char then None else Base64.value c.

(** The values of a list, when none is missing. *)
Fixpoint all_some {A : Type} (l : list (option A)) : option (list A) :=
  match l with
  | [] => Some []
  | o :: rest =>
      and_then o (fun a => option_map (cons a) (all_some rest))
  end.

(** The forgiving-base64 decoder of [atob]: white space is skipped,
    padding is removed from a text whose length is a multiple of four, and
    a length of one modulo four or a character outside the alphabet is an
    error. *)
Definition forgiving_base64_decode (data : string) : option string :=
  let stripped :=
    filter (fun c => negb (is_ascii_whitespace c)) (list_ascii_of_string data) in
  let chars :=
    if List.length stripped mod 4 =? 0 then drop_padding stripped
    else stripped in
  if List.length chars mod 4 =? 1 then None
  else option_map Base64.bytes_of_sextets (all_some (map standard_value chars)).

(** [atob(data)]: the argument is made a string first. *)
Definition atob (data : jsval) : option string :=
  and_then (caught (ToString data))
    (fun text => option_map binary_string (forgiving_base64_decode text)).

(** ** [client/src/pages/VerifyIdentity.tsx] *)

(** The numbers [Math.random()] is going to return, each by the digits in
    base 36 of its fractional part. *)
Definition random_numbers : Type := nat -> list nat.

(** The digits of base 36. *)
Definition base36 : list ascii :=
  list_ascii_of_string "0123456789abcdefghijklmnopqrstuvwxyz".

(** [x.toString(36)] for a number [x] from 0 up to 1. *)
Definition toString36 (digits : list nat) : string :=
  match digits with
  | [] => "0"
  | _ =>
      String "0"
        (String "." (string_of_list_ascii
                       (map (fun d => nth d base36 "0"%char) digits)))
  end.

(** [s.substring(start)], on a text of ASCII characters. *)
Fixpoint String_substring (start : nat) (s : string) : string :=
  match start, s with
  | O, _ => s
  | S n, String _ rest => String_substring n rest
  | S _, EmptyString => ""
  end.

(** What the page computes: a value and the random numbers left, or
    nothing when an exception is thrown. *)
Definition Page (A : Type) : Type :=
  random_numbers -> option A * random_numbers.

(** A value; a value that may be missing; one step after another. *)
Definition page_ret {A : Type} (a : A) : Page A := fun rnd => (Some a, rnd).

Definition page_lift {A : Type} (o : option A) : Page A := fun rnd => (o, rnd).

Definition page_bind {A B : Type} (m : Page A) (k : A -> Page B) : Page B :=
  fun rnd =>
    match m rnd with
    | (Some a, rnd') => k a rnd'
    | (None, rnd') => (None, rnd')
    end.

(** [Math.random().toString(36).substring(7)] *)
Definition random_tag : Page string :=
  fun rnd => (Some (String_substring 7 (toString36 (rnd 0))),
              fun i => rnd (S i)).

(** [mockEncrypt(val)] *)
Definition mockEncrypt (val : json) : Page string :=
  page_bind random_tag (fun r =>
  page_bind (page_lift (btoa (JSON_stringify (JObj [("v", val); ("r", JStr r)]))))
    (fun payload =>
  page_bind random_tag (fun noise =>
  page_ret (JSON_stringify
              (JObj [("type", JStr "FHE_CT"); ("data", JStr payload);
                     ("noise", JStr noise)]))))).

(** [mockDecrypt(ctStr)]: [null] for every exception. *)
Definition mockDecrypt (ctStr : string) : jsval :=
  match
    and_then (JSON_parse ctStr) (fun ct =>
    and_then (caught (get ct "data")) (fun data =>
    and_then (atob data) (fun text =>
    and_then (JSON_parse text) (fun payload =>
    caught (get payload "v")))))
  with
  | Some v => v
  | None => VJson JNull
  end.

(** [useState<"success" | "failure" | null>] once [onSubmit] has ended. *)
Inductive verdict : Type :=
| success
| failure.

(** The object literal [encryptedQuery], its members evaluated in order;
    [Number(data.age)] is [data.age] on a number. *)
Definition encryptedQuery_of (data : RegisterIdentityRequest)
  : Page (list (string * string)) :=
  page_bind (mockEncrypt (JStr (fullName data))) (fun c1 =>
  page_bind (mockEncrypt (JNum (age data))) (fun c2 =>
  page_bind (mockEncrypt (JStr (expiryDate data))) (fun c3 =>
  page_bind (mockEncrypt (JStr (verificationCode data))) (fun c4 =>
  page_ret [("fullName", c1); ("age", c2); ("expiryDate", c3);
            ("verificationCode", c4)])))).

Section VerifyIdentity.

(** The mutation of [useVerifyIdentity]: the [encryptedResult] of the
    response to a request, or nothing when it rejects.  The member
    [publicParams] of the request, which the server does not read, is left
    out. *)
Variable mutateAsync : VerifyIdentityRequest -> option string.

(** [onSubmit(data)], without the log it displays: the result it sets.
    [SHA256(data.passportId).toString()] of crypto-js is the hexadecimal
    digest of the UTF-8 bytes of the text, as [createHash] gives it; an
    exception, wherever it is thrown, ends in failure. *)
Definition onSubmit (data : RegisterIdentityRequest)
  : random_numbers -> verdict * random_numbers :=
  fun rnd =>
    match
      page_bind (encryptedQuery_of data) (fun encryptedQuery =>
      page_bind
        (page_lift
           (mutateAsync {| query_passportHash := SHA256.hex (passportId data);
                           encryptedQuery := encryptedQuery |}))
        (fun encryptedResult =>
      page_ret (strict_eq (mockDecrypt encryptedResult) (num 1)))) rnd
    with
    | (Some true, rnd') => (success, rnd')
    | (Some false, rnd') => (failure, rnd')
    | (None, rnd') => (failure, rnd')
    end.

End VerifyIdentity.

(** * Definitions for the statements and the proofs *)

(** ** Reading a text back *)

(** How the parser sees a byte that the printer wrote: as itself, or as
    the code unit of a [\u00xx] escape. *)
Definition item_of (c : ascii) : str_item :=
  if (code c <? 32)
     && negb ((code c =? 8) || (code c =? 9) || (code c =? 10)
              || (code c =? 12) || (code c =? 13))
  then Unit16 (N.of_nat (code c))
  else Lit c.

Fixpoint items_of (s : string) : list str_item :=
  match s with
  | EmptyString => []
  | String c rest => item_of c :: items_of rest
  end.

Definition scan_next (item : str_item) (tail : string)
  : option (list str_item * string) :=
  match scan_string tail with
  | Some (items, rest) => Some (item :: items, rest)
  | None => None
  end.

(** A text at which a number ends. *)
Definition number_end (rest : string) : bool :=
  match rest with
  | EmptyString => true
  | String c _ =>
      negb (is_digit c || (c =? ".")%char || (c =? "e")%char || (c =? "E")%char)
  end.

Definition number_start (c : ascii) : bool := is_digit c || (c =? "-")%char.

(** Fuel that is enough to read a value back. *)
Fixpoint fuel_needed (j : json) : nat :=
  match j with
  | JArr items =>
      S ((fix elements (l : list json) : nat :=
            match l with
            | [] => 0
            | v :: l' => S (Nat.max (fuel_needed v) (elements l'))
            end) items)
  | JObj members =>
      S ((fix members_fuel (l : list (string * json)) : nat :=
            match l with
            | [] => 0
            | m :: l' => S (Nat.max (fuel_needed (snd m)) (members_fuel l'))
            end) members)
  | _ => 1
  end.

Fixpoint elements_fuel (l : list json) : nat :=
  match l with
  | [] => 0
  | v :: l' => S (Nat.max (fuel_needed v) (elements_fuel l'))
  end.

Fixpoint members_fuel (l : list (string * json)) : nat :=
  match l with
  | [] => 0
  | m :: l' => S (Nat.max (fuel_needed (snd m)) (members_fuel l'))
  end.

(** A character no value is cut short by: white space aside, what can
    follow a value in a text. *)
Definition value_start (c : ascii) : bool :=
  negb (is_ws c) && negb (c =? "]")%char && negb (c =? "}")%char.

(** What the induction proves of a value [j]. *)
Definition reads_back (j : json) : Prop :=
  forall fuel rest,
    number_end rest = true -> fuel_needed j <= fuel ->
    parse_value fuel (JSON_stringify j ++ rest) = Some (j, rest).

(** ** One call of [encrypt] *)

(** What one call of [encrypt] draws and returns. *)
Definition nonce (e : entropy) : string := Hex.encode (map e (seq 0 8)).

Definition noise_of (e : entropy) : string :=
  Hex.encode (map (fun i => e (8 + i)) (seq 0 16)).

Definition after_encrypt (e : entropy) : entropy := fun i => e (8 + (16 + i)).

Definition data_of (value : json) (e : entropy) : string :=
  Base64.encode (payload_of value (nonce e)).

Definition ciphertext_of (value : json) (e : entropy) : string :=
  JSON_stringify (Ciphertext (data_of value e) (noise_of e)).

(** What [decrypt] does with the payload, once the envelope is read. *)
Definition open_payload (data : jsval) : result jsval :=
  do payload <- Buffer_from_base64 data;
  do json <- JSON_parse_or_throw payload;
  get json "v".

Definition failed : exn := Error "Decryption Failed".

(** ** The stored bundle *)

Definition entropy_after (k : nat) (e : entropy) : entropy :=
  Nat.iter k after_encrypt e.

(** The four ciphertexts a registration stores, in the order they are
    made. *)
Definition bundle_of (name : string) (years : Z) (expiry code : string)
  (e : entropy) : list (string * json) :=
  [ ("fullName", JStr (ciphertext_of (JStr name) e));
    ("age", JStr (ciphertext_of (JNum years) (entropy_after 1 e)));
    ("expiryDate", JStr (ciphertext_of (JStr expiry) (entropy_after 2 e)));
    ("verificationCode", JStr (ciphertext_of (JStr code) (entropy_after 3 e))) ].

Definition bundle_text (name : string) (years : Z) (expiry code : string)
  (e : entropy) : string :=
  JSON_stringify (JObj (bundle_of name years expiry code e)).

(** The attribute a name of the schema stands for. *)
Definition attribute (name : string) (years : Z) (expiry code : string)
  (key : string) : option json :=
  if (key =? "fullName")%string then Some (JStr name)
  else if (key =? "age")%string then Some (JNum years)
  else if (key =? "expiryDate")%string then Some (JStr expiry)
  else if (key =? "verificationCode")%string then Some (JStr code)
  else None.

(** ** The comparison loop *)

(** The match bit of one entry of the query, or the exception its
    comparison throws. *)
Definition field_outcome (storedData : json) (entry : string * string)
  : result bool :=
  do encStoredVal <- get storedData (fst entry);
  if truthy encStoredVal then
    do v1 <- decrypt (snd entry);
    do v2 <- decrypt encStoredVal;
    loose_eq v1 v2
  else Ok false.

(** The comparisons that ran, up to the first exception. *)
Fixpoint comparisons (storedData : json) (entries : list (string * string))
  : nat :=
  match entries with
  | [] => 0
  | entry :: rest =>
      match field_outcome storedData entry, get storedData (fst entry) with
      | Ok _, Ok encStoredVal =>
          (if truthy encStoredVal then 1 else 0) + comparisons storedData rest
      | _, _ => 0
      end
  end.

Definition all_match (bits : list bool) : bool := forallb (fun b => b) bits.

(** ** The table *)

Definition new_row (body : RegisterIdentityRequest) (w : world) : Identity :=
  {| id := next_id (db w);
     passportHash := SHA256.hex (passportId body);
     encryptedData := bundle_text (fullName body) (age body) (expiryDate body)
                        (verificationCode body) (rng w) |}.

(** The record under [hash] is the bundle of these attributes. *)
Definition registered (w : world) (hash : string)
  (name : string) (years : Z) (expiry code : string) : Prop :=
  exists row e,
    getIdentityByHash hash (db w) = Some row
    /\ encryptedData row = bundle_text name years expiry code e.

Definition well_stored (row : Identity) : Prop :=
  exists name years expiry code e,
    encryptedData row = bundle_text name years expiry code e.

(** The states the server goes through, from an empty table. *)
Inductive reachable : world -> Prop :=
| reach_start (e : entropy) :
    reachable {| db := {| rows := []; next_id := 1 |}; rng := e |}
| reach_seed (w : world) : reachable w -> reachable (seedDatabase w)
| reach_register (w : world) (body : RegisterIdentityRequest) :
    reachable w -> reachable (snd (register body w))
| reach_verify (w : world) (body : VerifyIdentityRequest) :
    reachable w -> reachable (snd (verify body w)).

Definition seed_body : RegisterIdentityRequest :=
  {| fullName := "Amjad Masad"; age := 35; passportId := "A1234567";
     expiryDate := "2030-01-01"; verificationCode := "1234" |}.

(** ** A demo state: the seeded table *)

Definition demo_entropy : entropy := fun i => ascii_of_nat (i * 37 + 11).

Definition start (e : entropy) : world :=
  {| db := {| rows := []; next_id := 1 |}; rng := e |}.

Definition seeded : world := seedDatabase (start demo_entropy).

Definition demo_hash : string := SHA256.hex "A1234567".

Definition demo_data : string := data_of (JStr "Amjad Masad") demo_entropy.

Definition newcomer : RegisterIdentityRequest :=
  {| fullName := "Grace Hopper"; age := 85; passportId := "N0012345";
     expiryDate := "2031-12-09"; verificationCode := "0012" |}.

(** ** The schema *)

(** The schema, as one proposition. *)
Definition valid (body : RegisterIdentityRequest) : Prop :=
  1 <= String_length (fullName body)
  /\ (18 <= age body)%Z
  /\ 5 <= String_length (passportId body)
  /\ matches_date (expiryDate body) = true
  /\ 4 <= String_length (verificationCode body).



(** ** What [decrypt] reads *)



(** ** The texts the model reads as JavaScript does *)









(** ** Queries *)

(** Two plaintexts of one type: two strings, or two integers. *)
Definition same_type (p v : json) : bool :=
  match p, v with
  | JStr _, JStr _ | JNum _, JNum _ => true
  | _, _ => false
  end.

(** An entry of a query for a stored field, whose ciphertext decrypts to
    a plaintext of the type of the stored attribute. *)
Definition typed_entry (name : string) (years : Z) (expiry code : string)
  (entry : string * string) : Prop :=
  exists p v,
    attribute name years expiry code (fst entry) = Some v
    /\ decrypt (snd entry) = Ok (VJson p)
    /\ same_type p v = true.

(** An entry of a query whose plaintext is the stored attribute. *)
Definition matching_entry (name : string) (years : Z) (expiry code : string)
  (entry : string * string) : Prop :=
  exists v,
    attribute name years expiry code (fst entry) = Some v
    /\ decrypt (snd entry) = Ok (VJson v).

(** The query of the specification's scenarios: the four attributes. *)
Definition scenario_query (years : Z) : list (string * string) :=
  [ ("fullName", ciphertext_of (JStr "Amjad Masad") demo_entropy);
    ("age", ciphertext_of (JNum years) demo_entropy);
    ("expiryDate", ciphertext_of (JStr "2030-01-01") demo_entropy);
    ("verificationCode", ciphertext_of (JStr "1234") demo_entropy) ].

(** ** Routes and their placeholders *)

(** No character of the text is [c]. *)
Definition free_of (c : ascii) (s : string) : bool :=
  forallb (fun d => negb (d =? c)%char) (list_ascii_of_string s).

(** A route: a first segment, then placeholders, each with its value and
    the segment that follows it. *)
Fixpoint placeholders (parts : list (string * param * string)) : string :=
  match parts with
  | [] => ""
  | (key, _, segment) :: rest =>
      (":" ++ key ++ segment ++ placeholders rest)%string
  end.

Definition route (head : string) (parts : list (string * param * string))
  : string :=
  (head ++ placeholders parts)%string.

(** The parameters of a route, in the order of its placeholders. *)
Definition params_of (parts : list (string * param * string))
  : list (string * param) :=
  map fst parts.

(** The route with each placeholder replaced by its value. *)
Fixpoint values (parts : list (string * param * string)) : string :=
  match parts with
  | [] => ""
  | (_, value, segment) :: rest =>
      (String_of value ++ segment ++ values rest)%string
  end.

Definition filled (head : string) (parts : list (string * param * string))
  : string :=
  (head ++ values parts)%string.

(** A value that [String_of] writes as [String] does: a text, or an
    integer of at most 2^53 in absolute value. *)
Definition exact_param (value : param) : bool :=
  match value with
  | ParamString _ => true
  | ParamNumber n => (Z.abs n <=? 2 ^ 53)%Z
  end.

(** The values of the placeholders of a route. *)
Definition values_of (parts : list (string * param * string)) : list param :=
  map (fun part => snd (fst part)) parts.

(** A placeholder whose value and whose segment hold no colon, and whose
    value holds no dollar. *)
Definition plain (part : string * param * string) : bool :=
  free_of ":" (String_of (snd (fst part)))
  && free_of "$" (String_of (snd (fst part)))
  && free_of ":" (snd part).

(** ** Digests *)

(** A digit of [Buffer.toString('hex')]: 0 to 9, a to f. *)
Definition is_lower_hex (c : ascii) : bool := is_digit c || in_range 97 102 c.

Definition lower_hex (s : string) : bool :=
  forallb is_lower_hex (list_ascii_of_string s).






(** ** The table, row by row *)

(** The row a registration of [body] writes: the digest of the passport
    id and a bundle of the four attributes. *)
Definition issued_by (body : RegisterIdentityRequest) (row : Identity) : Prop :=
  passportHash row = SHA256.hex (passportId body)
  /\ exists e,
      encryptedData row
      = bundle_text (fullName body) (age body) (expiryDate body)
          (verificationCode body) e.

(** What every request keeps true of the table. *)
Record table_ok (d : database) : Prop := {
  next_id_positive : (1 <= next_id d)%Z;
  hashes_distinct : NoDup (map passportHash (rows d));
  ids_increasing : StronglySorted Z.lt (map id (rows d));
  ids_issued : Forall (fun row => (1 <= id row < next_id d)%Z) (rows d);
  rows_issued :
    Forall (fun row => exists body, valid body /\ issued_by body row) (rows d)
}.

(** ** What a response tells *)

(** Two responses with the same status that tell the client the same:
    the same match bit, the same id, the same message; of a refusal only
    the status is compared. *)
Definition same_verdict (r r' : response) : Prop :=
  match r, r' with
  | Success ct, Success ct' => decrypt ct = decrypt ct'
  | Created m i, Created m' i' => m = m' /\ i = i'
  | NotFound m, NotFound m' => m = m'
  | BadRequest _, BadRequest _ => True
  | _, _ => False
  end.

(** The query that holds the four attributes of a body, each encrypted
    with a random source of its own. *)
Definition query_for (body : RegisterIdentityRequest) (e1 e2 e3 e4 : entropy)
  : VerifyIdentityRequest :=
  {| query_passportHash := SHA256.hex (passportId body);
     encryptedQuery :=
       [ ("fullName", ciphertext_of (JStr (fullName body)) e1);
         ("age", ciphertext_of (JNum (age body)) e2);
         ("expiryDate", ciphertext_of (JStr (expiryDate body)) e3);
         ("verificationCode", ciphertext_of (JStr (verificationCode body)) e4) ] |}.

(** ** Texts of ASCII characters *)

(** Every character of the text is an ASCII character. *)
Definition is_ascii (s : string) : bool :=
  forallb (fun c => code c <? 128) (list_ascii_of_string s).

(** A plaintext of the page's form that is a number or a text of ASCII
    characters. *)
Definition ascii_value (v : json) : bool :=
  match v with
  | JNum _ => true
  | JStr s => is_ascii s
  | _ => false
  end.

(** The tag the page draws from its [k]-th random number. *)
Definition tag (rnd : random_numbers) (k : nat) : string :=
  String_substring 7 (toString36 (rnd k)).

(** The ciphertext the page makes of a value with two tags. *)
Definition page_ciphertext (val : json) (r noise : string) : string :=
  JSON_stringify (Ciphertext (Base64.encode (payload_of val r)) noise).

(** The query the page builds of a form of ASCII texts: the tags come
    from the first eight random numbers. *)
Definition page_query (data : RegisterIdentityRequest) (rnd : random_numbers)
  : list (string * string) :=
  [ ("fullName",
     page_ciphertext (JStr (fullName data)) (tag rnd 0) (tag rnd 1));
    ("age", page_ciphertext (JNum (age data)) (tag rnd 2) (tag rnd 3));
    ("expiryDate",
     page_ciphertext (JStr (expiryDate data)) (tag rnd 4) (tag rnd 5));
    ("verificationCode",
     page_ciphertext (JStr (verificationCode data)) (tag rnd 6) (tag rnd 7)) ].

(** A text with a byte that only a character from U+0100 on has. *)
Definition beyond_latin1 (s : string) : bool :=
  existsb (fun c => 196 <=? code c) (list_ascii_of_string s).

(** A hook that resolves with the answer of the server in the state [w],
    and rejects when the server refuses. *)
Definition server_hook (w : world) (body : VerifyIdentityRequest)
  : option string :=
  match fst (verify body w) with
  | Success encryptedResult => Some encryptedResult
  | _ => None
  end.

(** Random numbers for the examples. *)
Definition demo_numbers : random_numbers :=
  fun k => [k; 1; 2; 3; 4; 5; 6; 7; 8; 9; 10].

(** A form whose name is written in Arabic letters. *)
Definition arabic_form : RegisterIdentityRequest :=
  {| fullName := (utf8 1571 ++ utf8 1605 ++ utf8 1580 ++ utf8 1583)%string;
     age := 35; passportId := "A1234567"; expiryDate := "2030-01-01";
     verificationCode := "1234" |}.

(** * Properties *)

(** ** Facts on the encodings *)

Lemma below_forallb (P : nat -> bool) (n : nat) :
  forallb P (seq 0 n) = true -> forall i, i < n -> P i = true.
Proof.
  intros H i Hi. rewrite forallb_forall in H. apply H, in_seq. lia.
Qed.

Lemma hex_value_digit (n : nat) : n < 16 -> Hex.value (Hex.digit n) = Some n.
Proof.
  intro H.
  apply (below_forallb
           (fun i => match Hex.value (Hex.digit i) with
                     | Some j => j =? i
                     | None => false
                     end) 16 eq_refl) in H.
  destruct (Hex.value (Hex.digit n)); [|discriminate].
  apply Nat.eqb_eq in H. now subst.
Qed.

Lemma hex_digit_inj (n m : nat) :
  n < 16 -> m < 16 -> Hex.digit n = Hex.digit m -> n = m.
Proof.
  intros Hn Hm E. apply hex_value_digit in Hn, Hm. congruence.
Qed.

Lemma code_lt_256 (c : ascii) : code c < 256.
Proof. apply nat_ascii_bounded. Qed.

Lemma code_inj (a b : ascii) : code a = code b -> a = b.
Proof.
  intro E. rewrite <- (ascii_nat_embedding a), <- (ascii_nat_embedding b).
  unfold code in E. now rewrite E.
Qed.

Lemma String_inj (a b : ascii) (s t : string) :
  String a s = String b t -> a = b /\ s = t.
Proof. intro H. now inversion H. Qed.

Lemma hex_encode_inj (l1 l2 : list ascii) :
  Hex.encode l1 = Hex.encode l2 -> l1 = l2.
Proof.
  revert l2. induction l1 as [|a l1 IH]; intros [|b l2] E;
    cbn [Hex.encode] in E; try discriminate; [reflexivity|].
  apply String_inj in E. destruct E as [E1 E].
  apply String_inj in E. destruct E as [E2 E3].
  pose proof (code_lt_256 a). pose proof (code_lt_256 b).
  apply hex_digit_inj in E1; [|lia ..].
  apply hex_digit_inj in E2; [|lia ..].
  f_equal; [|now apply IH].
  apply code_inj. lia.
Qed.

Lemma base64_value_digit (n : nat) :
  n < 64 -> Base64.value (Base64.digit n) = Some n.
Proof.
  intro H.
  apply (below_forallb
           (fun i => match Base64.value (Base64.digit i) with
                     | Some j => j =? i
                     | None => false
                     end) 64 eq_refl) in H.
  destruct (Base64.value (Base64.digit n)); [|discriminate].
  apply Nat.eqb_eq in H. now subst.
Qed.

Lemma base64_digit_not_pad (n : nat) :
  n < 64 -> (Base64.digit n =? Base64.pad)%char = false.
Proof.
  intro H.
  now apply (below_forallb
           (fun i => negb (Base64.digit i =? Base64.pad)%char) 64 eq_refl),
    negb_true_iff in H.
Qed.

Lemma sextets_digit (n : nat) (rest : string) :
  n < 64 ->
  Base64.sextets (String (Base64.digit n) rest) = n :: Base64.sextets rest.
Proof.
  intro H. simpl.
  now rewrite base64_digit_not_pad, base64_value_digit.
Qed.

Lemma sextets_pad (rest : string) :
  Base64.sextets (String Base64.pad rest) = [].
Proof. reflexivity. Qed.

(** A stronger induction on strings, three characters at a time. *)
Lemma string_ind3 (P : string -> Prop) :
  P "" ->
  (forall a, P (String a "")) ->
  (forall a b, P (String a (String b ""))) ->
  (forall a b c s, P s -> P (String a (String b (String c s)))) ->
  forall s, P s.
Proof.
  intros H0 H1 H2 H3.
  fix IH 1.
  intros [|a [|b [|c s]]]; [exact H0 | exact (H1 a) | exact (H2 a b) |].
  exact (H3 a b c s (IH s)).
Qed.

Ltac sextet_bounds :=
  repeat match goal with
         | |- context [code ?a] =>
             lazymatch goal with
             | _ : code a < 256 |- _ => fail
             | _ => pose proof (code_lt_256 a)
             end
         end.

Lemma byte_of_code (a : ascii) (n : nat) : n = code a -> ascii_of_nat n = a.
Proof. intros ->. apply ascii_nat_embedding. Qed.

(** [Buffer.from(Buffer.from(s).toString('base64'), 'base64')] holds the
    bytes of [s]. *)
Lemma base64_decode_encode (s : string) : Base64.decode (Base64.encode s) = s.
Proof.
  unfold Base64.decode.
  induction s as [|a|a b|a b c s IH] using string_ind3.
  - reflexivity.
  - cbn [Base64.encode]. sextet_bounds.
    rewrite !sextets_digit, sextets_pad by lia.
    cbn [Base64.bytes_of_sextets].
    f_equal. apply byte_of_code. lia.
  - cbn [Base64.encode]. sextet_bounds.
    rewrite !sextets_digit, sextets_pad by lia.
    cbn [Base64.bytes_of_sextets].
    f_equal; [|f_equal]; apply byte_of_code; lia.
  - cbn [Base64.encode]. sextet_bounds.
    rewrite !sextets_digit by lia.
    cbn [Base64.bytes_of_sextets]. rewrite IH.
    f_equal; [|f_equal; [|f_equal]]; apply byte_of_code; lia.
Qed.

(** ** The grammar of JSON *)

Lemma skip_number_scan (s : string) (n : Z) (rest : string) :
  scan_number s = Some (n, rest) -> skip_number s = Some rest.
Proof.
  unfold scan_number, skip_number.
  destruct s as [|c r].
  - destruct (scan_digits "") as [ip s2].
    destruct (is_nil ip || leading_zero ip); [discriminate|].
    destruct (scan_fraction s2) as [[fp s3]|]; [|discriminate].
    destruct (scan_exponent s3) as [[e rest']|]; [|discriminate].
    destruct (scale10 _ _); [|discriminate]. congruence.
  - destruct (c =? "-")%char.
    all: match goal with
         | |- context [scan_digits ?x] => destruct (scan_digits x) as [ip s2]
         end.
    all: destruct (is_nil ip || leading_zero ip); [discriminate|].
    all: destruct (scan_fraction s2) as [[fp s3]|]; [|discriminate].
    all: destruct (scan_exponent s3) as [[e rest']|]; [|discriminate].
    all: destruct (scale10 _ _); [|discriminate]; congruence.
Qed.

(** What the parser reads is in the grammar, and the two stop at the same
    place. *)
Lemma skip_parse (fuel : nat) :
  (forall s j rest,
      parse_value fuel s = Some (j, rest) -> skip_value fuel s = Some rest)
  /\ (forall s l rest,
         parse_elements fuel s = Some (l, rest) ->
         skip_elements fuel s = Some rest)
  /\ (forall s l rest,
         parse_members fuel s = Some (l, rest) ->
         skip_members fuel s = Some rest).
Proof.
  induction fuel as [|fuel (IHv & IHe & IHm)]; [repeat split; discriminate|].
  repeat split; intros s x rest;
    cbn [parse_value parse_elements parse_members
         skip_value skip_elements skip_members].
  - destruct (skip_ws s) as [|c r]; [discriminate|].
    destruct (c =? "{")%char.
    { destruct (skip_ws r) as [|c2 r2]; [discriminate|].
      destruct (c2 =? "}")%char; [congruence|].
      destruct (parse_members fuel r) as [[ms rest']|] eqn:E; [|discriminate].
      intros [= <- <-]. exact (IHm _ _ _ E). }
    destruct (c =? "[")%char.
    { destruct (skip_ws r) as [|c2 r2]; [discriminate|].
      destruct (c2 =? "]")%char; [congruence|].
      destruct (parse_elements fuel r) as [[ms rest']|] eqn:E; [|discriminate].
      intros [= <- <-]. exact (IHe _ _ _ E). }
    destruct (c =? dquote)%char.
    { destruct (scan_string r) as [[items rest']|]; [|discriminate].
      intros [= <- <-]. reflexivity. }
    destruct (c =? "t")%char.
    { destruct (expect "rue" r); [|discriminate]. cbn. congruence. }
    destruct (c =? "f")%char.
    { destruct (expect "alse" r); [|discriminate]. cbn. congruence. }
    destruct (c =? "n")%char.
    { destruct (expect "ull" r); [|discriminate]. cbn. congruence. }
    destruct (scan_number (String c r)) as [[n rest']|] eqn:E; [|discriminate].
    intros [= <- <-]. exact (skip_number_scan _ _ _ E).
  - destruct (parse_value fuel s) as [[v rest']|] eqn:E; [|discriminate].
    rewrite (IHv _ _ _ E).
    destruct (skip_ws rest') as [|c r]; [discriminate|].
    destruct (c =? ",")%char.
    { destruct (parse_elements fuel r) as [[vs rest2]|] eqn:E2; [|discriminate].
      intros [= <- <-]. exact (IHe _ _ _ E2). }
    destruct (c =? "]")%char; [|discriminate]. congruence.
  - destruct (skip_ws s) as [|c r]; [discriminate|].
    destruct (c =? dquote)%char; [|discriminate].
    destruct (scan_string r) as [[key rest1]|]; [|discriminate].
    destruct (skip_ws rest1) as [|c2 r2]; [discriminate|].
    destruct (c2 =? ":")%char; [|discriminate].
    destruct (parse_value fuel r2) as [[v rest2]|] eqn:E; [|discriminate].
    rewrite (IHv _ _ _ E).
    destruct (skip_ws rest2) as [|c3 r3]; [discriminate|].
    destruct (c3 =? ",")%char.
    { destruct (parse_members fuel r3) as [[ms rest3]|] eqn:E2; [|discriminate].
      intros [= <- <-]. exact (IHm _ _ _ E2). }
    destruct (c3 =? "}")%char; [|discriminate]. congruence.
Qed.

Lemma JSON_parse_syntax (text : string) (j : json) :
  JSON_parse text = Some j -> JSON_syntax text = true.
Proof.
  unfold JSON_parse, JSON_syntax.
  destruct (parse_value _ text) as [[v rest]|] eqn:E; [|discriminate].
  rewrite (proj1 (skip_parse _) _ _ _ E).
  now destruct (skip_ws rest).
Qed.

(** ** [JSON.parse] reads back what [JSON.stringify] writes *)

Lemma append_assoc (a b c : string) : ((a ++ b) ++ c = a ++ (b ++ c))%string.
Proof. induction a; simpl; congruence. Qed.

Lemma append_nil_r (a : string) : (a ++ "")%string = a.
Proof. induction a; simpl; congruence. Qed.

Ltac each_ascii c :=
  destruct c as [[] [] [] [] [] [] [] []].

(** *** String literals *)

Lemma scan_literal (c : ascii) (tail : string) :
  (c =? dquote)%char = false -> (c =? backslash)%char = false ->
  (code c <? 32) = false ->
  scan_string (String c tail) = scan_next (Lit c) tail.
Proof. intros H1 H2 H3. cbn [scan_string]. now rewrite H1, H2, H3. Qed.

Lemma scan_simple_escape (e ch : ascii) (tail : string) :
  (e =? "u")%char = false -> simple_escape e = Some ch ->
  scan_string (String backslash (String e tail)) = scan_next (Lit ch) tail.
Proof.
  intros H1 H2. cbn [scan_string].
  change (backslash =? dquote)%char with false.
  change (backslash =? backslash)%char with true.
  cbn iota. now rewrite H1, H2.
Qed.

Lemma scan_unicode_escape (h1 h2 h3 h4 : ascii) (u : N) (tail : string) :
  hex4_value h1 h2 h3 h4 = Some u ->
  scan_string
    (String backslash (String "u" (String h1 (String h2 (String h3 (String h4 tail))))))
  = scan_next (Unit16 u) tail.
Proof.
  intros H. cbn [scan_string].
  change (backslash =? dquote)%char with false.
  change (backslash =? backslash)%char with true.
  change ("u" =? "u")%char with true.
  cbn iota. now rewrite H.
Qed.

Lemma scan_string_escape_char (c : ascii) (tail : string) :
  scan_string (escape_char c ++ tail) = scan_next (item_of c) tail.
Proof.
  each_ascii c;
    match goal with
    | |- context [escape_char ?c] =>
        let e := eval vm_compute in (escape_char c) in
        let i := eval vm_compute in (item_of c) in
        change (escape_char c) with e; change (item_of c) with i
    end;
    cbn [append];
    first [ apply scan_literal; vm_compute; reflexivity
          | apply scan_simple_escape; vm_compute; reflexivity
          | apply scan_unicode_escape; vm_compute; reflexivity ].
Qed.

Lemma scan_string_escape (s rest : string) :
  scan_string (escape s ++ String dquote rest) = Some (items_of s, rest).
Proof.
  induction s as [|c s IH]; [reflexivity|].
  cbn [escape items_of]. rewrite append_assoc, scan_string_escape_char.
  unfold scan_next. now rewrite IH.
Qed.

Lemma string_of_items_item_of (c : ascii) (l : list str_item) :
  string_of_items (item_of c :: l) = String c (string_of_items l).
Proof.
  each_ascii c; try reflexivity; destruct l as [|[|lo] l]; reflexivity.
Qed.

Lemma string_of_items_of (s : string) : string_of_items (items_of s) = s.
Proof.
  induction s as [|c s IH]; [reflexivity|].
  cbn [items_of]. now rewrite string_of_items_item_of, IH.
Qed.

(** *** Numbers *)

Lemma number_end_no_digit (rest : string) :
  number_end rest = true -> scan_digits rest = (Decimal.Nil, rest).
Proof.
  destruct rest as [|c rest]; [reflexivity|]. cbn.
  destruct (is_digit c); [discriminate|reflexivity].
Qed.

Lemma scan_digits_uint (u : Decimal.uint) (rest : string) :
  number_end rest = true ->
  scan_digits (NilEmpty.string_of_uint u ++ rest) = (u, rest).
Proof.
  intro H. induction u; cbn [NilEmpty.string_of_uint append];
    [now apply number_end_no_digit | ..];
    cbn [scan_digits]; rewrite IHu; reflexivity.
Qed.

Lemma unorm_D0_nil (d u : Decimal.uint) :
  Decimal.unorm d = Decimal.D0 u -> u = Decimal.Nil.
Proof.
  induction d; cbn; intro H; try discriminate; try (now injection H); auto.
Qed.

Lemma to_uint_unorm (p : positive) :
  Decimal.unorm (Pos.to_uint p) = Pos.to_uint p.
Proof.
  rewrite <- DecimalPos.Unsigned.to_of, DecimalPos.Unsigned.of_to.
  reflexivity.
Qed.

Lemma to_uint_no_leading_zero (p : positive) :
  is_nil (Pos.to_uint p) || leading_zero (Pos.to_uint p) = false.
Proof.
  pose proof (to_uint_unorm p) as H.
  pose proof (Unsigned.to_uint_nonnil p) as Hn.
  destruct (Pos.to_uint p) as [|u| | | | | | | | |]; try reflexivity;
    [now elim Hn|].
  apply unorm_D0_nil in H. now subst.
Qed.

Lemma of_to_uint (p : positive) : Z.of_uint (Pos.to_uint p) = Z.pos p.
Proof.
  unfold Z.of_uint. now rewrite DecimalPos.Unsigned.of_to.
Qed.

Lemma scan_fraction_end (rest : string) :
  number_end rest = true -> scan_fraction rest = Some (Decimal.Nil, rest).
Proof.
  destruct rest as [|c rest]; [reflexivity|]. cbn.
  destruct (c =? ".")%char; [|reflexivity].
  rewrite orb_true_r. discriminate.
Qed.

Lemma scan_exponent_end (rest : string) :
  number_end rest = true -> scan_exponent rest = Some (0%Z, rest).
Proof.
  destruct rest as [|c rest]; [reflexivity|]. cbn.
  destruct (c =? "e")%char, (c =? "E")%char; try reflexivity;
    rewrite ?orb_true_r; discriminate.
Qed.

(** The digits of a positive number, then the end of the number. *)
Lemma scan_unsigned (p : positive) (rest : string) :
  number_end rest = true ->
  let (ip, s2) := scan_digits (NilEmpty.string_of_uint (Pos.to_uint p) ++ rest) in
  (if is_nil ip || leading_zero ip then None
   else
     match scan_fraction s2 with
     | None => None
     | Some (fp, s3) =>
         match scan_exponent s3 with
         | None => None
         | Some (e, rest') =>
             match scale10 (Z.of_uint (Decimal.app ip fp))
                           (e - Z.of_nat (Decimal.nb_digits fp)) with
             | Some m => Some (m, rest')
             | None => None
             end
         end
     end) = Some (Z.pos p, rest).
Proof.
  intro H. rewrite scan_digits_uint by assumption.
  rewrite to_uint_no_leading_zero, scan_fraction_end, scan_exponent_end
    by assumption.
  rewrite DecimalFacts.app_nil_r, of_to_uint. cbn. now rewrite Pos.mul_1_r.
Qed.

Lemma uint_first_digit (u : Decimal.uint) :
  u <> Decimal.Nil ->
  exists c r, NilEmpty.string_of_uint u = String c r /\ is_digit c = true.
Proof.
  destruct u; [congruence | ..]; intros _; eexists _, _; split; reflexivity.
Qed.

Lemma number_first_char (n : Z) :
  exists c r, number_to_string n = String c r /\ number_start c = true.
Proof.
  destruct n as [|p|p]; cbn [number_to_string].
  - now eexists _, _.
  - destruct (uint_first_digit _ (Unsigned.to_uint_nonnil p)) as (c & r & E & D).
    exists c, r. unfold number_start. now rewrite E, D.
  - now eexists _, _.
Qed.

Lemma digit_not_minus (c : ascii) : is_digit c = true -> (c =? "-")%char = false.
Proof. each_ascii c; vm_compute; congruence. Qed.

Lemma scan_number_text (n : Z) (rest : string) :
  number_end rest = true ->
  scan_number (number_to_string n ++ rest) = Some (n, rest).
Proof.
  intro H. destruct n as [|p|p]; cbn [number_to_string].
  - unfold scan_number. cbn [append Ascii.eqb Bool.eqb].
    change (String "0" rest) with (NilEmpty.string_of_uint (Decimal.D0 Decimal.Nil) ++ rest)%string.
    rewrite scan_digits_uint by assumption. cbn [is_nil leading_zero orb].
    now rewrite scan_fraction_end, scan_exponent_end by assumption.
  - pose proof (scan_unsigned p rest H) as S.
    unfold scan_number.
    destruct (uint_first_digit _ (Unsigned.to_uint_nonnil p)) as (c & r & E & D).
    rewrite E in *. cbn [append]. rewrite (digit_not_minus c D).
    cbn [append] in S.
    destruct (scan_digits (String c (r ++ rest))) as [ip s2].
    destruct (is_nil ip || leading_zero ip); [discriminate|].
    destruct (scan_fraction s2) as [[fp s3]|]; [|discriminate].
    destruct (scan_exponent s3) as [[e rest']|]; [|discriminate].
    destruct (scale10 _ _); [|discriminate]. exact S.
  - pose proof (scan_unsigned p rest H) as S.
    unfold scan_number. cbn [append Ascii.eqb Bool.eqb].
    destruct (scan_digits _) as [ip s2].
    destruct (is_nil ip || leading_zero ip); [discriminate|].
    destruct (scan_fraction s2) as [[fp s3]|]; [|discriminate].
    destruct (scan_exponent s3) as [[e rest']|]; [|discriminate].
    destruct (scale10 _ _); [|discriminate].
    injection S as -> ->. reflexivity.
Qed.

(** *** Values *)

(** An induction principle that reaches the values inside arrays and
    objects. *)
Lemma json_nested_ind (P : json -> Prop) :
  P JNull ->
  (forall b, P (JBool b)) ->
  (forall n, P (JNum n)) ->
  (forall s, P (JStr s)) ->
  (forall items, Forall P items -> P (JArr items)) ->
  (forall members, Forall (fun m => P (snd m)) members -> P (JObj members)) ->
  forall j, P j.
Proof.
  intros Hnull Hbool Hnum Hstr Harr Hobj.
  fix IH 1.
  intros [| b | n | s | items | members];
    [exact Hnull | apply Hbool | apply Hnum | apply Hstr | apply Harr | apply Hobj].
  - induction items as [|v items IHitems]; constructor; [apply IH | exact IHitems].
  - induction members as [|[k v] members IHm]; constructor;
      [apply IH | exact IHm].
Qed.

Lemma fuel_needed_array (items : list json) :
  fuel_needed (JArr items) = S (elements_fuel items).
Proof. reflexivity. Qed.

Lemma fuel_needed_object (members : list (string * json)) :
  fuel_needed (JObj members) = S (members_fuel members).
Proof. reflexivity. Qed.

Ltac known_char :=
  match goal with
  | |- context [skip_ws (String ?c ?r)] =>
      let b := eval vm_compute in (is_ws c) in
      lazymatch b with
      | false => change (skip_ws (String c r)) with (String c r)
      end
  | |- context [(?a =? ?b)%char] =>
      let v := eval vm_compute in (a =? b)%char in
      lazymatch v with
      | true => change (a =? b)%char with true
      | false => change (a =? b)%char with false
      end
  end.

Ltac known_chars := repeat (known_char; cbv iota).

Lemma parse_value_number (f : nat) (c : ascii) (r : string) :
  number_start c = true ->
  parse_value (S f) (String c r) =
  match scan_number (String c r) with
  | Some (n, rest) => Some (JNum n, rest)
  | None => None
  end.
Proof.
  intro H. each_ascii c; try (vm_compute in H; discriminate);
    cbn [parse_value]; known_chars; reflexivity.
Qed.

Lemma number_start_value_start (c : ascii) :
  number_start c = true -> value_start c = true.
Proof. each_ascii c; vm_compute; congruence. Qed.

Lemma stringify_first (j : json) :
  exists c r, JSON_stringify j = String c r /\ value_start c = true.
Proof.
  destruct j as [|[]|n|s|items|members]; cbn [JSON_stringify];
    try (eexists _, _; split; reflexivity).
  destruct (number_first_char n) as (c & r & E & H).
  exists c, r. split; [assumption|]. now apply number_start_value_start.
Qed.

Lemma value_start_spec (c : ascii) :
  value_start c = true ->
  is_ws c = false /\ (c =? "]")%char = false /\ (c =? "}")%char = false.
Proof.
  unfold value_start. rewrite !andb_true_iff, !negb_true_iff. tauto.
Qed.

Lemma join_cons2 (sep a b : string) (l : list string) :
  join sep (a :: b :: l) = (a ++ sep ++ join sep (b :: l))%string.
Proof. reflexivity. Qed.

Lemma parse_elements_text (items : list json) :
  Forall reads_back items -> items <> [] ->
  forall fuel rest,
    elements_fuel items <= fuel ->
    parse_elements fuel
      (join "," (map JSON_stringify items) ++ String "]" rest)
    = Some (items, rest).
Proof.
  induction 1 as [|v items Hv Hitems IH]; [congruence|]. intros _ fuel rest Hf.
  destruct fuel as [|fuel]; [cbn in Hf; lia|]. cbn [elements_fuel] in Hf.
  destruct items as [|v2 items].
  - cbn [map join]. cbn [parse_elements].
    rewrite Hv by (reflexivity || lia). known_chars. reflexivity.
  - cbn [map]. rewrite join_cons2, !append_assoc. cbn [parse_elements append].
    rewrite Hv by (reflexivity || lia). known_chars.
    change (JSON_stringify v2 :: map JSON_stringify items)
      with (map JSON_stringify (v2 :: items)).
    rewrite IH by (congruence || lia). reflexivity.
Qed.

Lemma parse_members_text (members : list (string * json)) :
  Forall (fun m => reads_back (snd m)) members -> members <> [] ->
  forall fuel rest,
    members_fuel members <= fuel ->
    parse_members fuel
      (join "," (map (member_text JSON_stringify) members) ++ String "}" rest)
    = Some (members, rest).
Proof.
  induction 1 as [|[k v] members Hv Hm IH]; [congruence|].
  intros _ fuel rest Hf.
  destruct fuel as [|fuel]; [cbn in Hf; lia|].
  cbn [members_fuel snd] in Hf. cbn [snd] in Hv.
  destruct members as [|m2 members].
  - cbn [map join]. unfold member_text, quote. cbn [fst snd].
    rewrite !append_assoc. cbn [append parse_members]. known_chars.
    rewrite !append_assoc. cbn [append].
    rewrite scan_string_escape. known_chars.
    rewrite Hv by (reflexivity || lia). known_chars.
    now rewrite string_of_items_of.
  - cbn [map]. rewrite join_cons2. unfold member_text at 1, quote.
    cbn [fst snd]. rewrite !append_assoc. cbn [append parse_members].
    known_chars. rewrite !append_assoc. cbn [append].
    rewrite scan_string_escape. known_chars.
    rewrite Hv by (reflexivity || lia). known_chars.
    change (member_text JSON_stringify m2 :: map (member_text JSON_stringify) members)
      with (map (member_text JSON_stringify) (m2 :: members)).
    rewrite IH by (congruence || lia).
    now rewrite string_of_items_of.
Qed.

Lemma parse_value_text (j : json) : reads_back j.
Proof.
  induction j as [| b | n | s | items IH | members IH] using json_nested_ind;
    intros fuel rest Hrest Hfuel;
    (destruct fuel as [|fuel]; [cbn in Hfuel; lia|]).
  - reflexivity.
  - destruct b; reflexivity.
  - cbn [JSON_stringify].
    destruct (number_first_char n) as (c & r & E & H).
    pose proof (scan_number_text n rest Hrest) as S.
    rewrite E in *. cbn [append] in *.
    now rewrite parse_value_number, S.
  - cbn [JSON_stringify]. unfold quote. cbn [append].
    rewrite append_assoc. cbn [append parse_value]. known_chars.
    now rewrite scan_string_escape, string_of_items_of.
  - rewrite fuel_needed_array in Hfuel. cbn [JSON_stringify].
    destruct items as [|v items]; [reflexivity|].
    rewrite !append_assoc. cbn [append parse_value]. known_chars.
    pose proof (parse_elements_text (v :: items) IH ltac:(congruence)
                  fuel rest ltac:(lia)) as P.
    destruct (stringify_first v) as (c & r & E & Hc).
    apply value_start_spec in Hc. destruct Hc as (W & B & _).
    assert (exists r', (join "," (map JSON_stringify (v :: items))
                        ++ String "]" rest)%string = String c r') as [r' E'].
    { destruct items; cbn [map]; [cbn [join]|rewrite join_cons2];
        rewrite E; cbn [append]; eauto. }
    rewrite E' in *. cbn [skip_ws]. rewrite W, B. now rewrite P.
  - rewrite fuel_needed_object in Hfuel. cbn [JSON_stringify].
    destruct members as [|[k v] members]; [reflexivity|].
    rewrite !append_assoc. cbn [append parse_value]. known_chars.
    pose proof (parse_members_text ((k, v) :: members) IH ltac:(congruence)
                  fuel rest ltac:(lia)) as P.
    assert (exists r', (join "," (map (member_text JSON_stringify) ((k, v) :: members))
                        ++ String "}" rest)%string = String dquote r') as [r' E'].
    { destruct members; cbn [map]; [cbn [join]|rewrite join_cons2];
        unfold member_text at 1, quote; cbn [append fst]; eauto. }
    cbn [append] in *. rewrite E' in *. known_chars. now rewrite P.
Qed.

(** *** The whole text *)

Lemma length_append (a b : string) :
  String.length (a ++ b) = String.length a + String.length b.
Proof. induction a; cbn; lia. Qed.

Lemma stringify_length_pos (j : json) : 1 <= String.length (JSON_stringify j).
Proof.
  destruct (stringify_first j) as (c & r & E & _). rewrite E. cbn. lia.
Qed.

Lemma elements_fuel_bound (items : list json) :
  Forall (fun j => fuel_needed j <= 2 * String.length (JSON_stringify j)) items ->
  elements_fuel items
  <= 2 * String.length (join "," (map JSON_stringify items)) + 1.
Proof.
  induction 1 as [|v items Hv _ IH]; [cbn; lia|].
  destruct items as [|v2 items].
  - cbn [map join elements_fuel]. lia.
  - cbn [map] in *. rewrite join_cons2, !length_append.
    cbn [elements_fuel] in *. cbn [String.length]. lia.
Qed.

Lemma members_fuel_bound (members : list (string * json)) :
  Forall (fun m => fuel_needed (snd m)
                   <= 2 * String.length (JSON_stringify (snd m))) members ->
  members_fuel members
  <= 2 * String.length (join "," (map (member_text JSON_stringify) members)) + 1.
Proof.
  induction 1 as [|[k v] members Hv _ IH]; [cbn; lia|]. cbn [snd] in Hv.
  destruct members as [|m2 members].
  - cbn [map join members_fuel snd]. unfold member_text.
    rewrite !length_append. cbn [snd]. lia.
  - cbn [map] in *. rewrite join_cons2. unfold member_text at 1.
    rewrite !length_append.
    cbn [members_fuel snd] in *. cbn [String.length]. lia.
Qed.

Lemma fuel_needed_bound (j : json) :
  fuel_needed j <= 2 * String.length (JSON_stringify j).
Proof.
  induction j as [| b | n | s | items IH | members IH] using json_nested_ind;
    try (pose proof (stringify_length_pos JNull);
         match goal with
         | |- fuel_needed ?j <= _ => pose proof (stringify_length_pos j)
         end; cbn [fuel_needed]; lia).
  - rewrite fuel_needed_array. apply elements_fuel_bound in IH.
    cbn [JSON_stringify]. rewrite !length_append. cbn [String.length]. lia.
  - rewrite fuel_needed_object. apply members_fuel_bound in IH.
    cbn [JSON_stringify]. rewrite !length_append. cbn [String.length]. lia.
Qed.

(** [JSON.parse(JSON.stringify(j))] is [j], for every value. *)
Theorem JSON_parse_stringify (j : json) : JSON_parse (JSON_stringify j) = Some j.
Proof.
  unfold JSON_parse. pose proof (fuel_needed_bound j).
  rewrite <- (append_nil_r (JSON_stringify j)) at 2.
  rewrite parse_value_text by (reflexivity || lia). reflexivity.
Qed.

(** ** The simulator *)

Lemma encrypt_run (value : json) (e : entropy) :
  encrypt value e = (Ok (ciphertext_of value e), after_encrypt e).
Proof. reflexivity. Qed.

Lemma decrypt_text (text : string) :
  decrypt text =
  try_catch_rethrow
    (do ct <- JSON_parse_or_throw text;
     do type <- get ct "type";
     if negb (strict_eq type scheme_tag)
     then Throw (Error "Invalid Ciphertext")
     else do data <- get ct "data"; open_payload data)
    "Decryption Failed".
Proof. reflexivity. Qed.

(** Every failure of [decrypt] is the one error. *)
Lemma decrypt_throws (ciphertext : jsval) (x : exn) :
  decrypt ciphertext = Throw x -> x = failed.
Proof.
  unfold decrypt, try_catch_rethrow, failed.
  destruct (bind _ _); congruence.
Qed.

Lemma decrypt_Ciphertext (data noise : string) :
  decrypt (JSON_stringify (Ciphertext data noise)) =
  try_catch_rethrow
    (do json <- JSON_parse_or_throw (Base64.decode data); get json "v")
    "Decryption Failed".
Proof.
  rewrite decrypt_text. unfold JSON_parse_or_throw at 1.
  rewrite JSON_parse_stringify. reflexivity.
Qed.

Lemma decrypt_ciphertext_of (value : json) (e : entropy) :
  decrypt (ciphertext_of value e) = Ok (VJson value).
Proof.
  unfold ciphertext_of, data_of. rewrite decrypt_Ciphertext.
  rewrite base64_decode_encode. unfold payload_of, JSON_parse_or_throw.
  rewrite JSON_parse_stringify. reflexivity.
Qed.

(** [homomorphicEquality] on two operands that decrypt: the comparison,
    encrypted. *)
Lemma homomorphicEquality_run (ct1 ct2 v1 v2 : jsval) (eq : bool) (e : entropy) :
  decrypt ct1 = Ok v1 -> decrypt ct2 = Ok v2 -> loose_eq v1 v2 = Ok eq ->
  homomorphicEquality ct1 ct2 e
  = (Ok (ciphertext_of (JNum (if eq then 1 else 0)) e), after_encrypt e).
Proof.
  intros H1 H2 H3. unfold homomorphicEquality, mbind, lift.
  now rewrite H1, H2, H3.
Qed.

Lemma homomorphicEquality_fails_left (ct1 ct2 : jsval) (x : exn) (e : entropy) :
  decrypt ct1 = Throw x ->
  homomorphicEquality ct1 ct2 e = (Throw failed, e).
Proof.
  intros H. unfold homomorphicEquality, mbind, lift.
  rewrite H. now rewrite (decrypt_throws _ _ H).
Qed.

Lemma homomorphicEquality_fails_right (ct1 ct2 v1 : jsval) (x : exn) (e : entropy) :
  decrypt ct1 = Ok v1 -> decrypt ct2 = Throw x ->
  homomorphicEquality ct1 ct2 e = (Throw failed, e).
Proof.
  intros H1 H2. unfold homomorphicEquality, mbind, lift.
  rewrite H1, H2. now rewrite (decrypt_throws _ _ H2).
Qed.

(** Loose equality on two strings, and on two numbers, is equality. *)
Lemma loose_eq_strings (a b : string) :
  loose_eq a b = Ok (a =? b)%string.
Proof. reflexivity. Qed.

Lemma loose_eq_numbers (a b : Z) :
  loose_eq (num a) (num b) = Ok (a =? b)%Z.
Proof. reflexivity. Qed.

Lemma loose_eq_string_number (a : string) (b : Z) :
  loose_eq a (num b) = Ok (same_number (StringToNumber a) (Some b)).
Proof. reflexivity. Qed.

Lemma loose_eq_number_string (a : Z) (b : string) :
  loose_eq (num a) b = Ok (same_number (Some a) (StringToNumber b)).
Proof. reflexivity. Qed.

(** ** The stored bundle *)

Lemma encrypt_attributes_run (name : string) (years : Z) (expiry code : string)
  (e : entropy) :
  encrypt_attributes name years expiry code e
  = (Ok (bundle_text name years expiry code e), entropy_after 4 e).
Proof. reflexivity. Qed.

Lemma own_property_cons_other (k key : string) (v : json)
  (members : list (string * json)) :
  (k =? key)%string = false ->
  own_property ((k, v) :: members) key = own_property members key.
Proof.
  intro H. cbn [own_property]. rewrite H. now destruct (own_property members key).
Qed.

(** A member of the bundle is the ciphertext of its attribute, and
    decrypts to it. *)
Lemma bundle_member (name : string) (years : Z) (expiry code : string)
  (e : entropy) (key : string) :
  match attribute name years expiry code key with
  | Some v =>
      exists ct, own_property (bundle_of name years expiry code e) key
                 = Some (JStr ct)
                 /\ decrypt ct = Ok (VJson v) /\ ct <> ""
  | None => own_property (bundle_of name years expiry code e) key = None
  end.
Proof.
  unfold attribute, bundle_of.
  destruct (key =? "fullName")%string eqn:E1.
  { apply String.eqb_eq in E1. subst. eexists. split; [reflexivity|].
    split; [apply decrypt_ciphertext_of | discriminate]. }
  destruct (key =? "age")%string eqn:E2.
  { apply String.eqb_eq in E2. subst. eexists. split; [reflexivity|].
    split; [apply decrypt_ciphertext_of | discriminate]. }
  destruct (key =? "expiryDate")%string eqn:E3.
  { apply String.eqb_eq in E3. subst. eexists. split; [reflexivity|].
    split; [apply decrypt_ciphertext_of | discriminate]. }
  destruct (key =? "verificationCode")%string eqn:E4.
  { apply String.eqb_eq in E4. subst. eexists. split; [reflexivity|].
    split; [apply decrypt_ciphertext_of | discriminate]. }
  rewrite String.eqb_sym in E1, E2, E3, E4.
  rewrite !own_property_cons_other by assumption. reflexivity.
Qed.

(** ** The comparison loop *)

Lemma entropy_after_succ (k : nat) (e : entropy) :
  entropy_after k (after_encrypt e) = entropy_after (S k) e.
Proof. unfold entropy_after. now rewrite Nat.iter_succ_r. Qed.

Lemma compare_fields_run (storedData : json) (entries : list (string * string)) :
  forall (overallMatch : Z) (e : entropy),
    compare_fields storedData entries overallMatch e
    = (do bits <- sequence (map (field_outcome storedData) entries);
       Ok (if all_match bits then overallMatch else 0%Z),
       entropy_after (comparisons storedData entries) e).
Proof.
  induction entries as [|[key q] rest IH]; intros m e; [reflexivity|].
  cbn [compare_fields map sequence comparisons].
  unfold field_outcome at 1 3. cbn [fst snd].
  unfold mbind at 1, lift at 1.
  destruct (get storedData key) as [stored|x]; [|reflexivity].
  cbn [bind].
  destruct (truthy stored).
  - unfold mbind at 1.
    destruct (decrypt q) as [v1|x1] eqn:D1;
      [|erewrite homomorphicEquality_fails_left by eassumption;
        now rewrite (decrypt_throws _ _ D1)].
    destruct (decrypt stored) as [v2|x2] eqn:D2;
      [|erewrite homomorphicEquality_fails_right by eassumption;
        now rewrite (decrypt_throws _ _ D2)].
    cbn [bind].
    destruct (loose_eq v1 v2) as [eq|x3] eqn:L.
    + erewrite homomorphicEquality_run by eassumption.
      unfold mbind at 1, lift at 1. rewrite decrypt_ciphertext_of.
      rewrite IH, entropy_after_succ. cbn [bind].
      destruct (sequence (map (field_outcome storedData) rest)) as [bits|x];
        [|now destruct eq].
      cbn [bind all_match forallb]. fold (all_match bits).
      destruct eq; cbn; [reflexivity|now destruct (all_match bits)].
    + unfold homomorphicEquality, mbind, lift. now rewrite D1, D2, L.
  - rewrite IH. cbn [bind Nat.add].
    destruct (sequence (map (field_outcome storedData) rest)) as [bits|x];
      [|reflexivity].
    cbn [bind all_match forallb andb]. now destruct (all_match bits).
Qed.

Lemma truthy_text (s : string) : s <> "" -> truthy s = true.
Proof. destruct s; [congruence|reflexivity]. Qed.

Lemma inherited_names (key : string) :
  inherited key = true -> In key Object_prototype_names.
Proof.
  unfold inherited. rewrite existsb_exists. intros (name & Hin & E).
  apply String.eqb_eq in E. now subst.
Qed.

(** What a parsed object inherits is no ciphertext. *)
Lemma decrypt_inherited (key : string) :
  inherited key = true -> decrypt (VProto key) = Throw failed.
Proof.
  intro H. apply inherited_names in H. cbn in H.
  repeat (destruct H as [<-|H]; [vm_compute; reflexivity|]). contradiction.
Qed.

Section Bundle.

Variables (name : string) (years : Z) (expiry code : string) (e : entropy).

Let storedData : json := JObj (bundle_of name years expiry code e).

(** A queried field the bundle holds: the query is compared with the
    stored attribute. *)
Lemma field_outcome_present (key q : string) (v : json) :
  attribute name years expiry code key = Some v ->
  field_outcome storedData (key, q)
  = (do v1 <- decrypt q; loose_eq v1 (VJson v)).
Proof.
  intro A. pose proof (bundle_member name years expiry code e key) as B.
  rewrite A in B. destruct B as (ct & P & D & N).
  unfold field_outcome, storedData. cbn [fst snd get]. rewrite P. cbn [bind].
  fold (str ct). rewrite truthy_text by assumption. now rewrite D.
Qed.


(** A queried name that every object inherits: the comparison throws. *)
Lemma field_outcome_inherited (key q : string) :
  attribute name years expiry code key = None -> inherited key = true ->
  field_outcome storedData (key, q) = Throw failed.
Proof.
  intros A I. pose proof (bundle_member name years expiry code e key) as B.
  rewrite A in B.
  unfold field_outcome, storedData. cbn [fst snd get]. rewrite B, I.
  cbn [bind truthy]. rewrite (decrypt_inherited key I).
  destruct (decrypt q) as [v1|x] eqn:D; [reflexivity|].
  now rewrite (decrypt_throws _ _ D).
Qed.

End Bundle.

(** ** The routes *)

(** The register handler, case by case. *)
Lemma register_run (body : RegisterIdentityRequest) (w : world) :
  register body w =
  match registerIdentitySchema_issues body with
  | [] =>
      if existsb (has_hash (SHA256.hex (passportId body))) (rows (db w))
      then (BadRequest (UniqueViolation "identities_passport_hash_unique"),
            {| db := {| rows := rows (db w); next_id := next_id (db w) + 1 |};
               rng := entropy_after 4 (rng w) |})
      else (Created "Identity Issued" (next_id (db w)),
            {| db := {| rows := rows (db w) ++ [new_row body w];
                        next_id := next_id (db w) + 1 |};
               rng := entropy_after 4 (rng w) |})
  | issues => (BadRequest (ZodError issues), w)
  end.
Proof.
  unfold register, respond, registerIdentitySchema_parse.
  destruct (registerIdentitySchema_issues body) as [|i issues]; [|reflexivity].
  unfold mbind at 1, lift at 1. unfold mbind at 1.
  unfold with_rng at 1. rewrite encrypt_attributes_run.
  unfold mbind at 1, with_db, createIdentity.
  cbn [db rng insert_passportHash insert_encryptedData].
  destruct (existsb _ _); reflexivity.
Qed.

(** The entries that [record_parse] keeps. *)
Lemma record_parse_In (entries : list (string * string)) (entry : string * string) :
  In entry (record_parse entries)
  <-> In entry entries /\ fst entry <> "__proto__".
Proof.
  unfold record_parse. rewrite filter_In, negb_true_iff.
  now rewrite <- String.eqb_neq.
Qed.

Lemma record_parse_keeps (entries : list (string * string)) :
  Forall (fun entry => fst entry <> "__proto__") entries ->
  record_parse entries = entries.
Proof.
  induction 1 as [|entry entries H _ IH]; [reflexivity|].
  unfold record_parse in *. cbn [filter].
  apply String.eqb_neq in H. rewrite H. cbn [negb]. now rewrite IH.
Qed.

Lemma record_parse_app (q1 q2 : list (string * string)) :
  record_parse (q1 ++ q2) = record_parse q1 ++ record_parse q2.
Proof. apply filter_app. Qed.


Lemma record_parse_Permutation (q q' : list (string * string)) :
  Permutation q q' -> Permutation (record_parse q) (record_parse q').
Proof.
  unfold record_parse.
  induction 1 as [|x l l' _ IH|x y l|l l' l'' _ IH1 _ IH2]; cbn [filter].
  - constructor.
  - destruct (negb _); [now constructor|assumption].
  - destruct (negb (fst x =? _)%string), (negb (fst y =? _)%string);
      try apply Permutation_refl; apply perm_swap.
  - now transitivity (filter (fun entry => negb (fst entry =? "__proto__")%string) l').
Qed.

(** The verify handler refuses a hash that holds the byte 0: the lookup
    throws. *)
Lemma verify_zero_byte (body : VerifyIdentityRequest) (w : world) :
  has_zero_byte (query_passportHash body) = true ->
  verify body w = (BadRequest InvalidByteSequence, w).
Proof.
  intro Z. unfold verify, respond, verifyIdentitySchema_parse.
  unfold mbind at 1, lift at 1. unfold mbind at 1, lift at 1, text_parameter.
  cbn [query_passportHash]. now rewrite Z.
Qed.

(** The verify handler, once the hash has gone to the database. *)
Lemma verify_lookup (body : VerifyIdentityRequest) (w : world) :
  has_zero_byte (query_passportHash body) = false ->
  verify body w =
  respond
    (fun w =>
       match getIdentityByHash (query_passportHash body) (db w) with
       | None => (Ok (NotFound "Identity not found"), w)
       | Some identity =>
           (storedData <- lift (JSON_parse_or_throw (encryptedData identity)) ;;
            overallMatch <- with_rng
              (compare_fields storedData (record_parse (encryptedQuery body))
                 1%Z) ;;
            encryptedResult <- with_rng (encrypt (JNum overallMatch)) ;;
            ret (Success encryptedResult)) w
       end) w.
Proof.
  intro Z. unfold verify, respond, verifyIdentitySchema_parse.
  unfold mbind at 1, lift at 1. unfold mbind at 1, lift at 1, text_parameter.
  cbn [query_passportHash encryptedQuery]. now rewrite Z.
Qed.

(** The verify handler, once the record is found and its bundle read. *)
Lemma verify_run (body : VerifyIdentityRequest) (w : world) (row : Identity)
  (storedData : json) :
  has_zero_byte (query_passportHash body) = false ->
  getIdentityByHash (query_passportHash body) (db w) = Some row ->
  JSON_parse (encryptedData row) = Some storedData ->
  verify body w =
  let query := record_parse (encryptedQuery body) in
  let e := entropy_after (comparisons storedData query) (rng w) in
  match sequence (map (field_outcome storedData) query) with
  | Ok bits =>
      (Success (ciphertext_of (JNum (if all_match bits then 1 else 0)) e),
       {| db := db w; rng := after_encrypt e |})
  | Throw x => (BadRequest x, {| db := db w; rng := e |})
  end.
Proof.
  intros Z F P. rewrite (verify_lookup body w Z). unfold respond. rewrite F.
  unfold mbind at 1, lift at 1, JSON_parse_or_throw. rewrite P.
  unfold mbind at 1, with_rng at 1. rewrite compare_fields_run. cbn [rng db].
  cbv zeta.
  destruct (sequence _) as [bits|x]; [|reflexivity].
  cbn [bind]. unfold mbind, with_rng. cbn [rng db]. now rewrite encrypt_run.
Qed.

Lemma verify_not_found (body : VerifyIdentityRequest) (w : world) :
  has_zero_byte (query_passportHash body) = false ->
  getIdentityByHash (query_passportHash body) (db w) = None ->
  verify body w = (NotFound "Identity not found", w).
Proof.
  intros Z F. rewrite (verify_lookup body w Z). unfold respond. now rewrite F.
Qed.

(** [verify] never writes to the table. *)
Lemma verify_db (body : VerifyIdentityRequest) (w : world) :
  db (snd (verify body w)) = db w.
Proof.
  destruct (has_zero_byte (query_passportHash body)) eqn:Z;
    [now rewrite verify_zero_byte|].
  destruct (getIdentityByHash (query_passportHash body) (db w)) as [row|] eqn:F;
    [|now rewrite verify_not_found].
  destruct (JSON_parse (encryptedData row)) as [sd|] eqn:P.
  - rewrite (verify_run _ _ _ _ Z F P). cbv zeta.
    now destruct (sequence _).
  - rewrite (verify_lookup body w Z). unfold respond. rewrite F.
    unfold mbind at 1, lift at 1, JSON_parse_or_throw. now rewrite P.
Qed.

(** ** What the table holds *)

Lemma find_existsb {A : Type} (f : A -> bool) (l : list A) :
  existsb f l = match find f l with Some _ => true | None => false end.
Proof. induction l as [|a l IH]; cbn; [reflexivity|]. now destruct (f a). Qed.

(** Seeding is the registration of the demo identity, when it is not
    there yet. *)
Lemma seedDatabase_run (w : world) :
  seedDatabase w =
  match getIdentityByHash (SHA256.hex "A1234567") (db w) with
  | Some _ => w
  | None => snd (register seed_body w)
  end.
Proof.
  unfold seedDatabase.
  destruct (getIdentityByHash _ _) eqn:F; [reflexivity|].
  rewrite register_run.
  change (registerIdentitySchema_issues seed_body) with (@nil (string * string)).
  cbv iota. unfold getIdentityByHash in F.
  change (passportId seed_body) with "A1234567".
  rewrite find_existsb, F. unfold with_rng. rewrite encrypt_attributes_run.
  unfold with_db, createIdentity.
  cbn [db rng insert_passportHash insert_encryptedData].
  rewrite find_existsb, F. reflexivity.
Qed.

Lemma register_rows (body : RegisterIdentityRequest) (w : world) :
  rows (db (snd (register body w))) = rows (db w)
  \/ rows (db (snd (register body w))) = rows (db w) ++ [new_row body w].
Proof.
  rewrite register_run.
  destruct (registerIdentitySchema_issues body); [|now left].
  destruct (existsb _ _); [now left|now right].
Qed.

Lemma new_row_well_stored (body : RegisterIdentityRequest) (w : world) :
  well_stored (new_row body w).
Proof. unfold well_stored. now eexists _, _, _, _, _. Qed.

(** Every row of a reachable table was written by a registration. *)
Lemma store_invariant (w : world) :
  reachable w -> Forall well_stored (rows (db w)).
Proof.
  assert (R : forall w body, Forall well_stored (rows (db w)) ->
                             Forall well_stored (rows (db (snd (register body w))))).
  { intros w' body H. destruct (register_rows body w') as [-> | ->]; [assumption|].
    apply Forall_app. split; [assumption|].
    constructor; [apply new_row_well_stored|constructor]. }
  induction 1 as [e | w _ IH | w body _ IH | w body _ IH].
  - constructor.
  - rewrite seedDatabase_run. destruct (getIdentityByHash _ _); auto.
  - auto.
  - now rewrite verify_db.
Qed.

Lemma well_stored_parse (row : Identity) :
  well_stored row ->
  exists name years expiry code e,
    JSON_parse (encryptedData row)
    = Some (JObj (bundle_of name years expiry code e)).
Proof.
  intros (n & y & x & c & e & E). exists n, y, x, c, e.
  rewrite E. apply JSON_parse_stringify.
Qed.

Lemma found_well_stored (w : world) (hash : string) (row : Identity) :
  reachable w -> getIdentityByHash hash (db w) = Some row -> well_stored row.
Proof.
  intros R F. apply store_invariant in R. rewrite Forall_forall in R.
  apply R. unfold getIdentityByHash in F. now apply find_some in F.
Qed.

(** The seeded table holds the demo identity: by evaluation. *)
Ltac seeded_is_registered :=
  exists (new_row seed_body (start demo_entropy)), demo_entropy;
  split; vm_compute; reflexivity.

Lemma seeded_registered :
  registered seeded demo_hash "Amjad Masad" 35 "2030-01-01" "1234".
Proof. seeded_is_registered. Qed.

(** ** Round trip (C4) *)

(** C4. For every string and every integer [v], [decrypt(encrypt(v))] is
    [v] itself, with its type: a string comes back as that string, a number
    as that number, whatever the random source delivers. *)
Theorem C4_decrypt_encrypt_roundtrip :
  (forall (s : string) (e : entropy),
      exists ct e', encrypt (JStr s) e = (Ok ct, e')
                    /\ decrypt ct = Ok (VJson (JStr s)))
  /\ (forall (n : Z) (e : entropy),
         exists ct e', encrypt (JNum n) e = (Ok ct, e')
                       /\ decrypt ct = Ok (VJson (JNum n))).
Proof.
  split; intros v e; eexists _, _;
    (split; [apply encrypt_run | apply decrypt_ciphertext_of]).
Qed.

(** ** Noise (C10) *)

(** C10. [decrypt] reads the [type] and the [data] of a ciphertext and
    nothing else: two texts that parse to values with the same [type] and
    the same [data] decrypt alike, whatever their [noise]. *)
Theorem C10_decrypt_ignores_noise (t1 t2 : string) (j1 j2 : json) :
  JSON_parse t1 = Some j1 -> JSON_parse t2 = Some j2 ->
  get j1 "type" = get j2 "type" -> get j1 "data" = get j2 "data" ->
  decrypt t1 = decrypt t2.
Proof.
  intros P1 P2 T D. rewrite !decrypt_text. unfold JSON_parse_or_throw.
  rewrite P1, P2. cbn [bind]. now rewrite T, D.
Qed.

Lemma C10_witness :
  decrypt (JSON_stringify (Ciphertext demo_data "00"))
  = decrypt (JSON_stringify
               (JObj [("noise", JNum 7); ("type", JStr scheme_tag);
                      ("data", JStr demo_data)]))
  /\ decrypt (JSON_stringify (Ciphertext demo_data "00"))
     = Ok (VJson (JStr "Amjad Masad")).
Proof.
  split.
  - apply (C10_decrypt_ignores_noise _ _ (Ciphertext demo_data "00")
             (JObj [("noise", JNum 7); ("type", JStr scheme_tag);
                    ("data", JStr demo_data)]));
      vm_compute; reflexivity.
  - vm_compute; reflexivity.
Defined.

(** ** Probabilistic encryption (C8) *)

Lemma base64_encode_inj (a b : string) :
  Base64.encode a = Base64.encode b -> a = b.
Proof.
  intro H. rewrite <- (base64_decode_encode a), <- (base64_decode_encode b).
  now rewrite H.
Qed.

Lemma JSON_stringify_inj (a b : json) :
  JSON_stringify a = JSON_stringify b -> a = b.
Proof.
  intro H. pose proof (JSON_parse_stringify a) as Pa.
  rewrite H, JSON_parse_stringify in Pa. congruence.
Qed.

Lemma noise_draw (e : entropy) :
  map (fun i => e (8 + i)) (seq 0 16) = map e (seq 8 16).
Proof. now rewrite <- (seq_shift 16 7), !map_map. Qed.

Lemma encrypt_differs (value : json) (e1 e2 : entropy) :
  map e1 (seq 0 8) <> map e2 (seq 0 8) ->
  map e1 (seq 8 16) <> map e2 (seq 8 16) ->
  data_of value e1 <> data_of value e2 /\ noise_of e1 <> noise_of e2.
Proof.
  intros Hr Hn. split.
  - intro E. apply base64_encode_inj, JSON_stringify_inj in E.
    assert (N : nonce e1 = nonce e2) by congruence.
    now apply hex_encode_inj in N.
  - unfold noise_of. rewrite !noise_draw. intro E.
    now apply hex_encode_inj in E.
Qed.

(** The random source after [k] calls of [encrypt]: each call draws 24
    bytes. *)
Lemma entropy_after_at (k : nat) (e : entropy) (i : nat) :
  entropy_after k e i = e (24 * k + i).
Proof.
  revert i. induction k as [|k IH]; intro i; [reflexivity|].
  change (entropy_after (S k) e i) with (after_encrypt (entropy_after k e) i).
  unfold after_encrypt. rewrite IH. f_equal. lia.
Qed.

Lemma draws_after (k : nat) (e : entropy) (n : nat) :
  forall a, map (entropy_after k e) (seq a n) = map e (seq (24 * k + a) n).
Proof.
  induction n as [|n IH]; intro a; [reflexivity|].
  cbn [seq map]. rewrite entropy_after_at, IH.
  now replace (24 * k + S a) with (S (24 * k + a)) by lia.
Qed.

(** C8. Two calls of [encrypt] on the same value, the second after the
    first and after [m] other calls of [encrypt] (which is all that draws
    from the random source of the server): the second runs on the random
    source as the calls before it left it.  When the eight bytes the two
    calls draw for the nonce differ, and the sixteen they draw for the
    noise, the two envelopes have different [data] and different
    [noise]. *)
Theorem C8_encrypt_twice_differs (value : json) (e : entropy) (m : nat) :
  map e (seq 0 8) <> map e (seq (24 * S m) 8) ->
  map e (seq 8 16) <> map e (seq (24 * S m + 8) 16) ->
  exists d1 n1 e1 d2 n2 e2,
    encrypt value e = (Ok (JSON_stringify (Ciphertext d1 n1)), e1)
    /\ encrypt value (entropy_after m e1)
       = (Ok (JSON_stringify (Ciphertext d2 n2)), e2)
    /\ d1 <> d2 /\ n1 <> n2.
Proof.
  intros Hr Hn.
  exists (data_of value e), (noise_of e), (after_encrypt e),
    (data_of value (entropy_after (S m) e)), (noise_of (entropy_after (S m) e)),
    (after_encrypt (entropy_after (S m) e)).
  rewrite entropy_after_succ, !encrypt_run.
  split; [reflexivity|]. split; [reflexivity|].
  apply encrypt_differs; rewrite draws_after; [|exact Hn].
  now rewrite Nat.add_0_r.
Qed.

Lemma C8_witness :
  exists d1 n1 e1 d2 n2 e2,
    encrypt (JNum 35) demo_entropy = (Ok (JSON_stringify (Ciphertext d1 n1)), e1)
    /\ encrypt (JNum 35) (entropy_after 0 e1)
       = (Ok (JSON_stringify (Ciphertext d2 n2)), e2)
    /\ d1 <> d2 /\ n1 <> n2.
Proof.
  apply (C8_encrypt_twice_differs (JNum 35) demo_entropy 0);
    vm_compute; discriminate.
Defined.

(** ** The shape of a digest *)

Lemma hex_digit_lower (n : nat) : n < 16 -> is_lower_hex (Hex.digit n) = true.
Proof.
  intro H.
  now apply (below_forallb (fun i => is_lower_hex (Hex.digit i)) 16 eq_refl).
Qed.

Lemma hex_encode_lower (bytes : list ascii) :
  lower_hex (Hex.encode bytes) = true.
Proof.
  induction bytes as [|b bytes IH]; [reflexivity|].
  unfold lower_hex in *. cbn [Hex.encode list_ascii_of_string forallb].
  pose proof (code_lt_256 b) as L.
  rewrite IH, !hex_digit_lower; [reflexivity| |].
  - apply Nat.mod_upper_bound. lia.
  - apply Nat.Div0.div_lt_upper_bound. lia.
Qed.

Lemma hex_encode_length (bytes : list ascii) :
  String.length (Hex.encode bytes) = 2 * List.length bytes.
Proof.
  induction bytes as [|b bytes IH]; [reflexivity|].
  cbn [Hex.encode String.length List.length]. lia.
Qed.

Lemma lower_hex_zero_free (s : string) :
  lower_hex s = true -> has_zero_byte s = false.
Proof.
  unfold lower_hex, has_zero_byte.
  induction (list_ascii_of_string s) as [|c l IH]; [reflexivity|].
  cbn [forallb existsb]. intro H. apply andb_prop in H as [Hc Hl].
  rewrite (IH Hl), orb_false_r. apply Nat.eqb_neq. intro Z.
  unfold is_lower_hex, is_digit, in_range in Hc. rewrite Z in Hc.
  discriminate Hc.
Qed.

Lemma round_length (s : list N) (kw : N * N) :
  List.length s = 8 -> List.length (SHA256.round s kw) = 8.
Proof.
  destruct s as [|a [|b [|c [|d [|e [|f [|g [|h [|i s]]]]]]]]];
    try discriminate; reflexivity.
Qed.

Lemma compress_length (h block : list N) :
  List.length h = 8 -> List.length (SHA256.compress h block) = 8.
Proof.
  intro H. unfold SHA256.compress. cbv zeta.
  rewrite length_map, length_combine.
  assert (F : forall l s, List.length s = 8 ->
                          List.length (fold_left SHA256.round l s) = 8).
  { induction l as [|kw l IH]; intros s Hs; [exact Hs|].
    cbn [fold_left]. apply IH, round_length, Hs. }
  rewrite (F _ _ H). lia.
Qed.

Lemma blocks_length (fuel : nat) :
  forall ws h : list N,
    List.length h = 8 -> List.length (SHA256.blocks fuel ws h) = 8.
Proof.
  induction fuel as [|fuel IH]; intros ws h H; [exact H|].
  destruct ws as [|x ws]; [exact H|].
  cbn [SHA256.blocks]. apply IH, compress_length, H.
Qed.

(** A digest has 32 bytes; in hexadecimal it is a text of 64 digits, none
    of them an upper-case letter. *)
Lemma digest_length (msg : string) : List.length (SHA256.digest msg) = 32.
Proof.
  unfold SHA256.digest. cbv zeta. rewrite length_map.
  assert (C : forall l, List.length (concat (map (SHA256.big_endian 4) l))
                        = 4 * List.length l).
  { induction l as [|x l IH]; [reflexivity|].
    cbn [map concat]. rewrite length_app, IH.
    unfold SHA256.big_endian. rewrite length_map, length_seq.
    cbn [List.length]. lia. }
  rewrite C, blocks_length; reflexivity.
Qed.

Lemma digest_shape (msg : string) :
  String.length (SHA256.hex msg) = 64 /\ lower_hex (SHA256.hex msg) = true.
Proof.
  unfold SHA256.hex. split; [|apply hex_encode_lower].
  now rewrite hex_encode_length, digest_length.
Qed.

Lemma digest_zero_free (msg : string) : has_zero_byte (SHA256.hex msg) = false.
Proof. apply lower_hex_zero_free, digest_shape. Qed.

(** ** Registration (C9, C7) *)

Lemma register_created (body : RegisterIdentityRequest) (w : world) (id' : Z) :
  fst (register body w) = Created "Identity Issued" id' ->
  registerIdentitySchema_issues body = []
  /\ existsb (has_hash (SHA256.hex (passportId body))) (rows (db w)) = false
  /\ id' = next_id (db w)
  /\ rows (db (snd (register body w))) = rows (db w) ++ [new_row body w].
Proof.
  rewrite register_run.
  destruct (registerIdentitySchema_issues body); [|discriminate].
  destruct (existsb _ _); [discriminate|].
  cbn [fst snd db rows]. intro H. injection H as <-. auto.
Qed.







Lemma check_nil (ok : bool) (path message : string) :
  check ok path message = [] <-> ok = true.
Proof. destruct ok; cbn; split; congruence. Qed.

Lemma app_nil_iff {A : Type} (l1 l2 : list A) :
  l1 ++ l2 = [] <-> l1 = [] /\ l2 = [].
Proof.
  split; [apply app_eq_nil|]. now intros [-> ->].
Qed.

Lemma no_issues_valid (body : RegisterIdentityRequest) :
  registerIdentitySchema_issues body = [] <-> valid body.
Proof.
  unfold registerIdentitySchema_issues, valid.
  rewrite !app_nil_iff, !check_nil, !Nat.leb_le, Z.leb_le. reflexivity.
Qed.

(** The pattern of the expiry date, spelled out. *)
Lemma matches_date_spec (s : string) :
  matches_date s = true <->
  exists y1 y2 y3 y4 m1 m2 d1 d2,
    s = string_of_list_ascii
          [y1; y2; y3; y4; "-"%char; m1; m2; "-"%char; d1; d2]
    /\ forallb is_digit [y1; y2; y3; y4; m1; m2; d1; d2] = true.
Proof.
  unfold matches_date. split.
  - intro H. rewrite <- (string_of_list_ascii_of_string s).
    destruct (list_ascii_of_string s)
      as [|y1 [|y2 [|y3 [|y4 [|h1 [|m1 [|m2 [|h2 [|d1 [|d2 [|]]]]]]]]]]];
      try discriminate.
    rewrite !andb_true_iff in H.
    destruct H as (((((((((Y1 & Y2) & Y3) & Y4) & H1) & M1) & M2) & H2) & D1) & D2).
    apply Ascii.eqb_eq in H1, H2. subst.
    exists y1, y2, y3, y4, m1, m2, d1, d2. split; [reflexivity|].
    cbn [forallb]. now rewrite Y1, Y2, Y3, Y4, M1, M2, D1, D2.
  - intros (y1 & y2 & y3 & y4 & m1 & m2 & d1 & d2 & -> & H).
    rewrite list_ascii_of_string_of_list_ascii.
    cbn [forallb] in H. rewrite !andb_true_iff in H.
    destruct H as (Y1 & Y2 & Y3 & Y4 & M1 & M2 & D1 & D2 & _).
    now rewrite Y1, Y2, Y3, Y4, M1, M2, D1, D2.
Qed.




(** ** Verification *)

(** The outcomes of the entries, when none throws. *)
Lemma sequence_map_ok {A B : Type} (f : A -> result B) (l : list A)
  (bs : list B) :
  sequence (map f l) = Ok bs <-> Forall2 (fun a b => f a = Ok b) l bs.
Proof.
  revert bs. induction l as [|a l IH]; intros bs; cbn [map sequence].
  - split; [intro H; injection H as <-; constructor|].
    intro H. now inversion H.
  - destruct (f a) as [b|x] eqn:F; cbn [bind].
    + destruct (sequence (map f l)) as [bs'|x] eqn:S; cbn [bind].
      * split.
        -- intro H. injection H as <-. constructor; [assumption|now apply IH].
        -- intro H. inversion H as [|? b' ? bs'' Fb Hl]; subst.
           apply IH in Hl. congruence.
      * split; [discriminate|].
        intro H. inversion H as [|? b' ? bs'' Fb Hl]; subst.
        apply IH in Hl. discriminate.
    + split; [discriminate|]. intro H. inversion H; congruence.
Qed.

Lemma sequence_map_all_ok {A B : Type} (f : A -> result B) (l : list A) :
  Forall (fun a => exists b, f a = Ok b) l ->
  exists bs, sequence (map f l) = Ok bs.
Proof.
  induction 1 as [|a l [b F] _ [bs IH]]; [now exists []|].
  exists (b :: bs). cbn [map sequence]. now rewrite F, IH.
Qed.

Lemma Forall2_in_l_exists {A B : Type} (R : A -> B -> Prop) (l : list A)
  (bs : list B) (a : A) :
  Forall2 R l bs -> In a l -> exists b, In b bs /\ R a b.
Proof.
  induction 1 as [|a' b' l bs' Hab _ IH]; intros Hin; [contradiction|].
  destruct Hin as [->|Hin].
  - exists b'. split; [now left|assumption].
  - destruct (IH Hin) as (b & Hb & Rb). exists b. split; [now right|assumption].
Qed.

(** One entry that throws makes the whole loop throw. *)
Lemma sequence_map_throw {A B : Type} (f : A -> result B) (l : list A)
  (a : A) (x : exn) :
  In a l -> f a = Throw x -> exists y, sequence (map f l) = Throw y.
Proof.
  intros Hin F.
  destruct (sequence (map f l)) as [bs|y] eqn:S; [|now exists y].
  apply sequence_map_ok in S.
  destruct (Forall2_in_l_exists _ _ _ a S Hin) as (b & _ & Fb). congruence.
Qed.


(** No attribute has the name that [record_parse] leaves out. *)
Lemma attribute_own (name : string) (years : Z) (expiry code key : string)
  (v : json) :
  attribute name years expiry code key = Some v -> key <> "__proto__".
Proof. intros A ->. vm_compute in A. discriminate A. Qed.

(** [verify] on a record written by a registration. *)
Lemma verify_registered (body : VerifyIdentityRequest) (w : world)
  (name : string) (years : Z) (expiry code : string) :
  has_zero_byte (query_passportHash body) = false ->
  registered w (query_passportHash body) name years expiry code ->
  exists e,
    fst (verify body w) =
    match sequence (map (field_outcome (JObj (bundle_of name years expiry code e)))
                      (record_parse (encryptedQuery body))) with
    | Ok bits =>
        Success
          (ciphertext_of (JNum (if all_match bits then 1 else 0))
             (entropy_after
                (comparisons (JObj (bundle_of name years expiry code e))
                   (record_parse (encryptedQuery body))) (rng w)))
    | Throw x => BadRequest x
    end.
Proof.
  intros Z (row & e & F & E). exists e.
  rewrite (verify_run body w row (JObj (bundle_of name years expiry code e)) Z F)
    by (rewrite E; apply JSON_parse_stringify).
  cbv zeta. now destruct (sequence _).
Qed.

(** *** The empty query (C1) *)

(** The claim C1 as it stands fails on the seeded table: the empty query
    is answered 200 with a ciphertext, and the ciphertext decrypts to 1. *)
Lemma C1_counterexample :
  fst (verify {| query_passportHash := demo_hash; encryptedQuery := [] |} seeded)
  = Success (ciphertext_of (JNum 1) (rng seeded))
  /\ decrypt (ciphertext_of (JNum 1) (rng seeded)) = Ok (num 1).
Proof. split; vm_compute; reflexivity. Qed.

(** C1 (amended). A verification request with an empty query is never
    refused for being empty.  When a record is stored under the hash it is
    answered 200 with a ciphertext that decrypts to 1, the match bit with
    which the loop starts.  When none is stored it is answered 404
    (identity not found).  The one refusal is that of the lookup, which
    comes before the query is looked at: a hash that holds the character
    U+0000 is refused by the database, and the request is answered 400
    with the error of the database. *)
Theorem C1_empty_query_succeeds_with_one (w : world) (hash : string) :
  reachable w ->
  if has_zero_byte hash then
    fst (verify {| query_passportHash := hash; encryptedQuery := [] |} w)
    = BadRequest InvalidByteSequence
  else
    match getIdentityByHash hash (db w) with
    | Some _ =>
        exists ct,
          fst (verify {| query_passportHash := hash; encryptedQuery := [] |} w)
          = Success ct
          /\ decrypt ct = Ok (num 1)
    | None =>
        fst (verify {| query_passportHash := hash; encryptedQuery := [] |} w)
        = NotFound "Identity not found"
    end.
Proof.
  intro R.
  destruct (has_zero_byte hash) eqn:Z; [now rewrite verify_zero_byte|].
  destruct (getIdentityByHash hash (db w)) as [row|] eqn:F;
    [|now rewrite verify_not_found].
  destruct (well_stored_parse row (found_well_stored w hash row R F))
    as (n & y & x & c & e & P).
  rewrite (verify_run {| query_passportHash := hash; encryptedQuery := [] |}
             w row _ Z F P).
  cbn [encryptedQuery record_parse filter map sequence fst].
  eexists. split; [reflexivity|apply decrypt_ciphertext_of].
Qed.

Lemma C1_witness :
  exists ct,
    fst (verify {| query_passportHash := demo_hash; encryptedQuery := [] |} seeded)
    = Success ct
    /\ decrypt ct = Ok (num 1).
Proof.
  apply (C1_empty_query_succeeds_with_one seeded demo_hash).
  apply reach_seed, reach_start.
Defined.

(** *** A queried field that is not stored (C5) *)




(** C5 (the code at the failing input). The seeded record stores no
    attribute named constructor, and the query holds a well-formed
    ciphertext for it.  The handler does not count the field as a
    mismatch: [storedData[key]] is the member that every object inherits,
    the comparison tries to decrypt it, and the request is answered 400
    with Decryption Failed. *)
Theorem C5_inherited_name_is_refused :
  registered seeded demo_hash "Amjad Masad" 35 "2030-01-01" "1234"
  /\ attribute "Amjad Masad" 35 "2030-01-01" "1234" "constructor" = None
  /\ decrypt (ciphertext_of (JNum 1) demo_entropy) = Ok (num 1)
  /\ fst (verify
            {| query_passportHash := demo_hash;
               encryptedQuery :=
                 [("constructor", ciphertext_of (JNum 1) demo_entropy)] |}
            seeded)
     = BadRequest (Error "Decryption Failed").
Proof.
  split; [seeded_is_registered|].
  split; [reflexivity|]. split; vm_compute; reflexivity.
Qed.



(** ** When [decrypt] fails (C6) *)





(** ** The equality gate (C3, C2) *)

(** C3 (the code at the failing input). The string 35 and the number 35
    are different plaintexts, and [homomorphicEquality] on their
    ciphertexts returns a ciphertext that decrypts to 1: the comparison is
    the loose [==], which turns the string into a number. *)
Theorem C3_string_35_matches_number_35 (e1 e2 e3 : entropy) :
  JStr "35" <> JNum 35
  /\ exists ct,
      fst (homomorphicEquality (ciphertext_of (JStr "35") e1)
             (ciphertext_of (JNum 35) e2) e3)
      = Ok ct
      /\ decrypt ct = Ok (num 1).
Proof.
  split; [discriminate|].
  rewrite (homomorphicEquality_run _ _ (str "35") (num 35) true)
    by (apply decrypt_ciphertext_of || reflexivity).
  eexists. split; [reflexivity|apply decrypt_ciphertext_of].
Qed.

(** C2 (the code at the failing input). The seeded record stores the age
    35; a query whose age is the text 035 is answered with a ciphertext
    that decrypts to 1, although the query plaintext is not the stored
    one. *)
Theorem C2_age_035_matches_stored_35 :
  registered seeded demo_hash "Amjad Masad" 35 "2030-01-01" "1234"
  /\ decrypt (ciphertext_of (JStr "035") demo_entropy) = Ok (str "035")
  /\ exists ct,
      fst (verify {| query_passportHash := demo_hash;
                     encryptedQuery :=
                       [("age", ciphertext_of (JStr "035") demo_entropy)] |}
             seeded)
      = Success ct
      /\ decrypt ct = Ok (num 1).
Proof.
  split; [exact seeded_registered|]. split; [apply decrypt_ciphertext_of|].
  eexists. split; [vm_compute; reflexivity|]. vm_compute. reflexivity.
Qed.

(** ** The gate and the loop on plaintexts of one type *)

Lemma loose_eq_same_type (p v : json) :
  same_type p v = true ->
  exists eq, loose_eq (VJson p) (VJson v) = Ok eq /\ (eq = true <-> p = v).
Proof.
  destruct p as [| ? | x | x | ? | ?], v as [| ? | y | y | ? | ?];
    try discriminate; intros _.
  - exists (x =? y)%Z. split; [reflexivity|].
    rewrite Z.eqb_eq. split; congruence.
  - exists (x =? y)%string. split; [reflexivity|].
    rewrite String.eqb_eq. split; congruence.
Qed.

(** On two strings, and on two integers, the gate is exact: the result
    decrypts to 1 when the two plaintexts are equal and to 0 when they are
    not. *)
Theorem homomorphicEquality_same_type (a b : json) (e1 e2 e3 : entropy) :
  same_type a b = true ->
  exists ct bit,
    fst (homomorphicEquality (ciphertext_of a e1) (ciphertext_of b e2) e3) = Ok ct
    /\ decrypt ct = Ok (num (if bit : bool then 1 else 0))
    /\ (bit = true <-> a = b).
Proof.
  intro T. destruct (loose_eq_same_type a b T) as (eq & L & E).
  rewrite (homomorphicEquality_run _ _ (VJson a) (VJson b) eq)
    by (apply decrypt_ciphertext_of || assumption).
  eexists _, eq. split; [reflexivity|]. split; [apply decrypt_ciphertext_of|exact E].
Qed.

Lemma homomorphicEquality_same_type_witness :
  exists ct bit,
    fst (homomorphicEquality (ciphertext_of (JNum 36) demo_entropy)
           (ciphertext_of (JNum 35) demo_entropy) demo_entropy) = Ok ct
    /\ decrypt ct = Ok (num (if bit : bool then 1 else 0))
    /\ (bit = true <-> JNum 36 = JNum 35).
Proof.
  apply (homomorphicEquality_same_type (JNum 36) (JNum 35)). reflexivity.
Defined.

Lemma typed_entry_outcome (name : string) (years : Z) (expiry code : string)
  (e : entropy) (entry : string * string) :
  typed_entry name years expiry code entry ->
  exists bit,
    field_outcome (JObj (bundle_of name years expiry code e)) entry = Ok bit
    /\ (bit = true <-> matching_entry name years expiry code entry).
Proof.
  destruct entry as [key q]. intros (p & v & A & D & T). cbn [fst snd] in *.
  destruct (loose_eq_same_type p v T) as (eq & L & E).
  exists eq. rewrite (field_outcome_present _ _ _ _ _ _ _ _ A), D. cbn [bind].
  split; [exact L|]. rewrite E. unfold matching_entry. cbn [fst snd]. split.
  - intros ->. now exists v.
  - intros (v' & A' & D'). congruence.
Qed.

Lemma typed_entries_outcomes (name : string) (years : Z) (expiry code : string)
  (e : entropy) (query : list (string * string)) :
  Forall (typed_entry name years expiry code) query ->
  exists bits,
    sequence (map (field_outcome (JObj (bundle_of name years expiry code e))) query)
    = Ok bits
    /\ (all_match bits = true
        <-> Forall (matching_entry name years expiry code) query).
Proof.
  induction 1 as [|entry query T _ (bits & S & IH)].
  - exists []. split; [reflexivity|]. split; [constructor|reflexivity].
  - destruct (typed_entry_outcome name years expiry code e entry T)
      as (bit & F & B).
    exists (bit :: bits). cbn [map sequence]. rewrite F, S. cbn [bind].
    split; [reflexivity|].
    unfold all_match in *. cbn [forallb]. rewrite andb_true_iff, B, IH.
    split.
    + intros [? ?]. now constructor.
    + intro H. inversion H. now split.
Qed.

(** A query over stored fields keeps all its entries. *)
Lemma typed_query_kept (name : string) (years : Z) (expiry code : string)
  (query : list (string * string)) :
  Forall (typed_entry name years expiry code) query ->
  record_parse query = query.
Proof.
  intro T. apply record_parse_keeps. eapply Forall_impl; [|exact T].
  intros entry (p & v & A & _). exact (attribute_own _ _ _ _ _ _ A).
Qed.



(** The two scenarios of the specification, on the seeded record: the
    four stored attributes give 1, and the age 36 in place of 35 gives 0. *)
Theorem verify_scenarios :
  (exists ct,
      fst (verify {| query_passportHash := demo_hash;
                     encryptedQuery := scenario_query 35 |} seeded)
      = Success ct
      /\ decrypt ct = Ok (num 1))
  /\ (exists ct,
         fst (verify {| query_passportHash := demo_hash;
                        encryptedQuery := scenario_query 36 |} seeded)
         = Success ct
         /\ decrypt ct = Ok (num 0)).
Proof.
  split; eexists; (split; [vm_compute; reflexivity|]); vm_compute; reflexivity.
Qed.

(** ** Uniqueness *)

Lemma existsb_app_last {A : Type} (f : A -> bool) (l : list A) (a : A) :
  f a = true -> existsb f (l ++ [a]) = true.
Proof. intro H. rewrite existsb_app. cbn. now rewrite H, orb_true_r. Qed.

(** A passport that was registered cannot be registered again: the second
    request, valid as it may be, is answered with the uniqueness violation
    of the table, and the table keeps its rows. *)
Theorem second_registration_refused
  (body body' : RegisterIdentityRequest) (w : world) (id' : Z) :
  fst (register body w) = Created "Identity Issued" id' ->
  passportId body' = passportId body ->
  valid body' ->
  fst (register body' (snd (register body w)))
  = BadRequest (UniqueViolation "identities_passport_hash_unique")
  /\ rows (db (snd (register body' (snd (register body w)))))
     = rows (db (snd (register body w))).
Proof.
  intros H P V. apply register_created in H. destruct H as (_ & _ & _ & R).
  apply no_issues_valid in V.
  rewrite (register_run body'), V, R, P.
  rewrite existsb_app_last; [split; reflexivity|].
  unfold has_hash, new_row. cbn [passportHash]. apply String.eqb_refl.
Qed.

Lemma second_registration_refused_witness :
  fst (register newcomer (snd (register newcomer seeded)))
  = BadRequest (UniqueViolation "identities_passport_hash_unique")
  /\ rows (db (snd (register newcomer (snd (register newcomer seeded)))))
     = rows (db (snd (register newcomer seeded))).
Proof.
  apply (second_registration_refused newcomer newcomer seeded 2).
  - vm_compute. reflexivity.
  - reflexivity.
  - repeat split; vm_compute; first [reflexivity | lia | discriminate].
Defined.

(** ** Verification does not write *)

(** A verification request, whatever its answer, leaves the table as it
    is.  A hash that holds the character U+0000 is refused by the
    database and answered 400; any other hash that is not stored is
    answered 404.  Neither answer draws from the random source. *)
Theorem verify_reads_only (body : VerifyIdentityRequest) (w : world) :
  db (snd (verify body w)) = db w
  /\ (has_zero_byte (query_passportHash body) = true ->
      verify body w = (BadRequest InvalidByteSequence, w))
  /\ (has_zero_byte (query_passportHash body) = false ->
      getIdentityByHash (query_passportHash body) (db w) = None ->
      verify body w = (NotFound "Identity not found", w)).
Proof.
  split; [apply verify_db|]. split; [apply verify_zero_byte|apply verify_not_found].
Qed.

(** ** Every record is a registration *)

(** In every state the server reaches, the record found under a hash
    holds the bundle of four attributes that a registration (or the seed)
    wrote. *)
Theorem found_record_is_registered (w : world) (hash : string) (row : Identity) :
  reachable w ->
  getIdentityByHash hash (db w) = Some row ->
  exists name years expiry code, registered w hash name years expiry code.
Proof.
  intros R F.
  destruct (found_well_stored w hash row R F) as (n & y & x & c & e & E).
  exists n, y, x, c, row, e. now split.
Qed.

Lemma found_record_is_registered_witness :
  exists name years expiry code, registered seeded demo_hash name years expiry code.
Proof.
  apply (found_record_is_registered seeded demo_hash
           (new_row seed_body (start demo_entropy))).
  - apply reach_seed, reach_start.
  - vm_compute. reflexivity.
Defined.

(** ** Names that every object inherits *)

(** A query that names a member of [Object.prototype] (constructor,
    toString, ...) on a stored record: [storedData[key]] is the inherited
    member, which is no ciphertext, and the request is answered 400.  The
    name [__proto__] is the exception: the schema leaves such an entry
    out, and the request is answered as without it. *)
Theorem verify_inherited_name_fails (w : world) (hash : string)
  (name : string) (years : Z) (expiry code : string)
  (query : list (string * string)) (key q : string) :
  registered w hash name years expiry code ->
  has_zero_byte hash = false ->
  In (key, q) query ->
  inherited key = true ->
  key <> "__proto__" ->
  (exists x,
      fst (verify {| query_passportHash := hash; encryptedQuery := query |} w)
      = BadRequest x)
  /\ verify {| query_passportHash := hash;
               encryptedQuery := ("__proto__", q) :: query |} w
     = verify {| query_passportHash := hash; encryptedQuery := query |} w.
Proof.
  intros R Z Hin I P. split; [|reflexivity].
  destruct (verify_registered
              {| query_passportHash := hash; encryptedQuery := query |}
              w name years expiry code Z R) as (e & V).
  cbn [encryptedQuery] in V.
  destruct (sequence_map_throw
              (field_outcome (JObj (bundle_of name years expiry code e)))
              (record_parse query) (key, q) failed) as (y & S).
  { apply record_parse_In. now split. }
  { apply field_outcome_inherited; [|assumption].
    apply inherited_names in I. cbn in I.
    repeat (destruct I as [<-|I]; [reflexivity|]). contradiction. }
  exists y. now rewrite V, S.
Qed.

Lemma verify_inherited_name_fails_witness :
  (exists x,
      fst (verify {| query_passportHash := demo_hash;
                     encryptedQuery :=
                       [("constructor", ciphertext_of (JNum 1) demo_entropy)] |}
             seeded)
      = BadRequest x)
  /\ verify {| query_passportHash := demo_hash;
               encryptedQuery :=
                 [("__proto__", ciphertext_of (JNum 1) demo_entropy);
                  ("constructor", ciphertext_of (JNum 1) demo_entropy)] |}
        seeded
     = verify {| query_passportHash := demo_hash;
                 encryptedQuery :=
                   [("constructor", ciphertext_of (JNum 1) demo_entropy)] |}
         seeded.
Proof.
  apply (verify_inherited_name_fails seeded demo_hash
           "Amjad Masad" 35%Z "2030-01-01" "1234" _ "constructor"
           (ciphertext_of (JNum 1) demo_entropy)).
  - seeded_is_registered.
  - reflexivity.
  - left. reflexivity.
  - reflexivity.
  - discriminate.
Defined.

(** ** An operand that is no ciphertext *)



(** ** Searching a text *)

Lemma strip_prefix_append (p s : string) :
  strip_prefix p (p ++ s)%string = Some s.
Proof.
  induction p as [|c p IH]; cbn; [reflexivity|].
  now rewrite Ascii.eqb_refl.
Qed.

Lemma first_occurrence_here (needle after : string) :
  first_occurrence needle (needle ++ after)%string = Some ("", after).
Proof.
  destruct needle as [|c needle]; destruct after as [|d after]; cbn;
    try reflexivity;
    rewrite ?Ascii.eqb_refl, ?strip_prefix_append; reflexivity.
Qed.

Lemma free_of_cons (c d : ascii) (s : string) :
  free_of c (String d s) = negb (d =? c)%char && free_of c s.
Proof. reflexivity. Qed.

Lemma free_of_append (c : ascii) (s t : string) :
  free_of c (s ++ t)%string = free_of c s && free_of c t.
Proof.
  induction s as [|d s IH]; [reflexivity|].
  cbn [append]. rewrite !free_of_cons, IH. apply andb_assoc.
Qed.

Lemma placeholder_absent (key s : string) :
  free_of ":" s = true -> first_occurrence (String ":" key) s = None.
Proof.
  induction s as [|c s IH]; intro H; [reflexivity|].
  rewrite free_of_cons in H. apply andb_prop in H as [Hc Hs].
  apply negb_true_iff in Hc.
  cbn [first_occurrence strip_prefix].
  rewrite Ascii.eqb_sym, Hc, (IH Hs). reflexivity.
Qed.

Lemma placeholder_found (key before after : string) :
  free_of ":" before = true ->
  first_occurrence (String ":" key) (before ++ String ":" key ++ after)%string
  = Some (before, after).
Proof.
  induction before as [|c before IH]; intro H.
  - apply (first_occurrence_here (String ":" key)).
  - rewrite free_of_cons in H. apply andb_prop in H as [Hc Hs].
    apply negb_true_iff in Hc.
    cbn [append first_occurrence strip_prefix].
    rewrite Ascii.eqb_sym, Hc.
    change (String ":" (key ++ after))%string
      with (String ":" key ++ after)%string.
    rewrite (IH Hs). reflexivity.
Qed.

Lemma GetSubstitution_literal (matched before after template : string) :
  free_of "$" template = true ->
  GetSubstitution matched before after template = template.
Proof.
  induction template as [|c t IH]; intro H; [reflexivity|].
  rewrite free_of_cons in H. apply andb_prop in H as [Hc Ht].
  apply negb_true_iff in Hc.
  cbn [GetSubstitution]. rewrite Hc, (IH Ht). reflexivity.
Qed.

(** One step of the loop of [buildUrl], on a text whose first colon
    opens the placeholder of the entry. *)
Lemma replace_placeholder (key before after replacement : string) :
  free_of ":" before = true ->
  String_includes (before ++ String ":" key ++ after) (String ":" key) = true
  /\ String_replace (before ++ String ":" key ++ after) (String ":" key)
       replacement
     = (before
        ++ GetSubstitution (String ":" key) before after replacement
        ++ after)%string.
Proof.
  intro H. unfold String_includes, String_replace.
  rewrite (placeholder_found key before after H). split; reflexivity.
Qed.

Lemma buildUrl_step (key : string) (value : param) (before after : string)
  (entries : list (string * param)) :
  free_of ":" before = true ->
  buildUrl (before ++ ":" ++ key ++ after) (Some ((key, value) :: entries))
  = buildUrl
      (before
        ++ GetSubstitution (String ":" key) before after (String_of value)
        ++ after)
      (Some entries).
Proof.
  intro H.
  change (":" ++ key ++ after)%string with (String ":" key ++ after)%string.
  destruct (replace_placeholder key before after (String_of value) H) as [I R].
  cbn [buildUrl fold_left fst snd].
  change (":" ++ key)%string with (String ":" key).
  rewrite I, R. reflexivity.
Qed.

(** ** [buildUrl] *)

(** A path that holds no colon, as the two paths of the API do, is
    returned as it is, whatever the parameters. *)
Theorem buildUrl_without_placeholder (path : string)
  (params : option (list (string * param))) :
  free_of ":" path = true -> buildUrl path params = path.
Proof.
  intro H. destruct params as [entries|]; [|reflexivity].
  cbn [buildUrl]. induction entries as [|[key value] entries IH];
    [reflexivity|].
  cbn [fold_left fst snd append].
  replace (String_includes path (String ":" key)) with false; [exact IH|].
  unfold String_includes. now rewrite (placeholder_absent key path H).
Qed.

Lemma buildUrl_without_placeholder_witness :
  buildUrl "/api/verify" (Some [("id", ParamNumber 7)]) = "/api/verify".
Proof.
  apply (buildUrl_without_placeholder "/api/verify"). reflexivity.
Defined.

(** One parameter, on a path whose first colon opens its placeholder: the
    value, a text or an integer of at most 2^53 in absolute value, when it
    holds no dollar (no number does), is written over this first [:key],
    and nothing else moves.  What follows the placeholder is any text: a
    longer name that starts with the key loses its first letters, and a
    second [:key] stays. *)
Theorem buildUrl_first_placeholder (before key after : string) (value : param) :
  free_of ":" before = true ->
  exact_param value = true ->
  free_of "$" (String_of value) = true ->
  buildUrl (before ++ ":" ++ key ++ after) (Some [(key, value)])
  = (before ++ String_of value ++ after)%string.
Proof.
  intros Hb _ Hv.
  rewrite (buildUrl_step key value before after [] Hb).
  rewrite (GetSubstitution_literal _ _ _ _ Hv). reflexivity.
Qed.

Lemma buildUrl_first_placeholder_witness :
  buildUrl "/api/:idx/:id" (Some [("id", ParamNumber 42)])
  = "/api/42x/:id".
Proof.
  apply (buildUrl_first_placeholder "/api/" "id" "x/:id" (ParamNumber 42));
    reflexivity.
Defined.

(** A value is no literal text: it goes through the replacement patterns
    of [String.prototype.replace].  The value [$&] leaves the placeholder in
    the path, [$$] writes one dollar, [$`] writes the path up to the
    placeholder and [$'] the path after it. *)
Theorem buildUrl_expands_dollar_patterns (before key after : string) :
  free_of ":" before = true ->
  buildUrl (before ++ ":" ++ key ++ after) (Some [(key, ParamString "$&")])
  = (before ++ ":" ++ key ++ after)%string
  /\ buildUrl (before ++ ":" ++ key ++ after) (Some [(key, ParamString "$$")])
     = (before ++ "$" ++ after)%string
  /\ buildUrl (before ++ ":" ++ key ++ after) (Some [(key, ParamString "$`")])
     = (before ++ before ++ after)%string
  /\ buildUrl (before ++ ":" ++ key ++ after) (Some [(key, ParamString "$'")])
     = (before ++ after ++ after)%string.
Proof.
  intros Hb.
  rewrite !(buildUrl_step key _ before after [] Hb).
  cbn [String_of GetSubstitution Ascii.eqb Bool.eqb buildUrl fold_left].
  repeat split.
  - cbn [append]. now rewrite append_nil_r.
  - now rewrite append_nil_r.
  - now rewrite append_nil_r.
Qed.

Lemma buildUrl_expands_dollar_patterns_witness :
  buildUrl "/api/identities/:id" (Some [("id", ParamString "$&")])
  = "/api/identities/:id"
  /\ buildUrl "/api/identities/:id" (Some [("id", ParamString "$'")])
     = "/api/identities/".
Proof.
  destruct (buildUrl_expands_dollar_patterns "/api/identities/" "id" "")
    as (H1 & _ & _ & H4); [reflexivity|].
  split; [exact H1 | exact H4].
Defined.

Lemma route_step (head : string) (key : string) (value : param)
  (segment : string) (parts : list (string * param * string)) :
  free_of ":" head = true ->
  free_of "$" (String_of value) = true ->
  buildUrl (route head ((key, value, segment) :: parts))
    (Some (params_of ((key, value, segment) :: parts)))
  = buildUrl (route (head ++ String_of value ++ segment) parts)
      (Some (params_of parts)).
Proof.
  intros Hh Hv. unfold route. cbn [placeholders params_of map fst].
  rewrite (buildUrl_step key value head _ _ Hh).
  rewrite (GetSubstitution_literal _ _ _ _ Hv).
  now rewrite !append_assoc.
Qed.

(** A route whose segments hold no colon, with its parameters listed in
    the order of its placeholders and values (texts, or integers of at
    most 2^53 in absolute value) that hold no colon and no dollar: every
    placeholder is replaced by its value. *)
Theorem buildUrl_fills_route (parts : list (string * param * string)) :
  forall head : string,
    free_of ":" head = true ->
    forallb exact_param (values_of parts) = true ->
    forallb plain parts = true ->
    buildUrl (route head parts) (Some (params_of parts)) = filled head parts.
Proof.
  induction parts as [|[[key value] segment] parts IH]; intros head Hh He Hp.
  - reflexivity.
  - cbn [forallb] in Hp. apply andb_prop in Hp as [Hp Hrest].
    unfold plain in Hp. cbn [fst snd] in Hp.
    apply andb_prop in Hp as [Hp Hs]. apply andb_prop in Hp as [Hc Hd].
    cbn [values_of map forallb] in He. apply andb_prop in He as [_ He].
    rewrite (route_step head key value segment parts Hh Hd).
    rewrite IH; [|now rewrite !free_of_append, Hh, Hc, Hs|exact He|exact Hrest].
    unfold filled. cbn [values]. now rewrite !append_assoc.
Qed.

Lemma buildUrl_fills_route_witness :
  buildUrl "/api/:kind/:id/history"
    (Some [("kind", ParamString "identities"); ("id", ParamNumber 7)])
  = "/api/identities/7/history".
Proof.
  apply (buildUrl_fills_route
           [("kind", ParamString "identities", "/");
            ("id", ParamNumber 7, "/history")] "/api/"); reflexivity.
Defined.

(** ** Lists *)

Lemma find_app_found {A : Type} (f : A -> bool) (l l' : list A) (a : A) :
  find f l = Some a -> find f (l ++ l') = Some a.
Proof.
  induction l as [|x l IH]; cbn; [discriminate|]. now destruct (f x).
Qed.

Lemma find_app_missed {A : Type} (f : A -> bool) (l l' : list A) :
  find f l = None -> find f (l ++ l') = find f l'.
Proof.
  induction l as [|x l IH]; cbn; [reflexivity|].
  destruct (f x); [discriminate|assumption].
Qed.

Lemma sorted_snoc (l : list Z) (a : Z) :
  StronglySorted Z.lt l -> Forall (fun x => (x < a)%Z) l ->
  StronglySorted Z.lt (l ++ [a]).
Proof.
  induction 1 as [|x l S IH F]; intro B; cbn.
  - repeat constructor.
  - inversion B as [|? ? Bx Bl]; subst. constructor; [now apply IH|].
    apply Forall_app. split; [assumption|]. now constructor.
Qed.

(** ** The storage *)

Lemma has_hash_spec (hash : string) (row : Identity) :
  has_hash hash row = true <-> passportHash row = hash.
Proof. unfold has_hash. apply String.eqb_eq. Qed.

Lemma no_row_of_hash (hash : string) (l : list Identity) :
  existsb (has_hash hash) l = false <-> ~ In hash (map passportHash l).
Proof.
  induction l as [|row l IH]; cbn; [tauto|].
  rewrite orb_false_iff, IH. unfold has_hash.
  rewrite String.eqb_neq. tauto.
Qed.

Lemma find_distinct (l : list Identity) (row : Identity) :
  NoDup (map passportHash l) -> In row l ->
  find (has_hash (passportHash row)) l = Some row.
Proof.
  induction l as [|x l IH]; cbn [map find In]; [contradiction|].
  intros N [->|I].
  - unfold has_hash. now rewrite String.eqb_refl.
  - inversion N as [|? ? Nx Nl]; subst.
    destruct (has_hash (passportHash row) x) eqn:H; [|now apply IH].
    apply has_hash_spec in H. exfalso. apply Nx. rewrite H.
    now apply in_map.
Qed.

(** ** What the table keeps true *)

Lemma new_row_issued (body : RegisterIdentityRequest) (w : world) :
  issued_by body (new_row body w).
Proof. split; [reflexivity|]. now exists (rng w). Qed.

Lemma register_keeps_table (body : RegisterIdentityRequest) (w : world) :
  table_ok (db w) -> table_ok (db (snd (register body w))).
Proof.
  intros [P N S I R]. rewrite register_run.
  destruct (registerIdentitySchema_issues body) as [|i issues] eqn:V;
    [|now split].
  destruct (existsb _ _) eqn:E; cbn [snd db rows next_id].
  - split; cbn [rows next_id]; try assumption; [lia|].
    eapply Forall_impl; [|exact I]. cbn. intros row ?. lia.
  - split; cbn [rows next_id].
    + lia.
    + rewrite map_app. cbn [map]. apply NoDup_app; [assumption|repeat constructor; auto|].
      * intros h Hh [<-|[]]. now apply no_row_of_hash in E.
    + rewrite map_app. cbn [map]. apply sorted_snoc; [assumption|].
      apply Forall_map.
      eapply Forall_impl; [|exact I]. cbn. intros row ?. lia.
    + apply Forall_app. split.
      * eapply Forall_impl; [|exact I]. cbn. intros row ?. lia.
      * repeat constructor; cbn; lia.
    + apply Forall_app. split; [assumption|].
      repeat constructor. exists body. split.
      * now apply no_issues_valid.
      * apply new_row_issued.
Qed.

Lemma table_invariant (w : world) : reachable w -> table_ok (db w).
Proof.
  induction 1 as [e | w _ IH | w body _ IH | w body _ IH].
  - split; cbn; try constructor. lia.
  - rewrite seedDatabase_run. destruct (getIdentityByHash _ _); [assumption|].
    now apply register_keeps_table.
  - now apply register_keeps_table.
  - now rewrite verify_db.
Qed.

(** ** The table *)

(** In every state the server reaches, no two rows have the same passport
    hash, the ids grow with the order of insertion, and every id lies
    between 1 and the next value of the sequence. *)
Theorem table_keys_are_unique (w : world) :
  reachable w ->
  NoDup (map passportHash (rows (db w)))
  /\ StronglySorted Z.lt (map id (rows (db w)))
  /\ Forall (fun row => (1 <= id row < next_id (db w))%Z) (rows (db w)).
Proof.
  intro R. destruct (table_invariant w R) as [P N S I _]. now repeat split.
Qed.

Lemma table_keys_are_unique_witness :
  NoDup (map passportHash (rows (db (snd (register newcomer seeded)))))
  /\ StronglySorted Z.lt (map id (rows (db (snd (register newcomer seeded)))))
  /\ Forall (fun row =>
               (1 <= id row < next_id (db (snd (register newcomer seeded))))%Z)
       (rows (db (snd (register newcomer seeded)))).
Proof.
  apply (table_keys_are_unique (snd (register newcomer seeded))).
  apply reach_register, reach_seed, reach_start.
Defined.

(** Every row of the table is the one its hash finds. *)
Theorem stored_row_is_found (w : world) (row : Identity) :
  reachable w ->
  In row (rows (db w)) ->
  getIdentityByHash (passportHash row) (db w) = Some row.
Proof.
  intros R I. destruct (table_invariant w R) as [_ N _ _ _].
  now apply find_distinct.
Qed.

Lemma stored_row_is_found_witness :
  getIdentityByHash (passportHash (new_row seed_body (start demo_entropy)))
    (db (snd (register newcomer seeded)))
  = Some (new_row seed_body (start demo_entropy)).
Proof.
  apply (stored_row_is_found (snd (register newcomer seeded))).
  - apply reach_register, reach_seed, reach_start.
  - vm_compute. left. reflexivity.
Defined.

(** Every record that a lookup finds was written for a body that
    satisfies the schema. *)
Theorem stored_record_satisfies_schema (w : world) (hash : string)
  (row : Identity) :
  reachable w ->
  getIdentityByHash hash (db w) = Some row ->
  exists body,
    valid body
    /\ hash = SHA256.hex (passportId body)
    /\ registered w hash (fullName body) (age body) (expiryDate body)
         (verificationCode body).
Proof.
  intros R F. destruct (table_invariant w R) as [_ _ _ _ I].
  rewrite Forall_forall in I.
  pose proof F as F'. unfold getIdentityByHash in F'.
  apply find_some in F' as [In' H]. apply has_hash_spec in H.
  destruct (I row In') as (body & V & Hh & e & E).
  exists body. split; [assumption|]. split; [congruence|].
  now exists row, e.
Qed.

Lemma stored_record_satisfies_schema_witness :
  exists body,
    valid body
    /\ demo_hash = SHA256.hex (passportId body)
    /\ registered seeded demo_hash (fullName body) (age body) (expiryDate body)
         (verificationCode body).
Proof.
  apply (stored_record_satisfies_schema seeded demo_hash
           (new_row seed_body (start demo_entropy))).
  - apply reach_seed, reach_start.
  - vm_compute. reflexivity.
Defined.

(** ** Insert and lookup *)

(** [createIdentity] followed by [getIdentityByHash]: an insert that
    succeeds is found under its hash and changes no other lookup; an insert
    that fails met a row of the same hash and changes no lookup at all. *)
Theorem createIdentity_then_lookup (identity : InsertIdentity) (d : database) :
  match createIdentity identity d with
  | (Ok row, d') =>
      getIdentityByHash (insert_passportHash identity) d = None
      /\ getIdentityByHash (insert_passportHash identity) d' = Some row
      /\ passportHash row = insert_passportHash identity
      /\ encryptedData row = insert_encryptedData identity
      /\ forall hash,
          hash <> insert_passportHash identity ->
          getIdentityByHash hash d' = getIdentityByHash hash d
  | (Throw x, d') =>
      x = UniqueViolation "identities_passport_hash_unique"
      /\ getIdentityByHash (insert_passportHash identity) d <> None
      /\ forall hash, getIdentityByHash hash d' = getIdentityByHash hash d
  end.
Proof.
  unfold createIdentity, getIdentityByHash. rewrite find_existsb.
  destruct (find _ (rows d)) as [found|] eqn:F; cbn [rows].
  - repeat split; auto. discriminate.
  - split; [reflexivity|]. split.
    + rewrite (find_app_missed _ _ _ F). cbn [find]. unfold has_hash at 1.
      cbn [passportHash]. now rewrite String.eqb_refl.
    + repeat split. intros hash N.
      destruct (find (has_hash hash) (rows d)) as [r|] eqn:G.
      * now apply find_app_found.
      * rewrite (find_app_missed _ _ _ G). cbn [find]. unfold has_hash at 1.
        cbn [passportHash].
        destruct (String.eqb_spec (insert_passportHash identity) hash);
          [congruence|reflexivity].
Qed.

(** ** Records stay *)

Lemma register_lookup_kept (body : RegisterIdentityRequest) (w : world)
  (hash : string) (row : Identity) :
  getIdentityByHash hash (db w) = Some row ->
  getIdentityByHash hash (db (snd (register body w))) = Some row.
Proof.
  unfold getIdentityByHash. intro F.
  destruct (register_rows body w) as [-> | ->]; [assumption|].
  now apply find_app_found.
Qed.

Lemma seed_lookup_kept (w : world) (hash : string) (row : Identity) :
  getIdentityByHash hash (db w) = Some row ->
  getIdentityByHash hash (db (seedDatabase w)) = Some row.
Proof.
  intro F. rewrite seedDatabase_run.
  destruct (getIdentityByHash (SHA256.hex "A1234567") (db w));
    [assumption|now apply register_lookup_kept].
Qed.

(** A record, once stored, is what its hash finds after every later
    request: no registration, verification or seeding replaces or removes
    it. *)
Theorem records_persist (w : world) (hash : string) (name : string) (years : Z)
  (expiry code : string) :
  registered w hash name years expiry code ->
  (forall body,
      registered (snd (register body w)) hash name years expiry code)
  /\ (forall body,
         registered (snd (verify body w)) hash name years expiry code)
  /\ registered (seedDatabase w) hash name years expiry code.
Proof.
  intros (row & e & F & E). repeat split.
  - intro body. exists row, e. split; [|assumption].
    now apply register_lookup_kept.
  - intro body. exists row, e. split; [|assumption]. now rewrite verify_db.
  - exists row, e. split; [|assumption]. now apply seed_lookup_kept.
Qed.

Lemma records_persist_witness :
  (forall body,
      registered (snd (register body seeded)) demo_hash
        "Amjad Masad" 35 "2030-01-01" "1234")
  /\ (forall body,
         registered (snd (verify body seeded)) demo_hash
           "Amjad Masad" 35 "2030-01-01" "1234")
  /\ registered (seedDatabase seeded) demo_hash
       "Amjad Masad" 35 "2030-01-01" "1234".
Proof.
  apply (records_persist seeded demo_hash "Amjad Masad" 35 "2030-01-01" "1234").
  seeded_is_registered.
Defined.

(** ** Register, then verify *)

Lemma created_is_registered (body : RegisterIdentityRequest) (w : world)
  (id' : Z) :
  fst (register body w) = Created "Identity Issued" id' ->
  registered (snd (register body w)) (SHA256.hex (passportId body))
    (fullName body) (age body) (expiryDate body) (verificationCode body).
Proof.
  intro C. destruct (register_created body w id' C) as (_ & E & _ & R).
  exists (new_row body w), (rng w). split; [|reflexivity].
  unfold getIdentityByHash. rewrite R.
  rewrite find_app_missed.
  - cbn [find]. unfold has_hash, new_row. cbn [passportHash].
    now rewrite String.eqb_refl.
  - rewrite find_existsb in E. now destruct (find _ _).
Qed.

Lemma own_attributes_match (body : RegisterIdentityRequest)
  (e1 e2 e3 e4 : entropy) :
  Forall (typed_entry (fullName body) (age body) (expiryDate body)
            (verificationCode body))
    (encryptedQuery (query_for body e1 e2 e3 e4))
  /\ Forall (matching_entry (fullName body) (age body) (expiryDate body)
               (verificationCode body))
       (encryptedQuery (query_for body e1 e2 e3 e4)).
Proof.
  split; repeat constructor.
  - exists (JStr (fullName body)), (JStr (fullName body)).
    repeat split. apply decrypt_ciphertext_of.
  - exists (JNum (age body)), (JNum (age body)).
    repeat split. apply decrypt_ciphertext_of.
  - exists (JStr (expiryDate body)), (JStr (expiryDate body)).
    repeat split. apply decrypt_ciphertext_of.
  - exists (JStr (verificationCode body)), (JStr (verificationCode body)).
    repeat split. apply decrypt_ciphertext_of.
  - exists (JStr (fullName body)). split; [reflexivity|apply decrypt_ciphertext_of].
  - exists (JNum (age body)). split; [reflexivity|apply decrypt_ciphertext_of].
  - exists (JStr (expiryDate body)). split; [reflexivity|apply decrypt_ciphertext_of].
  - exists (JStr (verificationCode body)).
    split; [reflexivity|apply decrypt_ciphertext_of].
Qed.

(** A registration that succeeds can be verified at once: the query that
    holds the four attributes of the body, encrypted afresh, is answered
    with a ciphertext of 1. *)
Theorem registration_is_verifiable (body : RegisterIdentityRequest) (w : world)
  (id' : Z) (e1 e2 e3 e4 : entropy) :
  fst (register body w) = Created "Identity Issued" id' ->
  exists ct,
    fst (verify (query_for body e1 e2 e3 e4) (snd (register body w)))
    = Success ct
    /\ decrypt ct = Ok (num 1).
Proof.
  intro C. apply created_is_registered in C.
  destruct (verify_registered (query_for body e1 e2 e3 e4) _ _ _ _ _
              (digest_zero_free (passportId body)) C)
    as (e & V).
  destruct (own_attributes_match body e1 e2 e3 e4) as [T M].
  rewrite (typed_query_kept _ _ _ _ _ T) in V.
  destruct (typed_entries_outcomes _ _ _ _ e _ T) as (bits & S & B).
  rewrite S in V. apply B in M. rewrite M in V.
  eexists. split; [exact V|]. apply decrypt_ciphertext_of.
Qed.

Lemma registration_is_verifiable_witness :
  exists ct,
    fst (verify (query_for newcomer demo_entropy demo_entropy demo_entropy
                   demo_entropy)
           (snd (register newcomer seeded)))
    = Success ct
    /\ decrypt ct = Ok (num 1).
Proof.
  apply (registration_is_verifiable newcomer seeded 2).
  vm_compute. reflexivity.
Defined.

(** ** The order and the size of a query *)

Lemma sequence_map_ok_all {A B : Type} (f : A -> result B) (l : list A) :
  (exists bs, sequence (map f l) = Ok bs)
  <-> Forall (fun a => exists b, f a = Ok b) l.
Proof.
  split.
  - intros (bs & S). apply sequence_map_ok in S.
    induction S as [|a b l bs H _ IH]; constructor; [now exists b|assumption].
  - apply sequence_map_all_ok.
Qed.

Lemma all_match_outcomes {A : Type} (f : A -> result bool) (l : list A)
  (bits : list bool) :
  sequence (map f l) = Ok bits ->
  (all_match bits = true <-> Forall (fun a => f a = Ok true) l).
Proof.
  intro S. apply sequence_map_ok in S. unfold all_match.
  induction S as [|a b l bs H _ IH]; cbn [forallb].
  - split; [constructor|reflexivity].
  - rewrite andb_true_iff, IH. split.
    + intros [-> ?]. now constructor.
    + intro F. inversion F as [|? ? Ha Hl]; subst.
      split; [congruence|assumption].
Qed.

(** The comparisons of a query made of entries of another one: they throw
    nothing when those do not, and all match when those do. *)
Lemma outcomes_of_part {A : Type} (f : A -> result bool)
  (l l' : list A) :
  (forall a, In a l' -> In a l) ->
  forall bits,
    sequence (map f l) = Ok bits ->
    exists bits',
      sequence (map f l') = Ok bits'
      /\ (all_match bits = true -> all_match bits' = true).
Proof.
  intros I bits S.
  assert (O : Forall (fun a => exists b, f a = Ok b) l).
  { apply sequence_map_ok_all. now exists bits. }
  destruct (proj2 (sequence_map_ok_all f l')) as (bits' & S').
  { rewrite Forall_forall in *. auto. }
  exists bits'. split; [assumption|].
  rewrite (all_match_outcomes f l bits S), (all_match_outcomes f l' bits' S').
  rewrite !Forall_forall. auto.
Qed.

Lemma match_bit_num (b : bool) (e : entropy) :
  decrypt (ciphertext_of (JNum (if b then 1 else 0)) e)
  = Ok (num (if b then 1 else 0)).
Proof. apply decrypt_ciphertext_of. Qed.

(** What [verify] answers, in the cases of its lookup. *)
Lemma verify_cases (hash : string) (query : list (string * string)) (w : world) :
  if has_zero_byte hash then
    fst (verify {| query_passportHash := hash; encryptedQuery := query |} w)
    = BadRequest InvalidByteSequence
  else
    match getIdentityByHash hash (db w) with
    | None =>
        fst (verify {| query_passportHash := hash; encryptedQuery := query |} w)
        = NotFound "Identity not found"
    | Some row =>
        match JSON_parse (encryptedData row) with
        | None =>
            fst (verify {| query_passportHash := hash;
                           encryptedQuery := query |} w)
            = BadRequest SyntaxError
        | Some storedData =>
            match sequence (map (field_outcome storedData)
                              (record_parse query)) with
            | Ok bits =>
                exists e,
                  fst (verify {| query_passportHash := hash;
                                 encryptedQuery := query |} w)
                  = Success (ciphertext_of
                               (JNum (if all_match bits then 1 else 0)) e)
            | Throw x =>
                fst (verify {| query_passportHash := hash;
                               encryptedQuery := query |} w)
                = BadRequest x
            end
        end
    end.
Proof.
  destruct (has_zero_byte hash) eqn:Z; [now rewrite verify_zero_byte|].
  destruct (getIdentityByHash hash (db w)) as [row|] eqn:F.
  - destruct (JSON_parse (encryptedData row)) as [sd|] eqn:P.
    + rewrite (verify_run {| query_passportHash := hash;
                             encryptedQuery := query |} w row sd Z F P).
      cbv zeta. cbn [encryptedQuery].
      destruct (sequence _); [eexists|]; reflexivity.
    + rewrite verify_lookup by exact Z.
      unfold respond. cbn [query_passportHash]. rewrite F.
      unfold mbind at 1, lift at 1, JSON_parse_or_throw. now rewrite P.
  - now rewrite verify_not_found.
Qed.

(** The verdict of a verification does not depend on the order of the
    entries of the query. *)
Theorem verify_order_independent (w : world) (hash : string)
  (query query' : list (string * string)) :
  Permutation query query' ->
  same_verdict
    (fst (verify {| query_passportHash := hash; encryptedQuery := query |} w))
    (fst (verify {| query_passportHash := hash; encryptedQuery := query' |} w)).
Proof.
  intro P. apply record_parse_Permutation in P.
  pose proof (verify_cases hash query w) as V.
  pose proof (verify_cases hash query' w) as V'.
  destruct (has_zero_byte hash); [rewrite V, V'; exact I|].
  destruct (getIdentityByHash hash (db w)) as [row|];
    [|rewrite V, V'; reflexivity].
  destruct (JSON_parse (encryptedData row)) as [sd|];
    [|rewrite V, V'; exact I].
  destruct (sequence (map (field_outcome sd) (record_parse query)))
    as [bits|x] eqn:S.
  - destruct (outcomes_of_part (field_outcome sd) (record_parse query)
                (record_parse query')
                (fun a H => Permutation_in a (Permutation_sym P) H) bits S)
      as (bits' & S' & B).
    rewrite S' in V'.
    destruct (outcomes_of_part (field_outcome sd) (record_parse query')
                (record_parse query)
                (fun a H => Permutation_in a P H) bits' S')
      as (bits2 & S2 & B').
    rewrite S in S2. injection S2 as <-.
    destruct V as (e & ->), V' as (e' & ->). cbn [same_verdict].
    rewrite !match_bit_num.
    destruct (all_match bits), (all_match bits'); try reflexivity.
    + now discriminate B.
    + now discriminate B'.
  - destruct (sequence (map (field_outcome sd) (record_parse query')))
      as [bits'|x'] eqn:S'.
    + destruct (outcomes_of_part (field_outcome sd) (record_parse query')
                  (record_parse query)
                  (fun a H => Permutation_in a P H) bits' S')
        as (bits2 & S2 & _).
      congruence.
    + rewrite V, V'. exact I.
Qed.

Lemma verify_order_independent_witness :
  same_verdict
    (fst (verify {| query_passportHash := demo_hash;
                    encryptedQuery := scenario_query 35 |} seeded))
    (fst (verify {| query_passportHash := demo_hash;
                    encryptedQuery := rev (scenario_query 35) |} seeded)).
Proof.
  apply (verify_order_independent seeded demo_hash (scenario_query 35)
           (rev (scenario_query 35))).
  apply Permutation_rev.
Defined.

(** A query that matches keeps matching when entries are left out: if
    the answer to a query decrypts to 1, so does the answer to every query
    made of entries of it. *)
Theorem verify_part_of_a_match (w : world) (hash : string)
  (query query' : list (string * string)) (ct : string) :
  incl query' query ->
  fst (verify {| query_passportHash := hash; encryptedQuery := query |} w)
  = Success ct ->
  decrypt ct = Ok (num 1) ->
  exists ct',
    fst (verify {| query_passportHash := hash; encryptedQuery := query' |} w)
    = Success ct'
    /\ decrypt ct' = Ok (num 1).
Proof.
  intros I V D.
  assert (I' : forall a, In a (record_parse query') -> In a (record_parse query)).
  { intros a H. apply record_parse_In in H. apply record_parse_In.
    split; [apply I|]; apply H. }
  pose proof (verify_cases hash query w) as C.
  pose proof (verify_cases hash query' w) as C'.
  destruct (has_zero_byte hash); [congruence|].
  destruct (getIdentityByHash hash (db w)) as [row|]; [|congruence].
  destruct (JSON_parse (encryptedData row)) as [sd|]; [|congruence].
  destruct (sequence (map (field_outcome sd) (record_parse query)))
    as [bits|x] eqn:S; [|congruence].
  destruct C as (e & C). rewrite C in V. injection V as <-.
  rewrite match_bit_num in D.
  assert (M : all_match bits = true).
  { destruct (all_match bits); [reflexivity|discriminate]. }
  destruct (outcomes_of_part (field_outcome sd) (record_parse query)
              (record_parse query') I' bits S)
    as (bits' & S' & B).
  rewrite S' in C'. destruct C' as (e' & ->). rewrite (B M).
  eexists. split; [reflexivity|]. apply decrypt_ciphertext_of.
Qed.

Lemma verify_part_of_a_match_witness :
  exists ct',
    fst (verify {| query_passportHash := demo_hash;
                   encryptedQuery := firstn 2 (scenario_query 35) |} seeded)
    = Success ct'
    /\ decrypt ct' = Ok (num 1).
Proof.
  apply (verify_part_of_a_match seeded demo_hash (scenario_query 35)
           (firstn 2 (scenario_query 35))
           (ciphertext_of (JNum 1)
              (entropy_after 4 (rng seeded)))).
  - intros a H. cbn [firstn scenario_query] in H.
    destruct H as [<-|[<-|[]]]; [left|right; left]; reflexivity.
  - vm_compute. reflexivity.
  - vm_compute. reflexivity.
Defined.

(** ** What a verification can answer *)

(** The three answers of the verify handler: 404 exactly when the
    database takes the hash (it holds no character U+0000) and no record
    is stored under it; a 200 whose ciphertext decrypts to the number 0 or
    to the number 1, never to anything else; a 400 otherwise, which is the
    answer to every hash the database refuses.  It never answers as the
    register handler does. *)
Theorem verify_answers (body : VerifyIdentityRequest) (w : world) :
  (fst (verify body w) = NotFound "Identity not found"
   <-> has_zero_byte (query_passportHash body) = false
       /\ getIdentityByHash (query_passportHash body) (db w) = None)
  /\ (has_zero_byte (query_passportHash body) = true ->
      fst (verify body w) = BadRequest InvalidByteSequence)
  /\ (forall ct,
         fst (verify body w) = Success ct ->
         decrypt ct = Ok (num 0) \/ decrypt ct = Ok (num 1))
  /\ match fst (verify body w) with
     | NotFound message => message = "Identity not found"
     | Success _ | BadRequest _ => True
     | Created _ _ => False
     end.
Proof.
  destruct body as [hash query]. cbn [query_passportHash].
  pose proof (verify_cases hash query w) as V.
  destruct (has_zero_byte hash).
  { rewrite V. split; [split; [discriminate|intros [? _]; discriminate]|].
    split; [reflexivity|]. split; [discriminate|exact I]. }
  destruct (getIdentityByHash hash (db w)) as [row|].
  - assert (N : forall r : response,
                r <> NotFound "Identity not found" ->
                (r = NotFound "Identity not found"
                 <-> false = false /\ Some row = @None Identity)).
    { intros r H. split; [contradiction|intros [_ ?]; discriminate]. }
    destruct (JSON_parse (encryptedData row)) as [sd|].
    + destruct (sequence (map (field_outcome sd) (record_parse query)))
        as [bits|x].
      * destruct V as (e & ->). cbn [fst]. split; [apply N; discriminate|].
        split; [discriminate|].
        split; [|exact I]. intros ct [= <-]. rewrite match_bit_num.
        destruct (all_match bits); auto.
      * rewrite V. split; [apply N; discriminate|].
        split; [discriminate|]. split; [discriminate|exact I].
    + rewrite V. split; [apply N; discriminate|].
      split; [discriminate|]. split; [discriminate|exact I].
  - rewrite V. split; [split; [now split|reflexivity]|].
    split; [discriminate|]. split; [discriminate|reflexivity].
Qed.

(** ** The gate is symmetric *)

Lemma strict_eq_sym (a b : jsval) : strict_eq a b = strict_eq b a.
Proof.
  destruct a as [|[| x | x | x | x | x]|x], b as [|[| y | y | y | y | y]|y];
    cbn [strict_eq]; try reflexivity.
  - now destruct x, y.
  - apply Z.eqb_sym.
  - apply String.eqb_sym.
  - apply String.eqb_sym.
Qed.

Lemma same_number_sym (a b : option Z) : same_number a b = same_number b a.
Proof. destruct a, b; cbn; try reflexivity. apply Z.eqb_sym. Qed.

Lemma ToPrimitive_primitive (v : jsval) :
  is_object v = false -> ToPrimitive v = Ok v.
Proof. intro H. unfold ToPrimitive. now rewrite H. Qed.

Lemma compare_primitives_sym (pa pb : jsval) :
  match pa, pb with
  | VJson (JStr x), VJson (JStr y) => Ok (x =? y)%string
  | _, _ => Ok (same_number (ToNumber pa) (ToNumber pb))
  end
  = match pb, pa with
    | VJson (JStr x), VJson (JStr y) => Ok (x =? y)%string
    | _, _ => Ok (same_number (ToNumber pb) (ToNumber pa))
    end.
Proof.
  destruct pa as [|[| x | x | x | x | x]|x], pb as [|[| y | y | y | y | y]|y];
    try (f_equal; apply same_number_sym).
  f_equal. apply String.eqb_sym.
Qed.

Lemma loose_eq_sym (a b : jsval) : loose_eq a b = loose_eq b a.
Proof.
  unfold loose_eq.
  rewrite (andb_comm (is_object b)), (strict_eq_sym b a).
  rewrite (orb_comm (is_nullish b)), (andb_comm (is_nullish b)).
  destruct (is_object a) eqn:Oa, (is_object b) eqn:Ob; cbn [andb];
    try reflexivity;
    destruct (is_nullish a || is_nullish b); try reflexivity.
  - rewrite (ToPrimitive_primitive b Ob).
    destruct (ToPrimitive a) as [pa|x]; cbn [bind]; [|reflexivity].
    apply compare_primitives_sym.
  - rewrite (ToPrimitive_primitive a Oa).
    destruct (ToPrimitive b) as [pb|x]; cbn [bind]; [|reflexivity].
    apply compare_primitives_sym.
  - rewrite (ToPrimitive_primitive a Oa), (ToPrimitive_primitive b Ob).
    cbn [bind]. apply compare_primitives_sym.
Qed.

(** [homomorphicEquality] does not depend on the order of its operands:
    with the same random draws it returns the same ciphertext, or fails
    the same way. *)
Theorem homomorphicEquality_symmetric (ct1 ct2 : jsval) (e : entropy) :
  homomorphicEquality ct1 ct2 e = homomorphicEquality ct2 ct1 e.
Proof.
  unfold homomorphicEquality, mbind, lift.
  destruct (decrypt ct1) as [v1|x1] eqn:D1, (decrypt ct2) as [v2|x2] eqn:D2;
    try reflexivity.
  - now rewrite (loose_eq_sym v1 v2).
  - now rewrite (decrypt_throws _ _ D1), (decrypt_throws _ _ D2).
Qed.

(** ** Seeding *)

Lemma seed_body_row (w : world) :
  getIdentityByHash (SHA256.hex "A1234567") (db w) = None ->
  db (seedDatabase w)
  = {| rows := rows (db w) ++ [new_row seed_body w];
       next_id := next_id (db w) + 1 |}.
Proof.
  intro F. rewrite seedDatabase_run, F, register_run.
  destruct (registerIdentitySchema_issues seed_body) eqn:V;
    [|discriminate V].
  unfold getIdentityByHash in F. rewrite find_existsb.
  cbn [passportId seed_body]. now rewrite F.
Qed.

Lemma has_seed_hash (w : world) :
  has_hash (SHA256.hex "A1234567") (new_row seed_body w) = true.
Proof.
  unfold has_hash, new_row. cbn [passportHash passportId seed_body].
  apply String.eqb_refl.
Qed.

Lemma seed_finds_demo (w : world) :
  getIdentityByHash (SHA256.hex "A1234567") (db w) = None ->
  getIdentityByHash (SHA256.hex "A1234567") (db (seedDatabase w))
  = Some (new_row seed_body w).
Proof.
  intro G. unfold getIdentityByHash. rewrite (seed_body_row w G). cbn [rows].
  unfold getIdentityByHash in G. rewrite (find_app_missed _ _ _ G).
  cbn [find]. now rewrite has_seed_hash.
Qed.

Lemma seed_row_bundle (w : world) :
  encryptedData (new_row seed_body w)
  = bundle_text "Amjad Masad" 35 "2030-01-01" "1234" (rng w).
Proof. unfold new_row. cbn [encryptedData]. reflexivity. Qed.

Lemma seed_stores_demo (w : world) :
  getIdentityByHash (SHA256.hex "A1234567") (db (seedDatabase w)) <> None.
Proof.
  destruct (getIdentityByHash (SHA256.hex "A1234567") (db w)) as [row|] eqn:G.
  - rewrite (seed_lookup_kept w _ row G). discriminate.
  - rewrite (seed_finds_demo w G). discriminate.
Qed.

Lemma seed_again (w : world) :
  getIdentityByHash (SHA256.hex "A1234567") (db w) <> None ->
  seedDatabase w = w.
Proof.
  intro F. rewrite seedDatabase_run.
  destruct (getIdentityByHash _ (db w)); [reflexivity|contradiction].
Qed.

(** [seedDatabase]: when the hash of the demo passport is not stored,
    one row is added and the demo identity is registered under it; the
    hash is stored afterwards in every case, so that seeding a second time
    changes nothing. *)
Theorem seedDatabase_once (w : world) :
  (getIdentityByHash (SHA256.hex "A1234567") (db w) = None ->
   rows (db (seedDatabase w)) = rows (db w) ++ [new_row seed_body w]
   /\ registered (seedDatabase w) (SHA256.hex "A1234567")
        "Amjad Masad" 35 "2030-01-01" "1234")
  /\ getIdentityByHash (SHA256.hex "A1234567") (db (seedDatabase w)) <> None
  /\ seedDatabase (seedDatabase w) = seedDatabase w.
Proof.
  split; [|split; [apply seed_stores_demo|]].
  - intro G. split; [now rewrite (seed_body_row w G)|].
    exists (new_row seed_body w), (rng w).
    split; [now apply seed_finds_demo|apply seed_row_bundle].
  - apply seed_again, seed_stores_demo.
Qed.

Lemma seedDatabase_once_witness :
  rows (db (seedDatabase (start demo_entropy)))
  = rows (db (start demo_entropy)) ++ [new_row seed_body (start demo_entropy)]
  /\ registered (seedDatabase (start demo_entropy)) (SHA256.hex "A1234567")
       "Amjad Masad" 35 "2030-01-01" "1234".
Proof.
  apply (proj1 (seedDatabase_once (start demo_entropy))). reflexivity.
Defined.

(** ** [atob] reads what the encoder writes *)

Lemma standard_value_digit (n : nat) :
  n < 64 -> standard_value (Base64.digit n) = Some n.
Proof.
  intro H.
  apply (below_forallb
           (fun i => match standard_value (Base64.digit i) with
                     | Some j => j =? i
                     | None => false
                     end) 64 eq_refl) in H.
  destruct (standard_value (Base64.digit n)); [|discriminate].
  apply Nat.eqb_eq in H. now subst.
Qed.

Lemma digit_no_whitespace (n : nat) :
  n < 64 -> is_ascii_whitespace (Base64.digit n) = false.
Proof.
  intro H.
  now apply (below_forallb
               (fun i => negb (is_ascii_whitespace (Base64.digit i))) 64 eq_refl),
    negb_true_iff in H.
Qed.

Lemma drop_padding_digit (n : nat) (l : list ascii) :
  n < 64 ->
  drop_padding (Base64.digit n :: l) = Base64.digit n :: drop_padding l.
Proof.
  intro H. cbn [drop_padding]. now rewrite base64_digit_not_pad.
Qed.

(** What the decoder sees of an encoded text: no white space, a length
    that is a multiple of four, and, once the padding is dropped, the
    digits of the bytes. *)
Lemma encode_chars (s : string) :
  filter (fun c => negb (is_ascii_whitespace c))
    (list_ascii_of_string (Base64.encode s))
  = list_ascii_of_string (Base64.encode s)
  /\ List.length (list_ascii_of_string (Base64.encode s)) mod 4 = 0
  /\ exists sextets,
      all_some (map standard_value
                  (drop_padding (list_ascii_of_string (Base64.encode s))))
      = Some sextets
      /\ Base64.bytes_of_sextets sextets = s
      /\ List.length
           (drop_padding (list_ascii_of_string (Base64.encode s))) mod 4 <> 1.
Proof.
  induction s as [|a|a b|a b c s (F & L & sx & A & B & N)] using string_ind3.
  - repeat split. exists []. repeat split. cbn. lia.
  - cbn [Base64.encode list_ascii_of_string filter]. sextet_bounds.
    rewrite !digit_no_whitespace by lia. cbn [negb].
    repeat split.
    exists [code a / 4; code a mod 4 * 16].
    rewrite !drop_padding_digit by lia.
    cbn [drop_padding map all_some Ascii.eqb Bool.eqb Base64.pad andb].
    rewrite !standard_value_digit by lia.
    cbn [and_then option_map all_some Base64.bytes_of_sextets List.length].
    split; [reflexivity|]. split; [|cbn; lia].
    f_equal. apply byte_of_code. lia.
  - cbn [Base64.encode list_ascii_of_string filter]. sextet_bounds.
    rewrite !digit_no_whitespace by lia. cbn [negb].
    repeat split.
    exists [code a / 4; code a mod 4 * 16 + code b / 16; code b mod 16 * 4].
    rewrite !drop_padding_digit by lia.
    cbn [drop_padding map all_some Ascii.eqb Bool.eqb Base64.pad andb].
    rewrite !standard_value_digit by lia.
    cbn [and_then option_map all_some Base64.bytes_of_sextets List.length].
    split; [reflexivity|]. split; [|cbn; lia].
    f_equal; [|f_equal]; apply byte_of_code; lia.
  - cbn [Base64.encode list_ascii_of_string filter]. sextet_bounds.
    rewrite !digit_no_whitespace by lia. cbn [negb]. rewrite F.
    split; [reflexivity|]. split; [cbn [List.length]; lia|].
    exists (code a / 4 :: code a mod 4 * 16 + code b / 16
              :: code b mod 16 * 4 + code c / 64 :: code c mod 64 :: sx).
    rewrite !drop_padding_digit by lia. cbn [map all_some].
    rewrite !standard_value_digit by lia. rewrite A.
    cbn [and_then option_map Base64.bytes_of_sextets List.length].
    split; [reflexivity|]. split; [|lia].
    rewrite B.
    f_equal; [|f_equal; [|f_equal]]; apply byte_of_code; lia.
Qed.

Lemma forgiving_decode_encode (s : string) :
  forgiving_base64_decode (Base64.encode s) = Some s.
Proof.
  destruct (encode_chars s) as (F & L & sx & A & B & N).
  unfold forgiving_base64_decode. rewrite F, L. cbn [Nat.eqb].
  apply Nat.eqb_neq in N. rewrite N, A. cbn [option_map]. now rewrite B.
Qed.

(** ** Texts of ASCII characters *)

Lemma is_ascii_cons (c : ascii) (s : string) :
  is_ascii (String c s) = (code c <? 128) && is_ascii s.
Proof. reflexivity. Qed.

Lemma is_ascii_append (s t : string) :
  is_ascii (s ++ t)%string = is_ascii s && is_ascii t.
Proof.
  induction s as [|c s IH]; [reflexivity|].
  cbn [append]. rewrite !is_ascii_cons, IH. apply andb_assoc.
Qed.

Lemma latin1_ascii (s : string) : is_ascii s = true -> latin1 s = Some s.
Proof.
  induction s as [|c s IH]; intro H; [reflexivity|].
  rewrite is_ascii_cons in H. apply andb_prop in H as [Hc Hs].
  cbn [latin1]. now rewrite Hc, (IH Hs).
Qed.

Lemma binary_string_ascii (s : string) :
  is_ascii s = true -> binary_string s = s.
Proof.
  induction s as [|c s IH]; intro H; [reflexivity|].
  rewrite is_ascii_cons in H. apply andb_prop in H as [Hc Hs].
  cbn [binary_string]. rewrite (IH Hs). unfold utf8.
  apply Nat.ltb_lt in Hc. unfold code in Hc.
  assert (L : (N_of_ascii c <? 128)%N = true).
  { apply N.ltb_lt. unfold nat_of_ascii in Hc. lia. }
  rewrite L, ascii_N_embedding. reflexivity.
Qed.

Lemma escape_char_ascii (c : ascii) :
  code c < 128 -> is_ascii (escape_char c) = true.
Proof.
  intro H. rewrite <- (ascii_nat_embedding c). fold (code c).
  now apply (below_forallb
               (fun i => is_ascii (escape_char (ascii_of_nat i))) 128 eq_refl).
Qed.

Lemma escape_ascii (s : string) : is_ascii s = true -> is_ascii (escape s) = true.
Proof.
  induction s as [|c s IH]; intro H; [reflexivity|].
  rewrite is_ascii_cons in H. apply andb_prop in H as [Hc Hs].
  cbn [escape]. rewrite is_ascii_append, (IH Hs), escape_char_ascii;
    [reflexivity|now apply Nat.ltb_lt].
Qed.

Lemma quote_ascii (s : string) : is_ascii s = true -> is_ascii (quote s) = true.
Proof.
  intro H. unfold quote. rewrite is_ascii_cons, is_ascii_append, (escape_ascii s H).
  reflexivity.
Qed.

Lemma number_to_string_ascii (n : Z) : is_ascii (number_to_string n) = true.
Proof.
  assert (U : forall u, is_ascii (NilEmpty.string_of_uint u) = true).
  { induction u; cbn [NilEmpty.string_of_uint]; rewrite ?is_ascii_cons;
      try assumption; reflexivity. }
  destruct n as [|p|p]; cbn [number_to_string]; [reflexivity|apply U|].
  rewrite is_ascii_cons, U. reflexivity.
Qed.

Lemma hex_digit_ascii (n : nat) : code (Hex.digit n) < 128.
Proof.
  unfold Hex.digit. destruct (Nat.lt_ge_cases n 16) as [H|H].
  - apply Nat.ltb_lt.
    now apply (below_forallb
                 (fun i => code (nth i Hex.alphabet "0"%char) <? 128) 16 eq_refl).
  - rewrite nth_overflow by exact H. cbn. lia.
Qed.

Lemma hex_encode_ascii (bytes : list ascii) : is_ascii (Hex.encode bytes) = true.
Proof.
  induction bytes as [|b bytes IH]; [reflexivity|].
  cbn [Hex.encode]. rewrite !is_ascii_cons, IH.
  pose proof (hex_digit_ascii (code b / 16)) as H1.
  pose proof (hex_digit_ascii (code b mod 16)) as H2.
  apply Nat.ltb_lt in H1, H2. now rewrite H1, H2.
Qed.

Lemma base36_digit_ascii (d : nat) : code (nth d base36 "0"%char) < 128.
Proof.
  destruct (Nat.lt_ge_cases d 36) as [H|H].
  - apply Nat.ltb_lt.
    now apply (below_forallb
                 (fun i => code (nth i base36 "0"%char) <? 128) 36 eq_refl).
  - rewrite nth_overflow by exact H. cbn. lia.
Qed.

Lemma substring_ascii (start : nat) (s : string) :
  is_ascii s = true -> is_ascii (String_substring start s) = true.
Proof.
  revert s. induction start as [|n IH]; intros s H; [exact H|].
  destruct s as [|c s]; [reflexivity|].
  rewrite is_ascii_cons in H. apply andb_prop in H as [_ Hs].
  cbn [String_substring]. now apply IH.
Qed.

Lemma toString36_ascii (digits : list nat) : is_ascii (toString36 digits) = true.
Proof.
  destruct digits as [|d digits]; [reflexivity|].
  unfold toString36. rewrite !is_ascii_cons. cbn [code nat_of_ascii].
  change (is_ascii
            (string_of_list_ascii
               (map (fun d => nth d base36 "0"%char) (d :: digits))) = true).
  induction (d :: digits) as [|x l IH]; [reflexivity|].
  cbn [map string_of_list_ascii]. rewrite is_ascii_cons, IH.
  pose proof (base36_digit_ascii x) as H. apply Nat.ltb_lt in H.
  now rewrite H.
Qed.

Lemma tag_ascii (rnd : random_numbers) (k : nat) : is_ascii (tag rnd k) = true.
Proof. apply substring_ascii, toString36_ascii. Qed.

Lemma payload_ascii (val : json) (r : string) :
  ascii_value val = true -> is_ascii r = true ->
  is_ascii (payload_of val r) = true.
Proof.
  intros V R. unfold payload_of.
  cbn [JSON_stringify map join member_text fst snd]. unfold member_text.
  cbn [fst snd JSON_stringify].
  assert (T : is_ascii (JSON_stringify val) = true).
  { destruct val; try discriminate; cbn [JSON_stringify].
    - apply number_to_string_ascii.
    - now apply quote_ascii. }
  rewrite !is_ascii_append, T, (quote_ascii r R). reflexivity.
Qed.

(** ** The page and the server read each other's ciphertexts *)

Lemma mockEncrypt_run (val : json) (rnd : random_numbers) :
  ascii_value val = true ->
  mockEncrypt val rnd
  = (Some (page_ciphertext val (tag rnd 0) (tag rnd 1)),
     fun i => rnd (S (S i))).
Proof.
  intro V. unfold mockEncrypt, page_bind, random_tag, page_lift, btoa.
  fold (tag rnd 0). fold (payload_of val (tag rnd 0)).
  rewrite (latin1_ascii _ (payload_ascii val _ V (tag_ascii rnd 0))).
  reflexivity.
Qed.

Lemma decrypt_page_ciphertext (val : json) (r noise : string) :
  decrypt (page_ciphertext val r noise) = Ok (VJson val).
Proof.
  unfold page_ciphertext. rewrite decrypt_Ciphertext.
  rewrite base64_decode_encode. unfold payload_of, JSON_parse_or_throw.
  rewrite JSON_parse_stringify. reflexivity.
Qed.

Lemma mockDecrypt_Ciphertext (val : json) (r noise : string) :
  is_ascii (payload_of val r) = true ->
  mockDecrypt (JSON_stringify (Ciphertext (Base64.encode (payload_of val r)) noise))
  = VJson val.
Proof.
  intro A. unfold mockDecrypt. rewrite JSON_parse_stringify.
  cbn [and_then]. unfold Ciphertext at 1.
  change (get (JObj [("type", JStr scheme_tag);
                     ("data", JStr (Base64.encode (payload_of val r)));
                     ("noise", JStr noise)]) "data")
    with (@Ok jsval (VJson (JStr (Base64.encode (payload_of val r))))).
  cbn [caught and_then]. unfold atob. cbn [ToString json_ToString caught and_then].
  rewrite forgiving_decode_encode. cbn [option_map and_then].
  rewrite (binary_string_ascii _ A). unfold payload_of at 1.
  rewrite JSON_parse_stringify. reflexivity.
Qed.

(** The server reads what the page encrypts: the ciphertext that
    [mockEncrypt] makes of a number, or of a text of ASCII characters,
    decrypts on the server to that value. *)
Theorem server_reads_page_ciphertext (val : json) (rnd : random_numbers) :
  ascii_value val = true ->
  exists ct rnd',
    mockEncrypt val rnd = (Some ct, rnd')
    /\ decrypt ct = Ok (VJson val).
Proof.
  intro V. eexists _, _. split; [now apply mockEncrypt_run|].
  apply decrypt_page_ciphertext.
Qed.

Lemma server_reads_page_ciphertext_witness :
  exists ct rnd',
    mockEncrypt (JStr "Amjad Masad") (fun _ => [10; 11; 12; 13; 14; 15; 16; 17])
    = (Some ct, rnd')
    /\ decrypt ct = Ok (VJson (JStr "Amjad Masad")).
Proof.
  apply (server_reads_page_ciphertext (JStr "Amjad Masad")). reflexivity.
Defined.

(** The page reads what the server encrypts: [mockDecrypt] on the
    ciphertext that [encrypt] makes of a number, or of a text of ASCII
    characters, is that value. *)
Theorem page_reads_server_ciphertext (val : json) (e : entropy) :
  ascii_value val = true ->
  exists ct e',
    encrypt val e = (Ok ct, e') /\ mockDecrypt ct = VJson val.
Proof.
  intro V. eexists _, _. split; [apply encrypt_run|].
  unfold ciphertext_of, data_of. apply mockDecrypt_Ciphertext.
  apply payload_ascii; [exact V|apply hex_encode_ascii].
Qed.

Lemma page_reads_server_ciphertext_witness :
  exists ct e',
    encrypt (JNum 1) demo_entropy = (Ok ct, e') /\ mockDecrypt ct = VJson (JNum 1).
Proof.
  apply (page_reads_server_ciphertext (JNum 1)). reflexivity.
Defined.

(** ** The page, end to end *)

Lemma encryptedQuery_run (data : RegisterIdentityRequest) (rnd : random_numbers) :
  is_ascii (fullName data) = true ->
  is_ascii (expiryDate data) = true ->
  is_ascii (verificationCode data) = true ->
  encryptedQuery_of data rnd
  = (Some (page_query data rnd), fun i => rnd (8 + i)).
Proof.
  intros N X C. unfold encryptedQuery_of, page_bind.
  rewrite (mockEncrypt_run (JStr (fullName data)) rnd N).
  rewrite (mockEncrypt_run (JNum (age data)) _ eq_refl).
  rewrite (mockEncrypt_run (JStr (expiryDate data)) _ X).
  rewrite (mockEncrypt_run (JStr (verificationCode data)) _ C).
  reflexivity.
Qed.

Lemma page_query_typed (data : RegisterIdentityRequest) (rnd : random_numbers)
  (name : string) (years : Z) (expiry code : string) :
  Forall (typed_entry name years expiry code) (page_query data rnd)
  /\ (Forall (matching_entry name years expiry code) (page_query data rnd)
      <-> fullName data = name /\ age data = years
          /\ expiryDate data = expiry /\ verificationCode data = code).
Proof.
  split; [|split].
  - repeat constructor.
    + exists (JStr (fullName data)), (JStr name).
      repeat split. apply decrypt_page_ciphertext.
    + exists (JNum (age data)), (JNum years).
      repeat split. apply decrypt_page_ciphertext.
    + exists (JStr (expiryDate data)), (JStr expiry).
      repeat split. apply decrypt_page_ciphertext.
    + exists (JStr (verificationCode data)), (JStr code).
      repeat split. apply decrypt_page_ciphertext.
  - intro F. unfold page_query in F.
    inversion F as [|? ? (v1 & A1 & D1) F1]; subst.
    inversion F1 as [|? ? (v2 & A2 & D2) F2]; subst.
    inversion F2 as [|? ? (v3 & A3 & D3) F3]; subst.
    inversion F3 as [|? ? (v4 & A4 & D4) _]; subst.
    cbn [fst snd] in *. rewrite decrypt_page_ciphertext in D1, D2, D3, D4.
    cbn in A1, A2, A3, A4. repeat split; congruence.
  - intros (<- & <- & <- & <-). repeat constructor.
    + exists (JStr (fullName data)). split; [reflexivity|].
      apply decrypt_page_ciphertext.
    + exists (JNum (age data)). split; [reflexivity|].
      apply decrypt_page_ciphertext.
    + exists (JStr (expiryDate data)). split; [reflexivity|].
      apply decrypt_page_ciphertext.
    + exists (JStr (verificationCode data)). split; [reflexivity|].
      apply decrypt_page_ciphertext.
Qed.

Lemma mockDecrypt_match_bit (b : bool) (e : entropy) :
  strict_eq (mockDecrypt (ciphertext_of (JNum (if b then 1 else 0)) e)) (num 1)
  = b.
Proof.
  unfold ciphertext_of, data_of. rewrite mockDecrypt_Ciphertext.
  - now destruct b.
  - apply payload_ascii; [reflexivity|apply hex_encode_ascii].
Qed.

(** The page, against the server it talks to: for a record stored
    under the digest of the passport id of the form, and a form of ASCII
    texts, [onSubmit] ends in success exactly when the four attributes of
    the form are the stored ones. *)
Theorem page_confirms_stored_attributes
  (mutateAsync : VerifyIdentityRequest -> option string) (w : world)
  (data : RegisterIdentityRequest) (name : string) (years : Z)
  (expiry code : string) (rnd : random_numbers) :
  registered w (SHA256.hex (passportId data)) name years expiry code ->
  is_ascii (fullName data) = true ->
  is_ascii (expiryDate data) = true ->
  is_ascii (verificationCode data) = true ->
  (forall body ct, fst (verify body w) = Success ct -> mutateAsync body = Some ct) ->
  fst (onSubmit mutateAsync data rnd) = success
  <-> fullName data = name /\ age data = years
      /\ expiryDate data = expiry /\ verificationCode data = code.
Proof.
  intros R N X C H.
  destruct (page_query_typed data rnd name years expiry code) as [T M].
  destruct (verify_registered
              {| query_passportHash := SHA256.hex (passportId data);
                 encryptedQuery := page_query data rnd |}
              w name years expiry code
              (digest_zero_free (passportId data)) R) as (e & V).
  cbn [encryptedQuery] in V.
  rewrite (typed_query_kept _ _ _ _ _ T) in V.
  destruct (typed_entries_outcomes name years expiry code e _ T)
    as (bits & S & B).
  rewrite S in V. apply H in V.
  unfold onSubmit, page_bind. rewrite (encryptedQuery_run data rnd N X C).
  unfold page_lift. rewrite V. unfold page_ret.
  rewrite mockDecrypt_match_bit. rewrite <- M, <- B.
  destruct (all_match bits); cbn [fst]; split; congruence.
Qed.

Lemma server_hook_answers (w : world) (body : VerifyIdentityRequest)
  (ct : string) :
  fst (verify body w) = Success ct -> server_hook w body = Some ct.
Proof. intro V. unfold server_hook. now rewrite V. Qed.

Lemma page_confirms_stored_attributes_witness :
  fst (onSubmit (server_hook seeded) seed_body demo_numbers) = success.
Proof.
  apply (proj2 (page_confirms_stored_attributes (server_hook seeded) seeded
                  seed_body "Amjad Masad" 35 "2030-01-01" "1234" demo_numbers
                  ltac:(seeded_is_registered) eq_refl eq_refl eq_refl
                  (server_hook_answers seeded))).
  repeat split.
Defined.

(** ** Beyond Latin-1 *)

Lemma beyond_latin1_cons (c : ascii) (s : string) :
  beyond_latin1 (String c s) = (196 <=? code c) || beyond_latin1 s.
Proof. reflexivity. Qed.

Lemma beyond_latin1_append (s t : string) :
  beyond_latin1 (s ++ t)%string = beyond_latin1 s || beyond_latin1 t.
Proof.
  induction s as [|c s IH]; [reflexivity|].
  cbn [append]. rewrite !beyond_latin1_cons, IH. apply orb_assoc.
Qed.

Lemma latin1_refuses (n : nat) :
  forall s, String.length s <= n -> beyond_latin1 s = true -> latin1 s = None.
Proof.
  induction n as [|n IH]; intros [|c s] L B; try discriminate;
    cbn [String.length] in L; [lia|].
  rewrite beyond_latin1_cons in B. cbn [latin1].
  destruct (code c <? 128) eqn:A.
  - apply Nat.ltb_lt in A.
    replace (196 <=? code c) with false in B by (symmetry; apply Nat.leb_gt; lia).
    rewrite (IH s) by (lia || assumption). reflexivity.
  - destruct ((code c =? 194) || (code c =? 195)) eqn:T; [|reflexivity].
    destruct s as [|d s]; [reflexivity|].
    destruct (in_range 128 191 d) eqn:R; [|reflexivity].
    replace (196 <=? code c) with false in B.
    2:{ symmetry. apply Nat.leb_gt.
        apply orb_prop in T as [T|T]; apply Nat.eqb_eq in T; lia. }
    rewrite beyond_latin1_cons in B.
    replace (196 <=? code d) with false in B.
    2:{ symmetry. apply Nat.leb_gt. unfold in_range in R.
        apply andb_prop in R as [_ R]. apply Nat.leb_le in R. lia. }
    cbn [String.length] in L.
    rewrite (IH s) by (lia || assumption). reflexivity.
Qed.

Lemma escape_char_high (c : ascii) :
  196 <= code c -> escape_char c = String c "".
Proof.
  intro H. pose proof (code_lt_256 c) as L.
  rewrite <- (ascii_nat_embedding c). fold (code c).
  pose proof (below_forallb
                (fun i => implb (196 <=? i)
                            (String.eqb (escape_char (ascii_of_nat i))
                               (String (ascii_of_nat i) "")))
                256 eq_refl (code c) L) as E.
  cbv beta in E. apply Nat.leb_le in H. rewrite H in E.
  now apply String.eqb_eq in E.
Qed.

Lemma escape_beyond_latin1 (s : string) :
  beyond_latin1 s = true -> beyond_latin1 (escape s) = true.
Proof.
  induction s as [|c s IH]; intro B; [discriminate|].
  rewrite beyond_latin1_cons in B. cbn [escape].
  rewrite beyond_latin1_append.
  destruct (196 <=? code c) eqn:H.
  - apply Nat.leb_le in H. rewrite (escape_char_high c H).
    rewrite beyond_latin1_cons. apply Nat.leb_le in H. now rewrite H.
  - rewrite (IH B). apply orb_true_r.
Qed.

Lemma code_of_N (x : N) : (x < 256)%N -> code (ascii_of_N x) = N.to_nat x.
Proof.
  intro H. unfold code, nat_of_ascii. now rewrite N_ascii_embedding.
Qed.

Lemma utf8_beyond_latin1 (cp : N) :
  (256 <= cp < 1114112)%N -> beyond_latin1 (utf8 cp) = true.
Proof.
  intro H. unfold utf8.
  destruct (cp <? 128)%N eqn:A; [apply N.ltb_lt in A; lia|].
  destruct (cp <? 2048)%N eqn:B; [|destruct (cp <? 65536)%N eqn:C];
    rewrite beyond_latin1_cons;
    apply orb_true_intro; left; apply Nat.leb_le;
    rewrite code_of_N; try apply N.ltb_lt in B; try apply N.ltb_lt in C;
    try apply N.ltb_ge in B; try apply N.ltb_ge in C; lia.
Qed.

Lemma mockEncrypt_refuses (s : string) (rnd : random_numbers) :
  beyond_latin1 s = true -> fst (mockEncrypt (JStr s) rnd) = None.
Proof.
  intro B. unfold mockEncrypt, page_bind, random_tag, page_lift, btoa.
  rewrite (latin1_refuses _ _ (Nat.le_refl _)); [reflexivity|].
  cbn [JSON_stringify map join member_text fst snd]. unfold member_text.
  cbn [fst snd JSON_stringify]. unfold quote at 2.
  rewrite !beyond_latin1_append, !beyond_latin1_cons, !beyond_latin1_append.
  rewrite (escape_beyond_latin1 s B).
  now rewrite !orb_true_r.
Qed.

Lemma encryptedQuery_refuses (data : RegisterIdentityRequest)
  (rnd : random_numbers) :
  beyond_latin1 (fullName data) = true
  \/ beyond_latin1 (expiryDate data) = true
  \/ beyond_latin1 (verificationCode data) = true ->
  fst (encryptedQuery_of data rnd) = None.
Proof.
  intro B. unfold encryptedQuery_of, page_bind.
  destruct (mockEncrypt (JStr (fullName data)) rnd) as [[c1|] r1] eqn:E1;
    [|reflexivity].
  destruct (mockEncrypt (JNum (age data)) r1) as [[c2|] r2]; [|reflexivity].
  destruct (mockEncrypt (JStr (expiryDate data)) r2) as [[c3|] r3] eqn:E3;
    [|reflexivity].
  destruct (mockEncrypt (JStr (verificationCode data)) r3) as [[c4|] r4] eqn:E4;
    [|reflexivity].
  destruct B as [B|[B|B]].
  - apply (mockEncrypt_refuses _ rnd) in B. rewrite E1 in B. discriminate.
  - apply (mockEncrypt_refuses _ r2) in B. rewrite E3 in B. discriminate.
  - apply (mockEncrypt_refuses _ r3) in B. rewrite E4 in B. discriminate.
Qed.

(** A form with a character from U+0100 on in one of its texts (a
    lone surrogate, which [JSON.stringify] escapes, aside): [btoa] throws,
    no request is sent, and [onSubmit] ends in failure, whatever the
    server holds. *)
Theorem page_fails_beyond_latin1
  (mutateAsync : VerifyIdentityRequest -> option string)
  (data : RegisterIdentityRequest) (before after : string) (cp : N)
  (rnd : random_numbers) :
  (256 <= cp < 1114112)%N ->
  (cp < 55296 \/ 57343 < cp)%N ->
  In (before ++ utf8 cp ++ after)%string
    [fullName data; expiryDate data; verificationCode data] ->
  fst (onSubmit mutateAsync data rnd) = failure.
Proof.
  intros R _ I.
  assert (B : beyond_latin1 (before ++ utf8 cp ++ after) = true).
  { rewrite !beyond_latin1_append, (utf8_beyond_latin1 cp R).
    apply orb_true_iff. right. reflexivity. }
  assert (C : beyond_latin1 (fullName data) = true
              \/ beyond_latin1 (expiryDate data) = true
              \/ beyond_latin1 (verificationCode data) = true).
  { destruct I as [E|[E|[E|[]]]]; rewrite <- E in B; auto. }
  unfold onSubmit, page_bind.
  pose proof (encryptedQuery_refuses data rnd C) as Q.
  destruct (encryptedQuery_of data rnd) as [[q|] r];
    [discriminate Q|reflexivity].
Qed.

Lemma page_fails_beyond_latin1_witness :
  fst (onSubmit (server_hook seeded) arabic_form demo_numbers) = failure.
Proof.
  apply (page_fails_beyond_latin1 (server_hook seeded) arabic_form
           "" (utf8 1605 ++ utf8 1580 ++ utf8 1583) 1571 demo_numbers).
  - lia.
  - left. lia.
  - left. reflexivity.
Defined.
